(** * DNS Doctor: the resolution and diagnosis core

    A shallow embedding of [worker/src/types.ts], [worker/src/constants.ts],
    [worker/src/dns.ts] and [worker/src/diagnose.ts].

    - JavaScript strings are Rocq strings, read as sequences of code units
      below 256.
    - A JavaScript object used as a dictionary is an association list in
      [Object.entries] order.
    - A JavaScript [Set] is a duplicate-free list in insertion order.
    - The network is an oracle [fetch] from the request URL to what the
      request settles to; the order in which concurrent requests settle is
      chosen by an explicit schedule. *)

From Stdlib Require Import List String Ascii Bool Arith NArith ZArith Lia.
From Stdlib Require Import Permutation DecimalString.
Import ListNotations.

Local Open Scope string_scope.
Local Open Scope list_scope.

(* ------------------------------------------------------------------ *)
(** ** JavaScript strings *)

Module JsString.

(** [String.prototype.toLowerCase] on code units below 256: the ASCII
    capitals and the Latin-1 capitals (all of U+00C0..U+00DE but the
    multiplication sign U+00D7) move up by 32. *)
Definition toLowerCase_unit (c : ascii) : ascii :=
  let n := N_of_ascii c in
  if ((65 <=? n) && (n <=? 90) ||
      (192 <=? n) && (n <=? 222) && negb (n =? 215))%N
  then ascii_of_N (n + 32)
  else c.

Fixpoint toLowerCase (s : string) : string :=
  match s with
  | EmptyString => EmptyString
  | String c rest => String (toLowerCase_unit c) (toLowerCase rest)
  end.

(** [s.startsWith(p)] *)
Definition startsWith (s p : string) : bool := String.prefix p s.

(** [s.endsWith(p)] for a one-unit [p] *)
Fixpoint endsWith_unit (s : string) (c : ascii) : bool :=
  match s with
  | EmptyString => false
  | String a EmptyString => Ascii.eqb a c
  | String _ rest => endsWith_unit rest c
  end.

(** [s.split(sep)] for a one-unit separator: never empty, one more piece
    than there are separators. *)
Fixpoint split (sep : ascii) (s : string) : list string :=
  match s with
  | EmptyString => [EmptyString]
  | String a rest =>
      if Ascii.eqb a sep then EmptyString :: split sep rest
      else match split sep rest with
           | piece :: pieces => String a piece :: pieces
           | [] => [String a EmptyString]
           end
  end.

(** [arr.slice(1)] *)
Definition slice1 {A : Type} (l : list A) : list A := tl l.

(** Template-literal rendering of an integer-valued number. *)
Definition ofNumber (z : Z) : string := NilZero.string_of_int (Z.to_int z).

End JsString.

(* ------------------------------------------------------------------ *)
(** ** JavaScript objects used as dictionaries *)

Module JsObject.

Definition t (V : Type) : Type := list (string * V).

Definition empty {V : Type} : t V := [].

(** [o[k]]: [None] stands for [undefined]. *)
Fixpoint get {V : Type} (o : t V) (k : string) : option V :=
  match o with
  | [] => None
  | (k', v) :: rest => if String.eqb k k' then Some v else get rest k
  end.

(** [o[k] = v]: an existing key keeps its place, a new one goes last. *)
Fixpoint set {V : Type} (o : t V) (k : string) (v : V) : t V :=
  match o with
  | [] => [(k, v)]
  | (k', v') :: rest =>
      if String.eqb k k' then (k', v) :: rest else (k', v') :: set rest k v
  end.

Definition entries {V : Type} (o : t V) : list (string * V) := o.
Definition keys {V : Type} (o : t V) : list string := map fst o.
Definition values {V : Type} (o : t V) : list V := map snd o.

(** [Object.fromEntries] *)
Definition fromEntries {V : Type} (l : list (string * V)) : t V :=
  fold_left (fun o kv => set o (fst kv) (snd kv)) l empty.

End JsObject.

(* ------------------------------------------------------------------ *)
(** ** JavaScript sets of strings *)

Module JsSet.

Definition t : Type := list string.

Definition has (s : t) (x : string) : bool := existsb (String.eqb x) s.

Definition add (s : t) (x : string) : t := if has s x then s else s ++ [x].

(** [new Set(iterable)] *)
Definition ofList (l : list string) : t := fold_left add l [].

Definition size (s : t) : nat := List.length s.

(** [[...s]] *)
Definition spread (s : t) : list string := s.

End JsSet.

(* ------------------------------------------------------------------ *)
(** ** types.ts *)

Record DNSRecord : Type := mkDNSRecord {
  name : string;
  type : Z;
  TTL : Z;
  data : string
}.

Record DNSQuestion : Type := mkDNSQuestion {
  qname : string;
  qtype : Z
}.

Record DNSResponse : Type := mkDNSResponse {
  Status : Z;
  TC : bool;
  RD : bool;
  RA : bool;
  AD : bool;
  CD : bool;
  Question : list DNSQuestion;
  Answer : option (list DNSRecord);
  Authority : option (list DNSRecord);
  Additional : option (list DNSRecord)
}.

Record ResolverResult : Type := mkResolverResult {
  resolver : string;
  records : list DNSRecord;
  hasError : bool;
  error : option string
}.

Record DNSQueryResult : Type := mkDNSQueryResult {
  recordType : string;
  primaryRecords : list DNSRecord;
  propagation : JsObject.t ResolverResult
}.

Definition AllDNSResults : Type := JsObject.t DNSQueryResult.

Inductive Severity : Type := Error | Warning | Info.

Definition Severity_eqb (a b : Severity) : bool :=
  match a, b with
  | Error, Error | Warning, Warning | Info, Info => true
  | _, _ => false
  end.

(** The shapes that the rules store in [details]. *)
Inductive Details : Type :=
| NSMismatchDetails (primary : list string) (resolvers : JsObject.t (list string))
| CNAMEAtApexDetails (cnameRecords : list DNSRecord)
| MissingAAAADetails (aRecords : nat) (aaaaRecords : nat)
| SPFSyntaxDetails (record : string)
| TTLDetails (recordType : string) (ttl : Z) (recommended : string)
| DNSSECDetails (note : string).

Record DiagnosticIssue : Type := mkIssue {
  issueType : string;          (* field [type] *)
  severity : Severity;
  message : string;
  details : option Details
}.

Record Summary : Type := mkSummary {
  errors : nat;
  warnings : nat;
  info : nat
}.

Record DiagnosticResult : Type := mkDiagnosticResult {
  issues : list DiagnosticIssue;
  summary : Summary
}.

(* ------------------------------------------------------------------ *)
(** ** constants.ts *)

Definition DNS_RECORD_TYPES : JsObject.t Z :=
  [ ("A", 1); ("AAAA", 28); ("CNAME", 5); ("MX", 15); ("NS", 2);
    ("TXT", 16); ("SOA", 6); ("CAA", 257); ("RRSIG", 46) ]%Z.

Definition RESOLVERS_CLOUDFLARE : string := "https://cloudflare-dns.com/dns-query".
Definition RESOLVERS_GOOGLE : string := "https://dns.google/resolve".
Definition RESOLVERS_QUAD9 : string := "https://dns.quad9.net/dns-query".

Definition RESOLVERS : JsObject.t string :=
  [ ("CLOUDFLARE", RESOLVERS_CLOUDFLARE);
    ("GOOGLE", RESOLVERS_GOOGLE);
    ("QUAD9", RESOLVERS_QUAD9) ].

Definition QUERY_RECORD_TYPES : list string :=
  [ "A"; "AAAA"; "CNAME"; "MX"; "NS"; "TXT"; "SOA"; "CAA" ].

Definition TTL_THRESHOLDS_MIN_RECOMMENDED : Z := 300.
Definition TTL_THRESHOLDS_MAX_RECOMMENDED : Z := 86400.

(* ------------------------------------------------------------------ *)
(** ** diagnose.ts *)

Import JsString.

(** The alternation of [validMechanisms]. *)
Definition mechanismNames : list string :=
  [ "all"; "include"; "a"; "mx"; "ptr"; "ip4"; "ip6"; "exists"; "redirect"; "exp" ].

(** The character class [[+\-~?]]. *)
Definition isQualifier (c : ascii) : bool :=
  existsb (Ascii.eqb c) [ "+"; "-"; "~"; "?" ]%char.

(** Under the [i] flag a pattern letter matches its two ASCII cases and
    nothing else: a code unit of 128 or more never canonicalises to an
    ASCII one. *)
Definition foldCase_unit (c : ascii) : ascii :=
  let n := N_of_ascii c in
  if ((65 <=? n) && (n <=? 90))%N then ascii_of_N (n + 32) else c.

Fixpoint foldCase (s : string) : string :=
  match s with
  | EmptyString => EmptyString
  | String c rest => String (foldCase_unit c) (foldCase rest)
  end.

(** The alternation, anchored at the start of [s]. *)
Definition matchesMechanismName (s : string) : bool :=
  existsb (fun m => String.prefix m (foldCase s)) mechanismNames.

(** [validMechanisms.test(part)] for
    [/^[+\-~?]?(all|include|a|mx|ptr|ip4|ip6|exists|redirect|exp)/i]:
    the optional qualifier is tried consumed first, then left out. *)
Definition validMechanisms_test (part : string) : bool :=
  match part with
  | String c rest =>
      (isQualifier c && matchesMechanismName rest) || matchesMechanismName part
  | EmptyString => matchesMechanismName part
  end.

(** The [for] loop of [validateSPF], with its early [return false]. *)
Fixpoint validateSPF_parts (parts : list string) : bool :=
  match parts with
  | [] => true
  | part :: rest =>
      if String.eqb part "" then validateSPF_parts rest
      else if String.eqb part "all" then validateSPF_parts rest
      else if negb (validMechanisms_test part) then false
      else validateSPF_parts rest
  end.

Definition validateSPF (spfRecord : string) : bool :=
  if negb (startsWith spfRecord "v=spf1") then false
  else
    let parts := slice1 (split " "%char spfRecord) in
    validateSPF_parts parts.

(** [new Set(records.map((r) => r.data.toLowerCase()))] *)
Definition nsSetOf (rs : list DNSRecord) : JsSet.t :=
  JsSet.ofList (map (fun r => toLowerCase (data r)) rs).

(** The test [nsSet.size !== primaryNS.size ||
    ![...nsSet].every((ns) => primaryNS.has(ns))]. *)
Definition nsSetsDiffer (nsSet primaryNS : JsSet.t) : bool :=
  negb (Nat.eqb (JsSet.size nsSet) (JsSet.size primaryNS))
  || negb (forallb (fun ns => JsSet.has primaryNS ns) (JsSet.spread nsSet)).

(** One turn of the loop over [Object.entries(nsResults.propagation)]; the
    state is [(resolverNS, hasMismatch)]. *)
Definition nsLoopStep (primaryNS : JsSet.t)
    (st : JsObject.t JsSet.t * bool) (entry : string * ResolverResult)
  : JsObject.t JsSet.t * bool :=
  let '(resolverNS, hasMismatch) := st in
  let '(resolver, result) := entry in
  if hasError result then st
  else
    let nsSet := nsSetOf (records result) in
    (JsObject.set resolverNS resolver nsSet,
     if nsSetsDiffer nsSet primaryNS then true else hasMismatch).

Definition nsMismatchIssue (primaryNS : JsSet.t) (resolverNS : JsObject.t JsSet.t)
  : DiagnosticIssue :=
  {| issueType := "ns_mismatch";
     severity := Error;
     message := "NS records differ across DNS resolvers";
     details := Some (NSMismatchDetails (JsSet.spread primaryNS)
                  (JsObject.fromEntries
                     (map (fun kv => (fst kv, JsSet.spread (snd kv)))
                        (JsObject.entries resolverNS)))) |}.

Definition checkNSMismatch (dnsResults : AllDNSResults) : list DiagnosticIssue :=
  match JsObject.get dnsResults "NS" with
  | None => []
  | Some nsResults =>
      if Nat.eqb (List.length (primaryRecords nsResults)) 0 then []
      else
        let primaryNS := nsSetOf (primaryRecords nsResults) in
        let '(resolverNS, hasMismatch) :=
          fold_left (nsLoopStep primaryNS)
            (JsObject.entries (propagation nsResults)) (JsObject.empty, false) in
        if hasMismatch then [nsMismatchIssue primaryNS resolverNS] else []
  end.

(** [x?.primaryRecords.length > 0], false on [undefined]. *)
Definition hasPrimaryRecords (x : option DNSQueryResult) : bool :=
  match x with
  | Some q => Nat.ltb 0 (List.length (primaryRecords q))
  | None => false
  end.

Definition checkCNAMEAtApex (dnsResults : AllDNSResults) : list DiagnosticIssue :=
  let cnameResults := JsObject.get dnsResults "CNAME" in
  let aResults := JsObject.get dnsResults "A" in
  let aaaaResults := JsObject.get dnsResults "AAAA" in
  match cnameResults with
  | None => []
  | Some cname =>
      if Nat.eqb (List.length (primaryRecords cname)) 0 then []
      else
        let cnameAtApex :=
          existsb (fun record =>
                     let name := toLowerCase (name record) in
                     endsWith_unit name "."%char || String.eqb name "@")
            (primaryRecords cname) in
        if cnameAtApex && (hasPrimaryRecords aResults || hasPrimaryRecords aaaaResults)
        then [ {| issueType := "cname_at_apex";
                  severity := Error;
                  message := "CNAME record found at apex (root domain) - RFC violation";
                  details := Some (CNAMEAtApexDetails (primaryRecords cname)) |} ]
        else []
  end.

Definition checkMissingAAAA (dnsResults : AllDNSResults) : list DiagnosticIssue :=
  let aResults := JsObject.get dnsResults "A" in
  let aaaaResults := JsObject.get dnsResults "AAAA" in
  match aResults with
  | Some a =>
      if Nat.ltb 0 (List.length (primaryRecords a)) then
        if negb (hasPrimaryRecords aaaaResults) then
          [ {| issueType := "missing_aaaa";
               severity := Warning;
               message := "Domain has A records but no AAAA records - not IPv6 ready";
               details := Some (MissingAAAADetails (List.length (primaryRecords a)) 0) |} ]
        else []
      else []
  | None => []
  end.

(** Truthiness of a value that is a boolean or [undefined]. *)
Definition truthy (b : option bool) : bool :=
  match b with
  | Some true => true
  | _ => false
  end.

(** [txtResults?.primaryRecords.some((r) =>
      r.data.toLowerCase().startsWith(tag))] *)
Definition someStartsWith (txtResults : option DNSQueryResult) (tag : string)
  : option bool :=
  option_map
    (fun t => existsb (fun r => startsWith (toLowerCase (data r)) tag)
                (primaryRecords t))
    txtResults.

Definition missingEmailSetupIssue : DiagnosticIssue :=
  {| issueType := "missing_email_setup";
     severity := Info;
     message := "No MX or TXT records found - domain may not be configured for email";
     details := None |}.

Definition missingSPFIssue : DiagnosticIssue :=
  {| issueType := "missing_spf";
     severity := Warning;
     message := "MX records present but no SPF record found";
     details := None |}.

Definition missingDMARCIssue : DiagnosticIssue :=
  {| issueType := "missing_dmarc";
     severity := Info;
     message := "MX records present but no DMARC record found";
     details := None |}.

Definition checkEmailSetup (dnsResults : AllDNSResults) : list DiagnosticIssue :=
  let mxResults := JsObject.get dnsResults "MX" in
  let txtResults := JsObject.get dnsResults "TXT" in
  let hasMX := hasPrimaryRecords mxResults in
  let hasTXT := hasPrimaryRecords txtResults in
  let hasSPF := someStartsWith txtResults "v=spf1" in
  let hasDMARC := someStartsWith txtResults "v=dmarc1" in
  if negb hasMX && negb hasTXT then [missingEmailSetupIssue]
  else
    (if hasMX && negb (truthy hasSPF) then [missingSPFIssue] else [])
    ++
    (if hasMX && negb (truthy hasDMARC) then [missingDMARCIssue] else []).

Definition spfSyntaxIssue (record : DNSRecord) : DiagnosticIssue :=
  {| issueType := "spf_syntax_error";
     severity := Error;
     message := "SPF record has syntax errors";
     details := Some (SPFSyntaxDetails (data record)) |}.

(** The filter that selects the SPF records among the TXT records. *)
Definition isSPFRecord (r : DNSRecord) : bool :=
  startsWith (toLowerCase (data r)) "v=spf1".

Definition checkSPFSyntax (dnsResults : AllDNSResults) : list DiagnosticIssue :=
  match JsObject.get dnsResults "TXT" with
  | None => []
  | Some txtResults =>
      if Nat.eqb (List.length (primaryRecords txtResults)) 0 then []
      else
        let spfRecords := filter isSPFRecord (primaryRecords txtResults) in
        flat_map
          (fun record =>
             if negb (validateSPF (data record)) then [spfSyntaxIssue record] else [])
          spfRecords
  end.

Definition ttlIssues (recordType : string) (record : DNSRecord) : list DiagnosticIssue :=
  let ttl := TTL record in
  if (ttl <? TTL_THRESHOLDS_MIN_RECOMMENDED)%Z then
    [ {| issueType := "ttl_too_low";
         severity := Warning;
         message := "TTL too low (" ++ ofNumber ttl ++ "s) for " ++ recordType
                    ++ " record - may cause excessive DNS queries";
         details := Some (TTLDetails recordType ttl
                      (">= " ++ ofNumber TTL_THRESHOLDS_MIN_RECOMMENDED ++ "s")) |} ]
  else if (TTL_THRESHOLDS_MAX_RECOMMENDED <? ttl)%Z then
    [ {| issueType := "ttl_too_high";
         severity := Info;
         message := "TTL very high (" ++ ofNumber ttl ++ "s) for " ++ recordType
                    ++ " record - changes will take longer to propagate";
         details := Some (TTLDetails recordType ttl
                      ("<= " ++ ofNumber TTL_THRESHOLDS_MAX_RECOMMENDED ++ "s")) |} ]
  else [].

Definition checkTTL (dnsResults : AllDNSResults) : list DiagnosticIssue :=
  flat_map
    (fun entry =>
       let '(recordType, queryResult) := entry in
       flat_map (ttlIssues recordType) (primaryRecords queryResult))
    (JsObject.entries dnsResults).

Definition checkDNSSEC (dnsResults : AllDNSResults) (domain : string)
  : list DiagnosticIssue :=
  [ {| issueType := "dnssec_check";
       severity := Info;
       message := "DNSSEC status check requires explicit RRSIG query - not fully implemented";
       details := Some (DNSSECDetails
                    "DNSSEC validation typically requires specialized queries") |} ].

(** [issues.filter((i) => i.severity === sev).length] *)
Definition countSeverity (sev : Severity) (issues : list DiagnosticIssue) : nat :=
  List.length (filter (fun i => Severity_eqb (severity i) sev) issues).

Definition analyzeDNS (dnsResults : AllDNSResults) (domain : string)
  : DiagnosticResult :=
  let issues :=
    checkNSMismatch dnsResults
    ++ checkCNAMEAtApex dnsResults
    ++ checkMissingAAAA dnsResults
    ++ checkEmailSetup dnsResults
    ++ checkSPFSyntax dnsResults
    ++ checkTTL dnsResults
    ++ checkDNSSEC dnsResults domain in
  {| issues := issues;
     summary := {| errors := countSeverity Error issues;
                   warnings := countSeverity Warning issues;
                   info := countSeverity Info issues |} |}.

(* ------------------------------------------------------------------ *)
(** ** dns.ts *)

(** The second argument of [fetch]. *)
Record RequestInit : Type := mkRequestInit {
  method : string;
  headers : JsObject.t string
}.

(** What the code reads of a [Response]; [json] is [None] when
    [response.json()] rejects (the body is not JSON) or yields [null]:
    [queryDNS] returns [null] either way. *)
Record Response : Type := mkResponse {
  ok : bool;
  status : Z;
  statusText : string;
  json : option DNSResponse
}.

(** What the promise returned by [fetch] settles to. *)
Inductive FetchOutcome : Type :=
| FetchRejected (reason : string)
| FetchFulfilled (response : Response).

(** A [try] body: it returns or throws. *)
Inductive Completion (A : Type) : Type :=
| Return (a : A)
| Throw (reason : string).

Arguments Return {A} a.
Arguments Throw {A} reason.

Definition bind {A B : Type} (c : Completion A) (k : A -> Completion B)
  : Completion B :=
  match c with
  | Return a => k a
  | Throw reason => Throw reason
  end.

Notation "x <- c ;; k" := (bind c (fun x => k))
  (at level 61, c at next level, right associativity).

(** [try { ... } catch (error) { ...; return null; }]: the logging of the
    [catch] block is not modelled. *)
Definition catchNull {A : Type} (c : Completion A) : option A :=
  match c with
  | Return a => Some a
  | Throw _ => None
  end.

(** Promises that were started together settle in an order the code does
    not control: each number of the schedule picks, among those still
    pending, the one whose continuation runs next. *)
Fixpoint removeNth {A : Type} (i : nat) (l : list A) : list A :=
  match l, i with
  | [], _ => []
  | _ :: rest, O => rest
  | x :: rest, S j => x :: removeNth j rest
  end.

Fixpoint settle {A : Type} (fuel : nat) (sched : list nat) (pending : list A)
  : list A :=
  match fuel, pending with
  | S fuel', first :: _ =>
      let i := Nat.modulo (hd 0 sched) (List.length pending) in
      nth i pending first :: settle fuel' (tl sched) (removeNth i pending)
  | _, _ => []
  end.

Definition settleOrder {A : Type} (sched : list nat) (started : list A) : list A :=
  settle (List.length started) sched started.

Arguments settleOrder : simpl never.

Section Dns.

Variable encodeURIComponent : string -> string.
Variable fetch : string -> RequestInit -> FetchOutcome.

Definition queryDNS_try (domain recordType resolver : string)
  : Completion DNSResponse :=
  typeNumber <-
    match JsObject.get DNS_RECORD_TYPES recordType with
    | Some n =>
        if (n =? 0)%Z then Throw ("Invalid record type: " ++ recordType)
        else Return n
    | None => Throw ("Invalid record type: " ++ recordType)
    end ;;
  let queryUrl :=
    (if String.eqb resolver RESOLVERS_GOOGLE then
       resolver ++ "?name=" ++ encodeURIComponent domain
                ++ "&type=" ++ ofNumber typeNumber
     else
       resolver ++ "?name=" ++ encodeURIComponent domain
                ++ "&type=" ++ ofNumber typeNumber)%string in
  response <-
    match fetch queryUrl
            {| method := "GET";
               headers := [("Accept", "application/dns-json")] |} with
    | FetchRejected reason => Throw reason
    | FetchFulfilled response => Return response
    end ;;
  if negb (ok response) then
    Throw ("HTTP " ++ ofNumber (status response) ++ ": " ++ statusText response)
  else
    data <-
      match json response with
      | Some data => Return data
      | None => Throw "Unexpected token in JSON"
      end ;;
    Return data.

Definition queryDNS (domain recordType resolver : string) : option DNSResponse :=
  catchNull (queryDNS_try domain recordType resolver).

(** [response?.Answer || []] *)
Definition answerOrEmpty (response : option DNSResponse) : list DNSRecord :=
  match response with
  | Some r => match Answer r with
              | Some answer => answer
              | None => []
              end
  | None => []
  end.

(** The continuation of one query of [queryAllRecords], run on the shared
    [results] object when that query has settled. *)
Definition queryAllRecords_step (domain : string)
    (results : AllDNSResults) (recordType : string) : AllDNSResults :=
  let response := queryDNS domain recordType RESOLVERS_CLOUDFLARE in
  let records := answerOrEmpty response in
  JsObject.set results recordType
    {| recordType := recordType;
       primaryRecords := records;
       propagation := JsObject.empty |}.

Definition queryAllRecords (domain : string) (sched : list nat) : AllDNSResults :=
  fold_left (queryAllRecords_step domain)
    (settleOrder sched QUERY_RECORD_TYPES) JsObject.empty.

(** The continuation of one check of [checkPropagation], run on the shared
    [propagation] object. *)
Definition checkPropagation_step (domain recordType : string)
    (propagation : JsObject.t ResolverResult) (entry : string * string)
  : JsObject.t ResolverResult :=
  let '(name, resolverUrl) := entry in
  match queryDNS domain recordType resolverUrl with
  | None =>
      JsObject.set propagation resolverUrl
        {| resolver := name;
           records := [];
           hasError := true;
           error := Some "Query failed" |}
  | Some response =>
      let records := match Answer response with
                     | Some answer => answer
                     | None => []
                     end in
      JsObject.set propagation resolverUrl
        {| resolver := name;
           records := records;
           hasError := false;
           error := None |}
  end.

Definition checkPropagation (domain recordType : string) (sched : list nat)
  : JsObject.t ResolverResult :=
  fold_left (checkPropagation_step domain recordType)
    (settleOrder sched (JsObject.entries RESOLVERS)) JsObject.empty.

End Dns.

(** The assignment [queryResult.propagation = propagation]. *)
Definition setPropagation (queryResult : DNSQueryResult)
    (p : JsObject.t ResolverResult) : DNSQueryResult :=
  {| recordType := recordType queryResult;
     primaryRecords := primaryRecords queryResult;
     propagation := p |}.

(** [queryDNSWithPropagation]: the two phases run one after the other,
    so the network may answer the second differently ([fetchLater]); each
    propagation check writes the [propagation] field of its own entry of
    [results] and of no other, whatever the order in which the checks
    settle. *)
Definition queryDNSWithPropagation
    (encodeURIComponent : string -> string)
    (fetch fetchLater : string -> RequestInit -> FetchOutcome)
    (domain : string) (sched : list nat) (schedOf : string -> list nat)
  : AllDNSResults :=
  let results := queryAllRecords encodeURIComponent fetch domain sched in
  map (fun entry =>
         let '(recordType, queryResult) := entry in
         if Nat.ltb 0 (List.length (primaryRecords queryResult)) then
           (recordType,
            setPropagation queryResult
              (checkPropagation encodeURIComponent fetchLater
                 domain recordType (schedOf recordType)))
         else (recordType, queryResult))
    (JsObject.entries results).

(* ------------------------------------------------------------------ *)
(** ** Vocabulary of the statements *)

Definition Severity_eq_dec (a b : Severity) : {a = b} + {a <> b}.
Proof. decide equality. Defined.

(** The issues of one machine-readable kind, in report order. *)
Definition issuesOfType (ty : string) (l : list DiagnosticIssue)
  : list DiagnosticIssue :=
  filter (fun i => String.eqb (issueType i) ty) l.

(** The primary records of a record type, none when the type is absent. *)
Definition primaryOf (dnsResults : AllDNSResults) (ty : string) : list DNSRecord :=
  match JsObject.get dnsResults ty with
  | Some q => primaryRecords q
  | None => []
  end.

(** The lower-cased payloads of a record list. *)
Definition nsNames (rs : list DNSRecord) : list string :=
  map (fun r => toLowerCase (data r)) rs.

(** Two lists hold the same members, whatever the order and the repeats. *)
Definition sameMembers (a b : list string) : Prop :=
  forall x, In x a <-> In x b.

(** A propagation entry that is not failure-marked. *)
Definition notFailed (kv : string * ResolverResult) : bool :=
  negb (hasError (snd kv)).

(** A token of an SPF record that the loop of [validateSPF] rejects. *)
Definition badToken (part : string) : Prop :=
  part <> "" /\ part <> "all" /\ validMechanisms_test part = false.

(** A TXT record that [checkSPFSyntax] reports. *)
Definition offendingSPF (r : DNSRecord) : bool :=
  isSPFRecord r && negb (validateSPF (data r)).

(** The outcome that [checkPropagation] stores for a resolver. *)
Definition outcomeOf (name : string) (response : option DNSResponse)
  : ResolverResult :=
  match response with
  | None =>
      {| resolver := name; records := []; hasError := true;
         error := Some "Query failed" |}
  | Some r =>
      {| resolver := name;
         records := match Answer r with Some answer => answer | None => [] end;
         hasError := false;
         error := None |}
  end.

(** No record of the list has a payload that starts, ignoring case, with
    the tag. *)
Definition noneTagged (tag : string) (txt : list DNSRecord) : Prop :=
  forall r, In r txt -> startsWith (toLowerCase (data r)) tag = false.

(** A result set whose only entry is TXT with the given primary records. *)
Definition txtOnly (rs : list DNSRecord) : AllDNSResults :=
  [ ("TXT", {| recordType := "TXT"; primaryRecords := rs;
               propagation := JsObject.empty |}) ].

Definition txtRecord (payload : string) : DNSRecord :=
  {| name := "example.com"; type := 16; TTL := 3600; data := payload |}.

(** The NS sets of the resolvers that are not failure-marked, by key. *)
Definition nsSetsOf (p : JsObject.t ResolverResult) : JsObject.t (list string) :=
  JsObject.fromEntries
    (map (fun kv => (fst kv, nsSetOf (records (snd kv)))) (filter notFailed p)).

(** A resolver of the mapping whose lower-cased NS set differs in
    membership from the primary one. *)
Definition differingResolver (ns : DNSQueryResult) : Prop :=
  exists k r,
    In (k, r) (propagation ns)
    /\ ~ sameMembers (nsNames (records r)) (nsNames (primaryRecords ns)).

(** Such a resolver that, moreover, is not failure-marked. *)
Definition divergentResolver (ns : DNSQueryResult) : Prop :=
  exists k r,
    In (k, r) (propagation ns)
    /\ hasError r = false
    /\ ~ sameMembers (nsNames (records r)) (nsNames (primaryRecords ns)).

Definition nsRecord (payload : string) : DNSRecord :=
  {| name := "example.com"; type := 2; TTL := 3600; data := payload |}.

(** A result set whose only entry is NS. *)
Definition nsOnly (primary : list DNSRecord) (p : JsObject.t ResolverResult)
  : AllDNSResults :=
  [ ("NS", {| recordType := "NS"; primaryRecords := primary; propagation := p |}) ].

(** Primary NS [ns1], [ns2]; one resolver reports [ns3]. *)
Definition nsExample : AllDNSResults :=
  nsOnly [ nsRecord "ns1.example.com"; nsRecord "ns2.example.com" ]
    [ (RESOLVERS_GOOGLE,
       {| resolver := "GOOGLE"; records := [ nsRecord "ns3.example.com" ];
          hasError := false; error := None |}) ].

(** No primary NS record; one resolver reports [ns3]. *)
Definition nsEmptyPrimary : AllDNSResults :=
  nsOnly []
    [ (RESOLVERS_GOOGLE,
       {| resolver := "GOOGLE"; records := [ nsRecord "ns3.example.com" ];
          hasError := false; error := None |}) ].

(** Primary NS [ns1]; Cloudflare and Quad9 agree, the query to Google
    failed. *)
Definition nsFailedResolver : AllDNSResults :=
  nsOnly [ nsRecord "ns1.example.com" ]
    [ (RESOLVERS_CLOUDFLARE,
       {| resolver := "CLOUDFLARE"; records := [ nsRecord "ns1.example.com" ];
          hasError := false; error := None |});
      (RESOLVERS_GOOGLE,
       {| resolver := "GOOGLE"; records := [];
          hasError := true; error := Some "Query failed" |});
      (RESOLVERS_QUAD9,
       {| resolver := "QUAD9"; records := [ nsRecord "NS1.example.com" ];
          hasError := false; error := None |}) ].

(** The failure-marked outcome of a resolver. *)
Definition failedOutcome (name : string) : ResolverResult :=
  {| resolver := name; records := []; hasError := true;
     error := Some "Query failed" |}.

(** The request that [queryDNS] sends. *)
Definition queryUrlOf (encodeURIComponent : string -> string)
    (domain : string) (typeNumber : Z) (resolver : string) : string :=
  resolver ++ "?name=" ++ encodeURIComponent domain
           ++ "&type=" ++ ofNumber typeNumber.

Definition dnsJsonInit : RequestInit :=
  {| method := "GET"; headers := [("Accept", "application/dns-json")] |}.

(** A request that did not bring back a DNS answer: the fetch was rejected,
    the status is not a success, or the body is not JSON. *)
Definition transportFailure (o : FetchOutcome) : Prop :=
  match o with
  | FetchRejected _ => True
  | FetchFulfilled r => ok r = false \/ json r = None
  end.

(** [encodeURIComponent] on a name of letters, digits, hyphens and dots. *)
Definition plainName (s : string) : string := s.

(** A network on which every request is rejected. *)
Definition unreachable : string -> RequestInit -> FetchOutcome :=
  fun _ _ => FetchRejected "fetch failed".

Definition aRecord (payload : string) : DNSRecord :=
  {| name := "example.com"; type := 1; TTL := 3600; data := payload |}.

(** A network that answers the Cloudflare A query for [example.com] with one
    record and rejects every other request. *)
Definition onlyCloudflareA : string -> RequestInit -> FetchOutcome :=
  fun url _ =>
    if String.eqb url "https://cloudflare-dns.com/dns-query?name=example.com&type=1"
    then FetchFulfilled
           {| ok := true; status := 200; statusText := "OK";
              json := Some {| Status := 0; TC := false; RD := true; RA := true;
                              AD := false; CD := false;
                              Question := [ {| qname := "example.com"; qtype := 1 |} ];
                              Answer := Some [ aRecord "93.184.216.34" ];
                              Authority := None; Additional := None |} |}
    else FetchRejected "fetch failed".

(** A run of the pipeline: the primary resolver answers only the A query,
    then the network is down. *)
Definition examplePipelineRun : AllDNSResults :=
  queryDNSWithPropagation plainName onlyCloudflareA unreachable
    "example.com" [] (fun _ => []).

(** A network on which only Google is down. *)
Definition onlyGoogleDown : string -> RequestInit -> FetchOutcome :=
  fun url _ =>
    if startsWith url RESOLVERS_GOOGLE then FetchRejected "fetch failed"
    else FetchFulfilled
           {| ok := true; status := 200; statusText := "OK";
              json := Some {| Status := 0; TC := false; RD := true; RA := true;
                              AD := false; CD := false;
                              Question := [ {| qname := "example.com"; qtype := 1 |} ];
                              Answer := Some [ aRecord "93.184.216.34" ];
                              Authority := None; Additional := None |} |}.

(** The kinds each rule can emit. *)
Definition kindsOf_checkEmailSetup : list string :=
  [ "missing_email_setup"; "missing_spf"; "missing_dmarc" ].

Definition kindsOf_checkTTL : list string := [ "ttl_too_low"; "ttl_too_high" ].

From Stdlib Require Import Sorting.Sorted.

(* ------------------------------------------------------------------ *)
(** ** Vocabulary of the further properties *)

(** The issue of [checkDNSSEC]. *)
Definition dnssecIssue : DiagnosticIssue :=
  {| issueType := "dnssec_check";
     severity := Info;
     message := "DNSSEC status check requires explicit RRSIG query - not fully implemented";
     details := Some (DNSSECDetails
                  "DNSSEC validation typically requires specialized queries") |}.

(** An owner name that ends in a dot or is the at sign. *)
Definition apexShaped (record : DNSRecord) : bool :=
  endsWith_unit (name record) "."%char || String.eqb (name record) "@".

(** All primary records of a result set, in entry order. *)
Definition allPrimaryRecords (dns : AllDNSResults) : list DNSRecord :=
  flat_map (fun entry => primaryRecords (snd entry)) dns.

Definition ttlTooLow (r : DNSRecord) : bool := (TTL r <? 300)%Z.
Definition ttlTooHigh (r : DNSRecord) : bool := (86400 <? TTL r)%Z.

(** A result set on which every rule but the DNSSEC note is silent. *)
Definition healthyExample : AllDNSResults :=
  [ ("A", {| recordType := "A"; primaryRecords := [ aRecord "93.184.216.34" ];
             propagation := JsObject.empty |});
    ("AAAA", {| recordType := "AAAA";
                primaryRecords :=
                  [ {| name := "example.com"; type := 28; TTL := 300;
                       data := "2606:2800:220:1:248:1893:25c8:1946" |} ];
                propagation := JsObject.empty |});
    ("MX", {| recordType := "MX";
              primaryRecords :=
                [ {| name := "example.com"; type := 15; TTL := 86400;
                     data := "10 mail.example.com." |} ];
              propagation := JsObject.empty |});
    ("NS", {| recordType := "NS";
              primaryRecords :=
                [ nsRecord "ns1.example.com"; nsRecord "ns2.example.com" ];
              propagation :=
                [ (RESOLVERS_CLOUDFLARE,
                   {| resolver := "CLOUDFLARE";
                      records := [ nsRecord "NS2.example.com";
                                   nsRecord "ns1.example.com";
                                   nsRecord "ns2.example.com" ];
                      hasError := false; error := None |});
                  (RESOLVERS_GOOGLE,
                   {| resolver := "GOOGLE"; records := [];
                      hasError := true; error := Some "Query failed" |}) ] |});
    ("TXT", {| recordType := "TXT";
               primaryRecords :=
                 [ txtRecord "v=spf1 include:_spf.example.com -all";
                   txtRecord "v=DMARC1; p=none" ];
               propagation := JsObject.empty |}) ].

(** The issues of [checkTTL] for a record of a record type. *)
Definition ttlTooLowIssue (recordType : string) (r : DNSRecord) : DiagnosticIssue :=
  {| issueType := "ttl_too_low";
     severity := Warning;
     message := "TTL too low (" ++ ofNumber (TTL r) ++ "s) for " ++ recordType
                ++ " record - may cause excessive DNS queries";
     details := Some (TTLDetails recordType (TTL r) ">= 300s") |}.

Definition ttlTooHighIssue (recordType : string) (r : DNSRecord) : DiagnosticIssue :=
  {| issueType := "ttl_too_high";
     severity := Info;
     message := "TTL very high (" ++ ofNumber (TTL r) ++ "s) for " ++ recordType
                ++ " record - changes will take longer to propagate";
     details := Some (TTLDetails recordType (TTL r) "<= 86400s") |}.

(** Some record of the list has a payload that starts, ignoring case, with
    the tag. *)
Definition someTagged (tag : string) (txt : list DNSRecord) : Prop :=
  exists r, In r txt /\ startsWith (toLowerCase (data r)) tag = true.

(** The entry of a record type in the result of [queryDNSWithPropagation]:
    the primary answer and, when it is not empty, the mapping of the
    propagation check. *)
Definition pipelineEntry
    (encodeURIComponent : string -> string)
    (fetch fetchLater : string -> RequestInit -> FetchOutcome)
    (domain ty : string) (sched : list nat) : DNSQueryResult :=
  let answer :=
    answerOrEmpty (queryDNS encodeURIComponent fetch domain ty RESOLVERS_CLOUDFLARE) in
  {| recordType := ty;
     primaryRecords := answer;
     propagation :=
       match answer with
       | [] => JsObject.empty
       | _ :: _ => checkPropagation encodeURIComponent fetchLater domain ty sched
       end |}.

(** An issue without its details. *)
Definition headline (i : DiagnosticIssue) : string * Severity * string :=
  (issueType i, severity i, message i).

(** A token that starts, after an optional qualifier, with a mechanism name
    written in any mix of ASCII cases; what follows the name is free. *)
Definition mechanismToken (part : string) : Prop :=
  exists q x rest,
    part = (q ++ x ++ rest)%string
    /\ In q [ ""; "+"; "-"; "~"; "?" ]%string
    /\ In (foldCase x) mechanismNames.

(** [s.includes(c)] for a one-unit [c]. *)
Fixpoint includes_unit (s : string) (c : ascii) : bool :=
  match s with
  | EmptyString => false
  | String a rest => Ascii.eqb a c || includes_unit rest c
  end.

(* ------------------------------------------------------------------ *)
(** ** types.ts: the explanation and the history entry *)

Record AIExplanationIssue : Type := mkAIExplanationIssue {
  issue : string;
  aiSeverity : Z;              (* field [severity], 1-10 *)
  explanation : string;
  steps : list string
}.

Record AIExplanation : Type := mkAIExplanation {
  aiSummary : string;          (* field [summary] *)
  aiIssues : list AIExplanationIssue   (* field [issues] *)
}.

(* ------------------------------------------------------------------ *)
(** ** durable.ts

    [Raw] is the type of [rawDiagnostics], which the code stores and never
    inspects.  The fields of a stored entry have their declared types; in
    the body of a store request a field that is absent or falsy is [None]
    (the empty string for [domain]), since the code only tests them for
    truthiness.  Response headers are not modelled. *)

Section DomainHistory.

Variable Raw : Type.

Record DomainHistoryEntry : Type := mkDomainHistoryEntry {
  domain : string;
  rawDiagnostics : Raw;
  aiExplanation : AIExplanation;
  timestamp : Z
}.

Record StoreBody : Type := mkStoreBody {
  bodyDomain : string;
  bodyRawDiagnostics : option Raw;
  bodyAiExplanation : option AIExplanation;
  bodyTimestamp : option Z
}.

(** [this.state.storage] *)
Definition Storage : Type := string -> option (list DomainHistoryEntry).

Definition storage_put (st : Storage) (key : string)
    (value : list DomainHistoryEntry) : Storage :=
  fun k => if String.eqb k key then Some value else st k.

(** [await this.state.storage.get(key) || []] *)
Definition storage_getOrEmpty (st : Storage) (key : string)
  : list DomainHistoryEntry :=
  match st key with
  | Some h => h
  | None => []
  end.

(** The JSON bodies of the responses. *)
Inductive DurableBody : Type :=
| NoBody
| ErrorBody (error : string) (message : option string)
| StoredBody
| HistoryBody (domain : string) (history : list DomainHistoryEntry).

Record DurableResponse : Type := mkDurableResponse {
  doStatus : Z;
  doBody : DurableBody
}.

(** [history.sort((a, b) => b.timestamp - a.timestamp)]: the sort is stable,
    most recent first. *)
Fixpoint insertByTimestamp (x : DomainHistoryEntry) (l : list DomainHistoryEntry)
  : list DomainHistoryEntry :=
  match l with
  | [] => [x]
  | y :: rest =>
      if (timestamp y <=? timestamp x)%Z then x :: y :: rest
      else y :: insertByTimestamp x rest
  end.

Definition sortByTimestamp (l : list DomainHistoryEntry) : list DomainHistoryEntry :=
  fold_right insertByTimestamp [] l.

Definition durable_handleStore (st : Storage) (now : Z) (data : StoreBody)
  : Storage * DurableResponse :=
  match bodyDomain data, bodyRawDiagnostics data, bodyAiExplanation data with
  | String c d, Some raw, Some ai =>
      let timestamp :=
        match bodyTimestamp data with
        | Some t => if (t =? 0)%Z then now else t
        | None => now
        end in
      let entry :=
        {| domain := String c d; rawDiagnostics := raw;
           aiExplanation := ai; timestamp := timestamp |} in
      let historyKey := ("history:" ++ String c d)%string in
      let existingHistory := storage_getOrEmpty st historyKey in
      let pushed := existingHistory ++ [entry] in
      let kept := if Nat.ltb 50 (List.length pushed) then tl pushed else pushed in
      let sorted := sortByTimestamp kept in
      (storage_put st historyKey sorted,
       {| doStatus := 200; doBody := StoredBody |})
  | _, _, _ =>
      (st,
       {| doStatus := 400;
          doBody := ErrorBody
                      "Missing required fields: domain, rawDiagnostics, aiExplanation"
                      None |})
  end.

(** [domainParam] is [url.searchParams.get('domain')]. *)
Definition durable_handleGetHistory (st : Storage) (domainParam : option string)
  : DurableResponse :=
  match domainParam with
  | Some (String c d) =>
      let historyKey := ("history:" ++ String c d)%string in
      let history := storage_getOrEmpty st historyKey in
      {| doStatus := 200;
         doBody := HistoryBody (String c d) (sortByTimestamp history) |}
  | _ =>
      {| doStatus := 400; doBody := ErrorBody "Missing domain parameter" None |}
  end.

(** What [fetch] of the object reads of a request; [requestJson] is what
    [request.json()] settles to. *)
Record DurableRequest : Type := mkDurableRequest {
  requestMethod : string;
  requestPath : string;
  requestDomainParam : option string;
  requestJson : Completion StoreBody
}.

Definition DomainHistory_fetch (st : Storage) (now : Z) (request : DurableRequest)
  : Storage * DurableResponse :=
  if String.eqb (requestMethod request) "OPTIONS" then
    (st, {| doStatus := 204; doBody := NoBody |})
  else if String.eqb (requestMethod request) "POST"
          && String.eqb (requestPath request) "/store" then
    match requestJson request with
    | Return data => durable_handleStore st now data
    | Throw reason =>
        (st, {| doStatus := 500;
                doBody := ErrorBody "Internal server error" (Some reason) |})
    end
  else if String.eqb (requestMethod request) "GET"
          && String.eqb (requestPath request) "/history" then
    (st, durable_handleGetHistory st (requestDomainParam request))
  else
    (st, {| doStatus := 404; doBody := ErrorBody "Not found" None |}).

(** Most recent first. *)
Definition newestFirst (l : list DomainHistoryEntry) : Prop :=
  StronglySorted (fun a b => (timestamp b <= timestamp a)%Z) l.

(** A store request that passes the check of the required fields. *)
Definition completeBody (data : StoreBody) : Prop :=
  bodyDomain data <> ""%string
  /\ bodyRawDiagnostics data <> None
  /\ bodyAiExplanation data <> None.

(** The timestamp that [handleStore] gives the entry. *)
Definition storedTimestamp (now : Z) (data : StoreBody) : Z :=
  match bodyTimestamp data with
  | Some t => if (t =? 0)%Z then now else t
  | None => now
  end.

End DomainHistory.

(** A store request for [example.com] without a timestamp. *)
Definition exampleStoreBody : StoreBody unit :=
  {| bodyDomain := "example.com";
     bodyRawDiagnostics := Some tt;
     bodyAiExplanation := Some {| aiSummary := "ok"; aiIssues := [] |};
     bodyTimestamp := None |}.

(** A storage with nothing in it. *)
Definition emptyStorage : Storage unit := fun _ => None.

(* ------------------------------------------------------------------ *)
(** ** ai.ts

    The two providers are taken as given: [analyzeWithWorkersAI] and
    [analyzeWithOpenAI] return an explanation or throw. *)

(** The literal type ['error' | 'warning' | 'info'] as text. *)
Definition severityName (s : Severity) : string :=
  match s with
  | Error => "error"
  | Warning => "warning"
  | Info => "info"
  end.

Record DnsResultsDigest : Type := mkDnsResultsDigest {
  recordTypes : list string;
  recordCounts : JsObject.t nat;
  hasPropagationIssues : bool
}.

Record IssueDigest : Type := mkIssueDigest {
  digestType : string;         (* field [type] *)
  digestSeverity : Severity;   (* field [severity] *)
  digestMessage : string       (* field [message] *)
}.

Record DiagnosticsDigest : Type := mkDiagnosticsDigest {
  digestSummary : Summary;            (* field [summary] *)
  digestIssues : list IssueDigest     (* field [issues] *)
}.

Record DiagnosticJSON : Type := mkDiagnosticJSON {
  digestDnsResults : DnsResultsDigest;      (* field [dnsResults] *)
  digestDiagnostics : DiagnosticsDigest     (* field [diagnostics] *)
}.

Definition diagnosticJSONOf (dnsResults : AllDNSResults)
    (diagnostics : DiagnosticResult) : DiagnosticJSON :=
  {| digestDnsResults :=
       {| recordTypes := JsObject.keys dnsResults;
          recordCounts :=
            JsObject.fromEntries
              (map (fun entry => (fst entry, List.length (primaryRecords (snd entry))))
                 (JsObject.entries dnsResults));
          hasPropagationIssues :=
            existsb (fun result =>
                       existsb (fun p => hasError p)
                         (JsObject.values (propagation result)))
              (JsObject.values dnsResults) |};
     digestDiagnostics :=
       {| digestSummary := summary diagnostics;
          digestIssues :=
            map (fun issue =>
                   {| digestType := issueType issue;
                      digestSeverity := severity issue;
                      digestMessage := message issue |})
              (issues diagnostics) |} |}.

(** The explanation returned when no provider answers. *)
Definition fallbackExplanation (diagnostics : DiagnosticResult) : AIExplanation :=
  {| aiSummary :=
       "AI analysis unavailable. Please review the diagnostic results below.";
     aiIssues :=
       map (fun issue =>
              {| issue := message issue;
                 aiSeverity :=
                   match severity issue with
                   | Error => 8
                   | Warning => 5
                   | Info => 3
                   end;
                 explanation :=
                   "This is a " ++ severityName (severity issue)
                   ++ " level issue: " ++ message issue;
                 steps :=
                   [ ("Review the " ++ issueType issue
                      ++ " issue and consult DNS documentation")%string ] |})
         (issues diagnostics) |}.

(** Truthiness of [env.OPENAI_API_KEY]. *)
Definition keyConfigured (key : option string) : bool :=
  match key with
  | Some (String _ _) => true
  | _ => false
  end.

Definition analyzeWithAI
    (analyzeWithWorkersAI analyzeWithOpenAI : DiagnosticJSON -> Completion AIExplanation)
    (OPENAI_API_KEY : option string)
    (dnsResults : AllDNSResults) (diagnostics : DiagnosticResult) : AIExplanation :=
  let diagnosticJSON := diagnosticJSONOf dnsResults diagnostics in
  match analyzeWithWorkersAI diagnosticJSON with
  | Return explanation => explanation
  | Throw _ =>
      if keyConfigured OPENAI_API_KEY then
        match analyzeWithOpenAI diagnosticJSON with
        | Return explanation => explanation
        | Throw _ => fallbackExplanation diagnostics
        end
      else fallbackExplanation diagnostics
  end.

(** The number of items of an explanation with a given rating. *)
Definition ratedCount (rating : Z) (e : AIExplanation) : nat :=
  List.length (filter (fun i => (aiSeverity i =? rating)%Z) (aiIssues e)).

(** A provider that is down. *)
Definition providerDown : DiagnosticJSON -> Completion AIExplanation :=
  fun _ => Throw "provider unavailable".

(* ------------------------------------------------------------------ *)
(** ** Anchored regular expressions

    The two domain patterns are anchored at both ends and use classes,
    sequence, alternation and repetition only, so [test] decides membership
    in the language of the pattern. *)

Inductive regex : Type :=
| Void
| Eps
| Cls (p : ascii -> bool)
| Cat (r s : regex)
| Alt (r s : regex)
| Star (r : regex).

Fixpoint nullable (r : regex) : bool :=
  match r with
  | Void => false
  | Eps => true
  | Cls _ => false
  | Cat r s => nullable r && nullable s
  | Alt r s => nullable r || nullable s
  | Star _ => true
  end.

(** The pattern for what may follow a first unit [c]. *)
Fixpoint deriv (c : ascii) (r : regex) : regex :=
  match r with
  | Void => Void
  | Eps => Void
  | Cls p => if p c then Eps else Void
  | Cat r s =>
      if nullable r then Alt (Cat (deriv c r) s) (deriv c s)
      else Cat (deriv c r) s
  | Alt r s => Alt (deriv c r) (deriv c s)
  | Star r => Cat (deriv c r) (Star r)
  end.

(** [/^r$/.test(s)] *)
Fixpoint regex_test (r : regex) (s : string) : bool :=
  match s with
  | EmptyString => nullable r
  | String c rest => regex_test (deriv c r) rest
  end.

(** The language of a pattern. *)
Inductive Matches : regex -> string -> Prop :=
| MatchesEps : Matches Eps ""
| MatchesCls p c : p c = true -> Matches (Cls p) (String c "")
| MatchesCat r s x y : Matches r x -> Matches s y -> Matches (Cat r s) (x ++ y)
| MatchesAltL r s x : Matches r x -> Matches (Alt r s) x
| MatchesAltR r s x : Matches s x -> Matches (Alt r s) x
| MatchesStarNil r : Matches (Star r) ""
| MatchesStarCons r x y :
    Matches r x -> Matches (Star r) y -> Matches (Star r) (x ++ y).

(** [r?], [r+], [r{0,n}] and [r{2,}] *)
Definition opt (r : regex) : regex := Alt Eps r.
Definition plus (r : regex) : regex := Cat r (Star r).

Fixpoint upTo (n : nat) (r : regex) : regex :=
  match n with
  | O => Eps
  | S m => Alt Eps (Cat r (upTo m r))
  end.

Definition atLeast2 (r : regex) : regex := Cat r (Cat r (Star r)).

(** The classes of the two patterns, under the [i] flag. *)
Definition isLetter (c : ascii) : bool :=
  let n := N_of_ascii (foldCase_unit c) in ((97 <=? n) && (n <=? 122))%N.

Definition isDigit (c : ascii) : bool :=
  let n := N_of_ascii c in ((48 <=? n) && (n <=? 57))%N.

Definition isAlnum (c : ascii) : bool := isLetter c || isDigit c.
Definition isAlnumHyphen (c : ascii) : bool := isAlnum c || Ascii.eqb c "-".
Definition isAlnumDotHyphen (c : ascii) : bool :=
  isAlnum c || Ascii.eqb c "." || Ascii.eqb c "-".
Definition isDot (c : ascii) : bool := Ascii.eqb c ".".

(** constants.ts:
    [/^([a-z0-9]([a-z0-9-]{0,61}[a-z0-9])?\.)+[a-z]{2,}$/i] *)
Definition labelPattern : regex :=
  Cat (Cls isAlnum) (opt (Cat (upTo 61 (Cls isAlnumHyphen)) (Cls isAlnum))).

Definition DOMAIN_REGEX : regex :=
  Cat (plus (Cat labelPattern (Cls isDot))) (atLeast2 (Cls isLetter)).

(** DomainSearch.tsx: [/^[a-z0-9][a-z0-9.-]*\.[a-z]{2,}$/i] *)
Definition domainRegex : regex :=
  Cat (Cls isAlnum)
    (Cat (Star (Cls isAlnumDotHyphen))
       (Cat (Cls isDot) (atLeast2 (Cls isLetter)))).

(** White space and line terminators among the code units below 256. *)
Definition isWhiteSpace (c : ascii) : bool :=
  let n := N_of_ascii c in
  ((9 <=? n) && (n <=? 13) || (n =? 32) || (n =? 160))%N.

Fixpoint trimStart (s : string) : string :=
  match s with
  | String c rest => if isWhiteSpace c then trimStart rest else s
  | EmptyString => EmptyString
  end.

Fixpoint trimEnd (s : string) : string :=
  match s with
  | EmptyString => EmptyString
  | String c rest =>
      match trimEnd rest with
      | EmptyString => if isWhiteSpace c then EmptyString else String c EmptyString
      | kept => String c kept
      end
  end.

(** [s.trim()] *)
Definition trim (s : string) : string := trimEnd (trimStart s).

(** [s.replace(/\.$/, '')] *)
Fixpoint dropFinalDot (s : string) : string :=
  match s with
  | EmptyString => EmptyString
  | String c EmptyString => if Ascii.eqb c "." then EmptyString else s
  | String c rest => String c (dropFinalDot rest)
  end.

(** index.ts *)
Definition validateDomain (domain : string) : bool :=
  match domain with
  | EmptyString => false
  | _ =>
      let normalizedDomain := dropFinalDot (trim domain) in
      regex_test DOMAIN_REGEX normalizedDomain
  end.

(** DomainSearch.tsx *)
Definition search_validateDomain (domain : string) : bool :=
  match domain with
  | EmptyString => false
  | _ =>
      if String.eqb (trim domain) "" then false
      else
        let trimmed := trim domain in
        regex_test domainRegex trimmed
  end.

(** Every unit, the first unit, the last unit of a string is of a class. *)
Fixpoint allUnits (p : ascii -> bool) (s : string) : bool :=
  match s with
  | EmptyString => true
  | String c rest => p c && allUnits p rest
  end.

Definition firstUnit (p : ascii -> bool) (s : string) : bool :=
  match s with
  | String c _ => p c
  | EmptyString => false
  end.

Fixpoint lastUnit (p : ascii -> bool) (s : string) : bool :=
  match s with
  | EmptyString => false
  | String c EmptyString => p c
  | String _ rest => lastUnit p rest
  end.

(** A label: 1 to 63 letters, digits and hyphens, no hyphen at either end. *)
Definition validLabel (l : string) : Prop :=
  1 <= String.length l <= 63
  /\ allUnits isAlnumHyphen l = true
  /\ firstUnit isAlnum l = true
  /\ lastUnit isAlnum l = true.

(** A top-level domain: two letters or more. *)
Definition validTld (t : string) : Prop :=
  2 <= String.length t /\ allUnits isLetter t = true.

(** The labels, each followed by a dot. *)
Fixpoint dotted (labels : list string) : string :=
  match labels with
  | [] => EmptyString
  | l :: rest => (l ++ "." ++ dotted rest)%string
  end.

(* ------------------------------------------------------------------ *)
(** ** index.ts

    [rawOf] is the value [{ dnsResults, diagnostics }] as it is stored;
    the state of the worker is the storage of each history object, by the
    name given to [idFromName]; [reachable] says whether a request to a
    history object gets through ([stub.fetch] rejects otherwise).  Response
    headers are not modelled. *)

Section Worker.

Variable Raw : Type.
Variable rawOf : AllDNSResults -> DiagnosticResult -> Raw.







Section Handlers.

Variable encodeURIComponent : string -> string.
Variables fetch fetchLater : string -> RequestInit -> FetchOutcome.
Variable sched : list nat.
Variable schedOf : string -> list nat.
Variables analyzeWithWorkersAI analyzeWithOpenAI
  : DiagnosticJSON -> Completion AIExplanation.
Variable OPENAI_API_KEY : option string.
Variable reachable : bool.
Variables now later : Z.








End Handlers.

End Worker.



(* ------------------------------------------------------------------ *)
(** ** Lists, objects and sets *)

Lemma issuesOfType_app ty (l1 l2 : list DiagnosticIssue) :
  issuesOfType ty (l1 ++ l2) = issuesOfType ty l1 ++ issuesOfType ty l2.
Proof. apply filter_app. Qed.

Lemma issuesOfType_none ty kinds (l : list DiagnosticIssue) :
  Forall (fun i => In (issueType i) kinds) l ->
  ~ In ty kinds ->
  issuesOfType ty l = [].
Proof.
  intros Hall Hty. induction Hall as [|i l Hi _ IH]; simpl; [reflexivity|].
  destruct (String.eqb_spec (issueType i) ty) as [E|_]; [|exact IH].
  subst ty. contradiction.
Qed.

Lemma issuesOfType_all ty (l : list DiagnosticIssue) :
  Forall (fun i => issueType i = ty) l -> issuesOfType ty l = l.
Proof.
  induction 1 as [|i l Hi _ IH]; simpl; [reflexivity|].
  rewrite Hi, String.eqb_refl, IH. reflexivity.
Qed.

Lemma Forall_one_kind ty (l : list DiagnosticIssue) :
  Forall (fun i => issueType i = ty) l ->
  Forall (fun i => In (issueType i) [ty]) l.
Proof. apply Forall_impl. intros i E. left. symmetry. exact E. Qed.

Lemma countSeverity_partition (l : list DiagnosticIssue) :
  countSeverity Error l + countSeverity Warning l + countSeverity Info l
  = List.length l.
Proof.
  unfold countSeverity.
  induction l as [|i l IH]; simpl; [reflexivity|].
  destruct (severity i); simpl; lia.
Qed.

Lemma countSeverity_count_occ sev (l : list DiagnosticIssue) :
  countSeverity sev l = count_occ Severity_eq_dec (map severity l) sev.
Proof.
  unfold countSeverity.
  induction l as [|i l IH]; simpl; [reflexivity|].
  destruct (Severity_eq_dec (severity i) sev) as [E|N].
  - rewrite E. destruct sev; simpl; rewrite <- IH; reflexivity.
  - destruct (severity i), sev; simpl; try congruence; exact IH.
Qed.

(** *** Objects *)

Lemma set_fresh {V : Type} (o : JsObject.t V) k v :
  ~ In k (JsObject.keys o) -> JsObject.set o k v = o ++ [(k, v)].
Proof.
  induction o as [|[k' v'] o IH]; simpl; intros Hk; [reflexivity|].
  destruct (String.eqb_spec k k') as [E|N].
  - exfalso. apply Hk. left. symmetry. exact E.
  - rewrite IH; [reflexivity|]. intros Hin. apply Hk. right. exact Hin.
Qed.

(** Writing fresh, pairwise distinct keys appends them in writing order. *)
Lemma fold_set_fresh {A V : Type} (key : A -> string) (val : A -> V)
    (l : list A) (acc : JsObject.t V) :
  NoDup (map key l) ->
  (forall a, In a l -> ~ In (key a) (JsObject.keys acc)) ->
  fold_left (fun o a => JsObject.set o (key a) (val a)) l acc
  = acc ++ map (fun a => (key a, val a)) l.
Proof.
  revert acc. induction l as [|a l IH]; intros acc Hnd Hfresh; simpl.
  - rewrite app_nil_r. reflexivity.
  - inversion Hnd as [|? ? Hnotin Hnd']; subst.
    rewrite set_fresh by (apply Hfresh; left; reflexivity).
    rewrite IH; [rewrite <- app_assoc; reflexivity | exact Hnd' |].
    intros a' Hin'. unfold JsObject.keys. rewrite map_app, in_app_iff. simpl.
    intros [H|[H|[]]].
    + exact (Hfresh a' (or_intror Hin') H).
    + apply Hnotin. rewrite H. apply in_map. exact Hin'.
Qed.

Lemma set_keys_In {V : Type} (o : JsObject.t V) k v x :
  In x (JsObject.keys (JsObject.set o k v)) <-> In x (JsObject.keys o) \/ x = k.
Proof.
  induction o as [|[k' v'] o IH]; simpl.
  - intuition.
  - destruct (String.eqb_spec k k') as [E|N]; simpl.
    + subst k'. intuition.
    + unfold JsObject.keys in IH. rewrite IH. intuition.
Qed.

Lemma set_NoDup {V : Type} (o : JsObject.t V) k v :
  NoDup (JsObject.keys o) -> NoDup (JsObject.keys (JsObject.set o k v)).
Proof.
  induction o as [|[k' v'] o IH]; simpl; intros Hnd.
  - constructor; [intros H; destruct H|constructor].
  - inversion Hnd as [|? ? Hnotin Hnd']; subst.
    destruct (String.eqb_spec k k') as [E|N]; simpl.
    + constructor; assumption.
    + constructor; [|apply IH; exact Hnd'].
      intros Hin. apply (set_keys_In o k v k') in Hin.
      destruct Hin as [Hin|E]; [contradiction|congruence].
Qed.

Lemma fold_set_NoDup {A V : Type} (key : A -> string) (val : A -> V)
    (l : list A) (acc : JsObject.t V) :
  NoDup (JsObject.keys acc) ->
  NoDup (JsObject.keys
           (fold_left (fun o a => JsObject.set o (key a) (val a)) l acc)).
Proof.
  revert acc. induction l as [|a l IH]; intros acc Hnd; simpl; [exact Hnd|].
  apply IH, set_NoDup, Hnd.
Qed.

Lemma fold_set_map {A V : Type} (key : A -> string) (val : A -> V)
    (l : list A) (acc : JsObject.t V) :
  fold_left (fun o a => JsObject.set o (key a) (val a)) l acc
  = fold_left (fun o kv => JsObject.set o (fst kv) (snd kv))
      (map (fun a => (key a, val a)) l) acc.
Proof.
  revert acc. induction l as [|a l IH]; intros acc; simpl; [reflexivity|].
  apply IH.
Qed.

Lemma fromEntries_NoDup {V : Type} (l : list (string * V)) :
  NoDup (map fst l) -> JsObject.fromEntries l = l.
Proof.
  intros Hnd. unfold JsObject.fromEntries.
  rewrite (fold_set_fresh fst snd l JsObject.empty Hnd)
    by (intros a _ H; destruct H).
  simpl. rewrite <- (map_id l) at 2. apply map_ext. intros [k v]. reflexivity.
Qed.

Lemma get_In_NoDup {V : Type} (o : JsObject.t V) k v :
  NoDup (JsObject.keys o) -> In (k, v) o -> JsObject.get o k = Some v.
Proof.
  induction o as [|[k' v'] o IH]; simpl; intros Hnd Hin; [contradiction|].
  inversion Hnd as [|? ? Hnotin Hnd']; subst.
  destruct Hin as [E|Hin].
  - inversion E; subst. rewrite String.eqb_refl. reflexivity.
  - destruct (String.eqb_spec k k') as [->|N]; [|auto].
    exfalso. apply Hnotin. change k' with (fst (k', v)). apply in_map. exact Hin.
Qed.

(** *** Sets *)

Lemma has_In (s : JsSet.t) x : JsSet.has s x = true <-> In x s.
Proof.
  unfold JsSet.has. rewrite existsb_exists. split.
  - intros [y [Hin E]]. apply String.eqb_eq in E. subst. exact Hin.
  - intros Hin. exists x. split; [exact Hin|apply String.eqb_refl].
Qed.

Lemma add_In (s : JsSet.t) x y : In y (JsSet.add s x) <-> In y s \/ y = x.
Proof.
  unfold JsSet.add. destruct (JsSet.has s x) eqn:E.
  - apply has_In in E. split; [auto|]. intros [H | ->]; assumption.
  - rewrite in_app_iff. simpl. intuition.
Qed.

Lemma add_NoDup (s : JsSet.t) x : NoDup s -> NoDup (JsSet.add s x).
Proof.
  intros Hnd. unfold JsSet.add. destruct (JsSet.has s x) eqn:E; [exact Hnd|].
  apply NoDup_rev in Hnd. rewrite <- (rev_involutive (s ++ [x])).
  apply NoDup_rev. rewrite rev_app_distr. simpl. constructor; [|exact Hnd].
  rewrite <- in_rev. intros Hin. apply has_In in Hin. congruence.
Qed.

Lemma fold_add_In (l : list string) (acc : JsSet.t) x :
  In x (fold_left JsSet.add l acc) <-> In x acc \/ In x l.
Proof.
  revert acc. induction l as [|y l IH]; intros acc; simpl; [intuition|].
  rewrite IH, add_In. intuition.
Qed.

Lemma fold_add_NoDup (l : list string) (acc : JsSet.t) :
  NoDup acc -> NoDup (fold_left JsSet.add l acc).
Proof.
  revert acc. induction l as [|y l IH]; intros acc Hnd; simpl; [exact Hnd|].
  apply IH, add_NoDup, Hnd.
Qed.

Lemma ofList_sameMembers (l : list string) : sameMembers (JsSet.ofList l) l.
Proof.
  intros x. unfold JsSet.ofList. rewrite fold_add_In. simpl. intuition.
Qed.

Lemma ofList_NoDup (l : list string) : NoDup (JsSet.ofList l).
Proof. apply fold_add_NoDup. constructor. Qed.

(** On duplicate-free lists the size-and-inclusion test of
    [checkNSMismatch] decides equality of membership. *)
Lemma nsSetsDiffer_false_iff (a b : JsSet.t) :
  NoDup a -> NoDup b ->
  nsSetsDiffer a b = false <-> sameMembers a b.
Proof.
  intros Ha Hb. unfold nsSetsDiffer, JsSet.size, JsSet.spread.
  rewrite orb_false_iff, !negb_false_iff, Nat.eqb_eq, forallb_forall.
  split.
  - intros [Hlen Hincl] x.
    assert (Hab : incl a b) by (intros y Hy; apply has_In, Hincl, Hy).
    split; [apply Hab|].
    apply (NoDup_length_incl Ha); [rewrite Hlen; apply le_n | exact Hab].
  - intros Hsame. split.
    + apply Nat.le_antisymm; apply NoDup_incl_length; trivial;
        intros y Hy; apply Hsame; exact Hy.
    + intros y Hy. apply has_In, Hsame, Hy.
Qed.

Lemma nsSetsDiffer_nsSetOf (x y : list DNSRecord) :
  nsSetsDiffer (nsSetOf x) (nsSetOf y) = true
  <-> ~ sameMembers (nsNames x) (nsNames y).
Proof.
  unfold nsSetOf. fold (nsNames x) (nsNames y).
  pose proof (nsSetsDiffer_false_iff _ _
                (ofList_NoDup (nsNames x)) (ofList_NoDup (nsNames y))) as H.
  pose proof (ofList_sameMembers (nsNames x)) as Hx.
  pose proof (ofList_sameMembers (nsNames y)) as Hy.
  assert (Hs : sameMembers (JsSet.ofList (nsNames x)) (JsSet.ofList (nsNames y))
               <-> sameMembers (nsNames x) (nsNames y)).
  { unfold sameMembers in *. split; intros Hst z.
    - rewrite <- Hx, <- Hy. apply Hst.
    - rewrite Hx, Hy. apply Hst. }
  rewrite <- Hs, <- H. destruct (nsSetsDiffer _ _); split; congruence.
Qed.

(** *** The kinds of each rule *)

Lemma checkNSMismatch_kind dns :
  Forall (fun i => issueType i = "ns_mismatch") (checkNSMismatch dns).
Proof.
  unfold checkNSMismatch.
  destruct (JsObject.get dns "NS") as [ns|]; [|constructor].
  destruct (Nat.eqb _ 0); [constructor|].
  destruct (fold_left _ _ _) as [resolverNS [|]]; repeat constructor.
Qed.

Lemma checkCNAMEAtApex_kind dns :
  Forall (fun i => issueType i = "cname_at_apex") (checkCNAMEAtApex dns).
Proof.
  unfold checkCNAMEAtApex.
  destruct (JsObject.get dns "CNAME") as [c|]; [|constructor].
  destruct (Nat.eqb _ 0); [constructor|].
  destruct (_ && _); repeat constructor.
Qed.

Lemma checkMissingAAAA_kind dns :
  Forall (fun i => issueType i = "missing_aaaa") (checkMissingAAAA dns).
Proof.
  unfold checkMissingAAAA.
  destruct (JsObject.get dns "A") as [a|]; [|constructor].
  destruct (Nat.ltb 0 _); [|constructor].
  destruct (negb _); repeat constructor.
Qed.

Lemma checkEmailSetup_kinds dns :
  Forall (fun i => In (issueType i) kindsOf_checkEmailSetup) (checkEmailSetup dns).
Proof.
  unfold checkEmailSetup, kindsOf_checkEmailSetup.
  destruct (_ && _).
  - constructor; [simpl; auto | constructor].
  - apply Forall_app; split.
    + destruct (_ && _); [constructor; [simpl; auto | constructor] | constructor].
    + destruct (_ && _); [constructor; [simpl; auto | constructor] | constructor].
Qed.

Lemma checkSPFSyntax_kind dns :
  Forall (fun i => issueType i = "spf_syntax_error") (checkSPFSyntax dns).
Proof.
  unfold checkSPFSyntax.
  destruct (JsObject.get dns "TXT") as [t|]; [|constructor].
  destruct (Nat.eqb _ 0); [constructor|].
  apply Forall_flat_map, Forall_forall. intros r _.
  destruct (negb _); repeat constructor.
Qed.

Lemma ttlIssues_kinds ty r :
  Forall (fun i => In (issueType i) kindsOf_checkTTL) (ttlIssues ty r).
Proof.
  unfold ttlIssues, kindsOf_checkTTL.
  destruct (Z.ltb _ _); [constructor; [simpl; auto | constructor]|].
  destruct (Z.ltb _ _); [constructor; [simpl; auto | constructor] | constructor].
Qed.

Lemma checkTTL_kinds dns :
  Forall (fun i => In (issueType i) kindsOf_checkTTL) (checkTTL dns).
Proof.
  unfold checkTTL.
  apply Forall_flat_map, Forall_forall. intros [ty q] _.
  apply Forall_flat_map, Forall_forall. intros r _.
  apply ttlIssues_kinds.
Qed.

Lemma checkDNSSEC_kind dns domain :
  Forall (fun i => issueType i = "dnssec_check") (checkDNSSEC dns domain).
Proof. repeat constructor. Qed.

Ltac other_kind :=
  match goal with
  | |- issuesOfType _ (checkNSMismatch _) = [] =>
      eapply issuesOfType_none;
      [apply Forall_one_kind, checkNSMismatch_kind|]
  | |- issuesOfType _ (checkCNAMEAtApex _) = [] =>
      eapply issuesOfType_none;
      [apply Forall_one_kind, checkCNAMEAtApex_kind|]
  | |- issuesOfType _ (checkMissingAAAA _) = [] =>
      eapply issuesOfType_none;
      [apply Forall_one_kind, checkMissingAAAA_kind|]
  | |- issuesOfType _ (checkEmailSetup _) = [] =>
      eapply issuesOfType_none; [apply checkEmailSetup_kinds|]
  | |- issuesOfType _ (checkSPFSyntax _) = [] =>
      eapply issuesOfType_none;
      [apply Forall_one_kind, checkSPFSyntax_kind|]
  | |- issuesOfType _ (checkTTL _) = [] =>
      eapply issuesOfType_none; [apply checkTTL_kinds|]
  | |- issuesOfType _ (checkDNSSEC _ _) = [] =>
      eapply issuesOfType_none;
      [apply Forall_one_kind, checkDNSSEC_kind|]
  end;
  simpl; intuition discriminate.

(** The issues of a kind in the report come from the rule that owns it. *)
Lemma analyzeDNS_ns_mismatch dns domain :
  issuesOfType "ns_mismatch" (issues (analyzeDNS dns domain)) = checkNSMismatch dns.
Proof.
  unfold analyzeDNS; simpl issues.
  rewrite !issuesOfType_app.
  rewrite (issuesOfType_all _ _ (checkNSMismatch_kind dns)).
  repeat match goal with
         | |- context [issuesOfType ?ty ?l] =>
             let H := fresh in
             assert (H : issuesOfType ty l = []) by other_kind; rewrite H; clear H
         end.
  rewrite !app_nil_r. reflexivity.
Qed.

Lemma analyzeDNS_spf_syntax_error dns domain :
  issuesOfType "spf_syntax_error" (issues (analyzeDNS dns domain))
  = checkSPFSyntax dns.
Proof.
  unfold analyzeDNS; simpl issues.
  rewrite !issuesOfType_app.
  rewrite (issuesOfType_all _ _ (checkSPFSyntax_kind dns)).
  repeat match goal with
         | |- context [issuesOfType ?ty ?l] =>
             let H := fresh in
             assert (H : issuesOfType ty l = []) by other_kind; rewrite H; clear H
         end.
  rewrite !app_nil_r. reflexivity.
Qed.

Lemma analyzeDNS_email_kind dns domain ty :
  In ty kindsOf_checkEmailSetup ->
  issuesOfType ty (issues (analyzeDNS dns domain))
  = issuesOfType ty (checkEmailSetup dns).
Proof.
  intros Hty.
  unfold analyzeDNS; simpl issues.
  rewrite !issuesOfType_app.
  assert (Hn : forall l other,
             Forall (fun i => In (issueType i) other) l ->
             (forall k, In k other -> ~ In k kindsOf_checkEmailSetup) ->
             issuesOfType ty l = []).
  { intros l other Hall Hdisj. eapply issuesOfType_none; [exact Hall|].
    intros Hin. exact (Hdisj _ Hin Hty). }
  rewrite (Hn _ _ (Forall_one_kind _ _ (checkNSMismatch_kind dns)))
    by (simpl; intuition (subst; intuition discriminate)).
  rewrite (Hn _ _ (Forall_one_kind _ _ (checkCNAMEAtApex_kind dns)))
    by (simpl; intuition (subst; intuition discriminate)).
  rewrite (Hn _ _ (Forall_one_kind _ _ (checkMissingAAAA_kind dns)))
    by (simpl; intuition (subst; intuition discriminate)).
  rewrite (Hn _ _ (Forall_one_kind _ _ (checkSPFSyntax_kind dns)))
    by (simpl; intuition (subst; intuition discriminate)).
  rewrite (Hn _ _ (checkTTL_kinds dns))
    by (simpl; intuition (subst; intuition discriminate)).
  rewrite (Hn _ _ (Forall_one_kind _ _ (checkDNSSEC_kind dns domain)))
    by (simpl; intuition (subst; intuition discriminate)).
  rewrite !app_nil_r. reflexivity.
Qed.

(* ------------------------------------------------------------------ *)
(** ** The report and its summary *)

(** C1. For every result set, the report of [analyzeDNS] has
    [errors + warnings + info] equal to the number of its issues, and each
    of the three fields is the number of issues of that severity. *)
Theorem analyzeDNS_summary_invariant (dns : AllDNSResults) (domain : string) :
  let report := analyzeDNS dns domain in
  errors (summary report) + warnings (summary report) + info (summary report)
  = List.length (issues report)
  /\ errors (summary report)
     = count_occ Severity_eq_dec (map severity (issues report)) Error
  /\ warnings (summary report)
     = count_occ Severity_eq_dec (map severity (issues report)) Warning
  /\ info (summary report)
     = count_occ Severity_eq_dec (map severity (issues report)) Info.
Proof.
  intros report. subst report. unfold analyzeDNS. cbn [summary issues errors warnings info].
  split; [apply countSeverity_partition|].
  repeat split; apply countSeverity_count_occ.
Qed.

(* ------------------------------------------------------------------ *)
(** ** The email-setup rule *)

Lemma hasPrimaryRecords_primaryOf dns ty :
  hasPrimaryRecords (JsObject.get dns ty)
  = match primaryOf dns ty with [] => false | _ :: _ => true end.
Proof.
  unfold hasPrimaryRecords, primaryOf.
  destruct (JsObject.get dns ty) as [q|]; [|reflexivity].
  destruct (primaryRecords q); reflexivity.
Qed.

Lemma truthy_someStartsWith dns tag :
  truthy (someStartsWith (JsObject.get dns "TXT") tag)
  = existsb (fun r => startsWith (toLowerCase (data r)) tag) (primaryOf dns "TXT").
Proof.
  unfold someStartsWith, primaryOf.
  destruct (JsObject.get dns "TXT") as [q|]; simpl; [|reflexivity].
  destruct (existsb _ _); reflexivity.
Qed.

Lemma noneTagged_existsb tag txt :
  noneTagged tag txt
  <-> existsb (fun r => startsWith (toLowerCase (data r)) tag) txt = false.
Proof.
  unfold noneTagged. split.
  - intros H. destruct (existsb _ txt) eqn:E; [|reflexivity].
    apply existsb_exists in E. destruct E as [r [Hin Hr]].
    rewrite (H r Hin) in Hr. discriminate.
  - intros E r Hin. destruct (startsWith _ tag) eqn:Hr; [|reflexivity].
    assert (X : existsb (fun r => startsWith (toLowerCase (data r)) tag) txt = true)
      by (apply existsb_exists; exists r; auto).
    congruence.
Qed.

(** What [checkEmailSetup] returns, by the primary MX and TXT records. *)
Lemma checkEmailSetup_cases dns :
  let mx := primaryOf dns "MX" in
  let txt := primaryOf dns "TXT" in
  let tagged tag := existsb (fun r => startsWith (toLowerCase (data r)) tag) txt in
  checkEmailSetup dns =
  match mx, txt with
  | [], [] => [missingEmailSetupIssue]
  | [], _ :: _ => []
  | _ :: _, _ =>
      (if tagged "v=spf1" then [] else [missingSPFIssue])
      ++ (if tagged "v=dmarc1" then [] else [missingDMARCIssue])
  end.
Proof.
  intros mx txt tagged. unfold checkEmailSetup.
  rewrite !hasPrimaryRecords_primaryOf, !truthy_someStartsWith.
  fold mx txt. fold (tagged "v=spf1") (tagged "v=dmarc1").
  destruct mx, txt; simpl; try reflexivity;
    destruct (tagged "v=spf1"), (tagged "v=dmarc1"); reflexivity.
Qed.

(** C7. With neither MX nor TXT primary records the report holds exactly
    one [missing_email_setup] info issue and no [missing_spf] or
    [missing_dmarc] issue.  Otherwise it holds no [missing_email_setup]
    issue; a [missing_spf] warning is emitted when MX records exist and no
    TXT payload starts, ignoring case, with [v=spf1], and only then; a
    [missing_dmarc] info is emitted when MX records exist and no TXT payload
    starts, ignoring case, with the DMARC tag, and only then. *)
Theorem email_setup_rule (dns : AllDNSResults) (domain : string) :
  let found ty := issuesOfType ty (issues (analyzeDNS dns domain)) in
  let mx := primaryOf dns "MX" in
  let txt := primaryOf dns "TXT" in
  (mx = [] /\ txt = [] ->
     found "missing_email_setup" = [missingEmailSetupIssue]
     /\ severity missingEmailSetupIssue = Info
     /\ found "missing_spf" = []
     /\ found "missing_dmarc" = [])
  /\ (~ (mx = [] /\ txt = []) ->
      found "missing_email_setup" = []
      /\ (mx <> [] /\ noneTagged "v=spf1" txt ->
          found "missing_spf" = [missingSPFIssue]
          /\ severity missingSPFIssue = Warning)
      /\ (mx <> [] /\ noneTagged "v=dmarc1" txt ->
          found "missing_dmarc" = [missingDMARCIssue]
          /\ severity missingDMARCIssue = Info)
      /\ (found "missing_spf" <> [] -> mx <> [] /\ noneTagged "v=spf1" txt)
      /\ (found "missing_dmarc" <> [] -> mx <> [] /\ noneTagged "v=dmarc1" txt)).
Proof.
  intros found mx txt. subst found. cbv beta.
  rewrite !analyzeDNS_email_kind by (simpl; auto).
  rewrite !noneTagged_existsb.
  pose proof (checkEmailSetup_cases dns) as E. cbv zeta in E.
  fold mx txt in E. rewrite E. clear E.
  destruct mx as [|m mx'], txt as [|t txt'];
    try destruct (existsb _ (t :: txt')) eqn:Espf;
    try destruct (existsb (fun r => startsWith (toLowerCase (data r)) "v=dmarc1")
                    (t :: txt')) eqn:Edmarc;
    simpl;
    repeat match goal with
           | |- _ /\ _ => split
           | |- _ -> _ => intro
           | H : _ /\ _ |- _ => destruct H
           end;
    try reflexivity; try congruence;
    try (exfalso;
         match goal with H : ~ _ |- _ => apply H; split; reflexivity end).
Qed.

(** At the empty result set the report holds the one
    [missing_email_setup] issue. *)
Lemma email_setup_rule_witness :
  issuesOfType "missing_email_setup" (issues (analyzeDNS [] "example.com"))
  = [missingEmailSetupIssue].
Proof.
  apply (proj1 (email_setup_rule [] "example.com")).
  split; reflexivity.
Defined.

(* ------------------------------------------------------------------ *)
(** ** The SPF syntax rule *)

Lemma validateSPF_parts_false_iff parts :
  validateSPF_parts parts = false
  <-> exists part, In part parts /\ badToken part.
Proof.
  unfold badToken. induction parts as [|p parts IH]; simpl.
  - split; [discriminate|]. intros [part [[] _]].
  - destruct (String.eqb_spec p "") as [E1|N1].
    { rewrite IH. split.
      - intros [part [Hin Hbad]]. exists part. auto.
      - intros [part [[->|Hin] Hbad]]; [|exists part; auto].
        destruct Hbad as [Hn _]. contradiction. }
    destruct (String.eqb_spec p "all") as [E2|N2].
    { rewrite IH. split.
      - intros [part [Hin Hbad]]. exists part. auto.
      - intros [part [[->|Hin] Hbad]]; [|exists part; auto].
        destruct Hbad as [_ [Hn _]]. contradiction. }
    destruct (validMechanisms_test p) eqn:T; simpl.
    + rewrite IH. split.
      * intros [part [Hin Hbad]]. exists part. auto.
      * intros [part [[->|Hin] Hbad]]; [|exists part; auto].
        destruct Hbad as [_ [_ Hn]]. congruence.
    + split; [|reflexivity]. intros _. exists p. auto.
Qed.

Lemma validateSPF_false_iff s :
  validateSPF s = false
  <-> startsWith s "v=spf1" = false
      \/ exists part, In part (slice1 (split " "%char s)) /\ badToken part.
Proof.
  unfold validateSPF. destruct (startsWith s "v=spf1"); simpl.
  - rewrite validateSPF_parts_false_iff. split; [auto|].
    intros [H|H]; [discriminate|exact H].
  - split; auto.
Qed.

Lemma checkSPFSyntax_eq dns :
  checkSPFSyntax dns = map spfSyntaxIssue (filter offendingSPF (primaryOf dns "TXT")).
Proof.
  unfold checkSPFSyntax, primaryOf.
  destruct (JsObject.get dns "TXT") as [t|]; [|reflexivity].
  destruct (primaryRecords t) as [|r0 rs0] eqn:E; [reflexivity|].
  cbn [List.length Nat.eqb]. clear E.
  generalize (r0 :: rs0) as rs. clear r0 rs0.
  induction rs as [|r rs IH]; [reflexivity|].
  unfold offendingSPF in *. simpl.
  destruct (isSPFRecord r); simpl; [|exact IH].
  destruct (validateSPF (data r)); simpl; rewrite IH; reflexivity.
Qed.

(** C8. The [spf_syntax_error] issues of a report are one per offending TXT
    record, in record order, each an error carrying the record's text, where
    a record offends when it is selected as SPF and its text lacks the
    literal tag or has at least one token that fails the mechanism grammar,
    however many such tokens there are.  A lone TXT record
    [v=spf1 include:_spf.example.com -all] yields none; a lone TXT record
    [v=spf1 frobnicate] yields exactly one. *)
Theorem spf_syntax_rule (dns : AllDNSResults) (domain : string) :
  let found := issuesOfType "spf_syntax_error" (issues (analyzeDNS dns domain)) in
  let txt := primaryOf dns "TXT" in
  found = map spfSyntaxIssue (filter offendingSPF txt)
  /\ (forall r,
        offendingSPF r = true
        <-> isSPFRecord r = true
            /\ (startsWith (data r) "v=spf1" = false
                \/ exists part,
                     In part (slice1 (split " "%char (data r))) /\ badToken part))
  /\ (forall r, txt = [r] -> offendingSPF r = true ->
        found = [ {| issueType := "spf_syntax_error";
                     severity := Error;
                     message := "SPF record has syntax errors";
                     details := Some (SPFSyntaxDetails (data r)) |} ])
  /\ (forall r, txt = [r] -> data r = "v=spf1 include:_spf.example.com -all" ->
        found = [])
  /\ (forall r, txt = [r] -> data r = "v=spf1 frobnicate" ->
        found = [ {| issueType := "spf_syntax_error";
                     severity := Error;
                     message := "SPF record has syntax errors";
                     details := Some (SPFSyntaxDetails "v=spf1 frobnicate") |} ]).
Proof.
  intros found txt. subst found.
  rewrite analyzeDNS_spf_syntax_error, checkSPFSyntax_eq. fold txt.
  split; [reflexivity|]. split; [|split; [|split]].
  - intros r. unfold offendingSPF.
    rewrite andb_true_iff, negb_true_iff, validateSPF_false_iff. reflexivity.
  - intros r -> Hoff. simpl. rewrite Hoff. reflexivity.
  - intros r -> Hdata.
    assert (Hoff : offendingSPF r = false)
      by (unfold offendingSPF, isSPFRecord; rewrite Hdata; reflexivity).
    simpl. rewrite Hoff. reflexivity.
  - intros r -> Hdata.
    assert (Hoff : offendingSPF r = true)
      by (unfold offendingSPF, isSPFRecord; rewrite Hdata; reflexivity).
    simpl. rewrite Hoff. unfold spfSyntaxIssue. simpl. rewrite Hdata. reflexivity.
Qed.

(** The two records of C8 as lone TXT records of a result set. *)
Lemma spf_syntax_rule_witness :
  issuesOfType "spf_syntax_error"
    (issues (analyzeDNS (txtOnly [txtRecord "v=spf1 include:_spf.example.com -all"])
               "example.com")) = []
  /\ issuesOfType "spf_syntax_error"
       (issues (analyzeDNS (txtOnly [txtRecord "v=spf1 frobnicate"]) "example.com"))
     = [ {| issueType := "spf_syntax_error";
            severity := Error;
            message := "SPF record has syntax errors";
            details := Some (SPFSyntaxDetails "v=spf1 frobnicate") |} ].
Proof.
  split.
  - apply (proj1 (proj2 (proj2 (proj2
             (spf_syntax_rule
                (txtOnly [txtRecord "v=spf1 include:_spf.example.com -all"])
                "example.com"))))
             (txtRecord "v=spf1 include:_spf.example.com -all"));
      reflexivity.
  - apply (proj2 (proj2 (proj2 (proj2
             (spf_syntax_rule (txtOnly [txtRecord "v=spf1 frobnicate"])
                "example.com"))))
             (txtRecord "v=spf1 frobnicate"));
      reflexivity.
Defined.

(** C9. A TXT record whose text starts with the SPF tag only when case is
    ignored is selected by [checkSPFSyntax] and rejected by [validateSPF],
    so the report holds an [spf_syntax_error] for it; the record
    [V=spf1 include:_spf.example.com -all], all of whose mechanisms pass the
    loop of [validateSPF], is such a record. *)
Theorem uppercase_spf_tag_is_flagged :
  (forall (dns : AllDNSResults) (domain : string) (r : DNSRecord),
      In r (primaryOf dns "TXT") ->
      isSPFRecord r = true ->
      startsWith (data r) "v=spf1" = false ->
      In (spfSyntaxIssue r)
        (issuesOfType "spf_syntax_error" (issues (analyzeDNS dns domain))))
  /\ (let r := txtRecord "V=spf1 include:_spf.example.com -all" in
      isSPFRecord r = true
      /\ startsWith (data r) "v=spf1" = false
      /\ validateSPF_parts (slice1 (split " "%char (data r))) = true
      /\ validateSPF (data r) = false
      /\ issuesOfType "spf_syntax_error"
           (issues (analyzeDNS (txtOnly [r]) "example.com"))
         = [ {| issueType := "spf_syntax_error";
                severity := Error;
                message := "SPF record has syntax errors";
                details := Some (SPFSyntaxDetails
                             "V=spf1 include:_spf.example.com -all") |} ]).
Proof.
  split.
  - intros dns domain r Hin Hsel Htag.
    rewrite analyzeDNS_spf_syntax_error, checkSPFSyntax_eq.
    apply in_map, filter_In. split; [exact Hin|].
    unfold offendingSPF, validateSPF. rewrite Hsel, Htag. reflexivity.
  - repeat split; reflexivity.
Qed.

(** The record of C9 in a result set of its own. *)
Lemma uppercase_spf_tag_is_flagged_witness :
  In (spfSyntaxIssue (txtRecord "V=spf1 include:_spf.example.com -all"))
    (issuesOfType "spf_syntax_error"
       (issues (analyzeDNS
                  (txtOnly [txtRecord "V=spf1 include:_spf.example.com -all"])
                  "example.com"))).
Proof.
  apply (proj1 uppercase_spf_tag_is_flagged).
  - simpl. left. reflexivity.
  - reflexivity.
  - reflexivity.
Defined.

(* ------------------------------------------------------------------ *)
(** ** The NS consistency rule *)

(** The loop of [checkNSMismatch] sees only the entries that are not
    failure-marked. *)
Lemma nsLoop_filter primaryNS (l : list (string * ResolverResult)) acc b :
  fold_left (nsLoopStep primaryNS) l (acc, b)
  = (fold_left (fun o kv => JsObject.set o (fst kv) (nsSetOf (records (snd kv))))
       (filter notFailed l) acc,
     b || existsb (fun kv => nsSetsDiffer (nsSetOf (records (snd kv))) primaryNS)
            (filter notFailed l)).
Proof.
  revert acc b. induction l as [|[k r] l IH]; intros acc b.
  - simpl. rewrite orb_false_r. reflexivity.
  - cbn [fold_left filter nsLoopStep].
    assert (Hnf : notFailed (k, r) = negb (hasError r)) by reflexivity.
    rewrite Hnf. destruct (hasError r); cbn [negb].
    + apply IH.
    + rewrite IH. cbn [fold_left existsb fst snd]. f_equal.
      destruct (nsSetsDiffer (nsSetOf (records r)) primaryNS), b; reflexivity.
Qed.

Lemma checkNSMismatch_empty_primary dns :
  primaryOf dns "NS" = [] -> checkNSMismatch dns = [].
Proof.
  unfold primaryOf, checkNSMismatch.
  destruct (JsObject.get dns "NS") as [ns|]; [|reflexivity].
  intros ->. reflexivity.
Qed.

Lemma checkNSMismatch_cases dns ns :
  JsObject.get dns "NS" = Some ns ->
  primaryRecords ns <> [] ->
  checkNSMismatch dns
  = if existsb (fun kv => nsSetsDiffer (nsSetOf (records (snd kv)))
                            (nsSetOf (primaryRecords ns)))
         (filter notFailed (propagation ns))
    then [ nsMismatchIssue (nsSetOf (primaryRecords ns))
             (fold_left
                (fun o kv => JsObject.set o (fst kv) (nsSetOf (records (snd kv))))
                (filter notFailed (propagation ns)) JsObject.empty) ]
    else [].
Proof.
  intros Hget Hne. unfold checkNSMismatch. rewrite Hget.
  destruct (primaryRecords ns) as [|r0 rs0] eqn:E; [congruence|].
  cbn [List.length Nat.eqb]. unfold JsObject.entries.
  rewrite nsLoop_filter. simpl orb. reflexivity.
Qed.

Lemma divergent_existsb ns :
  existsb (fun kv => nsSetsDiffer (nsSetOf (records (snd kv)))
                       (nsSetOf (primaryRecords ns)))
    (filter notFailed (propagation ns)) = true
  <-> divergentResolver ns.
Proof.
  unfold divergentResolver. rewrite existsb_exists. split.
  - intros [[k r] [Hin Hd]]. apply filter_In in Hin. destruct Hin as [Hin Hnf].
    exists k, r. split; [exact Hin|]. split.
    + unfold notFailed in Hnf. simpl in Hnf. apply negb_true_iff. exact Hnf.
    + apply nsSetsDiffer_nsSetOf. exact Hd.
  - intros [k [r [Hin [Hnf Hd]]]]. exists (k, r). split.
    + apply filter_In. split; [exact Hin|].
      unfold notFailed. simpl. rewrite Hnf. reflexivity.
    + apply nsSetsDiffer_nsSetOf. exact Hd.
Qed.

Lemma NoDup_keys_filter {V : Type} (f : string * V -> bool) (o : JsObject.t V) :
  NoDup (JsObject.keys o) -> NoDup (JsObject.keys (filter f o)).
Proof.
  unfold JsObject.keys. induction o as [|kv o IH]; simpl; intros Hnd; [constructor|].
  inversion Hnd as [|? ? Hnotin Hnd']; subst.
  destruct (f kv); simpl; [|auto].
  constructor; [|auto]. intros Hin. apply Hnotin.
  apply in_map_iff in Hin. destruct Hin as [kv' [E Hin]].
  apply filter_In in Hin. rewrite <- E. apply in_map. apply Hin.
Qed.

(** The detail of the issue is the table of the NS sets of the resolvers
    that are not failure-marked. *)
Lemma nsMismatchIssue_details (primaryNS : JsSet.t) (p : JsObject.t ResolverResult) :
  nsMismatchIssue primaryNS
    (fold_left (fun o kv => JsObject.set o (fst kv) (nsSetOf (records (snd kv))))
       (filter notFailed p) JsObject.empty)
  = {| issueType := "ns_mismatch";
       severity := Error;
       message := "NS records differ across DNS resolvers";
       details := Some (NSMismatchDetails primaryNS (nsSetsOf p)) |}.
Proof.
  unfold nsMismatchIssue. do 3 f_equal.
  unfold JsObject.entries, JsSet.spread, nsSetsOf.
  set (resolverNS := fold_left _ (filter notFailed p) JsObject.empty).
  assert (Hid : map (fun kv : string * JsSet.t => (fst kv, snd kv)) resolverNS
                = resolverNS).
  { rewrite <- (map_id resolverNS) at 2. apply map_ext. intros [k v]. reflexivity. }
  transitivity (JsObject.fromEntries resolverNS);
    [exact (f_equal (@JsObject.fromEntries (list string)) Hid)|].
  transitivity resolverNS.
  - apply fromEntries_NoDup. subst resolverNS.
    apply (fold_set_NoDup fst (fun kv => nsSetOf (records (snd kv)))).
    constructor.
  - subst resolverNS. unfold JsObject.fromEntries. apply fold_set_map.
Qed.

Lemma nsSetsOf_NoDup (p : JsObject.t ResolverResult) :
  NoDup (JsObject.keys p) ->
  nsSetsOf p
  = map (fun kv => (fst kv, nsSetOf (records (snd kv)))) (filter notFailed p).
Proof.
  intros Hnd. unfold nsSetsOf. apply fromEntries_NoDup.
  rewrite map_map. simpl. apply (NoDup_keys_filter notFailed), Hnd.
Qed.

(** C6, as the code has it.  When the primary NS list is not empty and some
    resolver of the propagation mapping that is not failure-marked has a
    lower-cased NS set that differs in membership from the primary one, the
    report holds exactly one [ns_mismatch] issue; its severity is error and
    its detail carries the primary NS set and, by resolver key, the NS set of
    every resolver that is not failure-marked.  Each such set has the
    members of the lower-cased payloads, once each. *)
Theorem ns_mismatch_rule (dns : AllDNSResults) (domain : string)
    (ns : DNSQueryResult) :
  JsObject.get dns "NS" = Some ns ->
  primaryRecords ns <> [] ->
  divergentResolver ns ->
  issuesOfType "ns_mismatch" (issues (analyzeDNS dns domain))
  = [ {| issueType := "ns_mismatch";
         severity := Error;
         message := "NS records differ across DNS resolvers";
         details := Some (NSMismatchDetails (nsSetOf (primaryRecords ns))
                      (nsSetsOf (propagation ns))) |} ]
  /\ (NoDup (JsObject.keys (propagation ns)) ->
      nsSetsOf (propagation ns)
      = map (fun kv => (fst kv, nsSetOf (records (snd kv))))
          (filter notFailed (propagation ns)))
  /\ (forall rs, NoDup (nsSetOf rs) /\ sameMembers (nsSetOf rs) (nsNames rs)).
Proof.
  intros Hget Hne Hdiv. split; [|split].
  - rewrite analyzeDNS_ns_mismatch, (checkNSMismatch_cases dns ns Hget Hne).
    apply divergent_existsb in Hdiv. rewrite Hdiv.
    rewrite nsMismatchIssue_details. reflexivity.
  - apply nsSetsOf_NoDup.
  - intros rs. split; [apply ofList_NoDup | apply ofList_sameMembers].
Qed.

(** Primary NS [ns1.example.com], [ns2.example.com] and one resolver that
    reports [ns3.example.com]: exactly one [ns_mismatch] error. *)
Lemma ns_mismatch_rule_witness :
  issuesOfType "ns_mismatch" (issues (analyzeDNS nsExample "example.com"))
  = [ {| issueType := "ns_mismatch";
         severity := Error;
         message := "NS records differ across DNS resolvers";
         details := Some (NSMismatchDetails
                      [ "ns1.example.com"; "ns2.example.com" ]
                      [ (RESOLVERS_GOOGLE, [ "ns3.example.com" ]) ]) |} ].
Proof.
  refine (proj1 (ns_mismatch_rule nsExample "example.com" _ eq_refl _ _)).
  - simpl. discriminate.
  - exists RESOLVERS_GOOGLE. eexists. split; [left; reflexivity|].
    split; [reflexivity|].
    intros Hsame. destruct (proj1 (Hsame "ns3.example.com")) as [H|[H|[]]].
    + left. reflexivity.
    + discriminate H.
    + discriminate H.
Defined.

(** C6 as stated fails on two inputs.  With an empty primary NS list and a
    resolver that reports [ns3.example.com], the resolver's set differs in
    membership from the primary one and the report holds no [ns_mismatch]
    issue.  With primary NS [ns1.example.com], two resolvers that agree and
    one whose query failed, the failed resolver's record set is empty, so it
    differs from the primary one, and again the report holds no
    [ns_mismatch] issue. *)
Lemma ns_mismatch_counterexample :
  (exists ns,
      JsObject.get nsEmptyPrimary "NS" = Some ns
      /\ differingResolver ns
      /\ issuesOfType "ns_mismatch"
           (issues (analyzeDNS nsEmptyPrimary "example.com")) = [])
  /\ (exists ns,
        JsObject.get nsFailedResolver "NS" = Some ns
        /\ differingResolver ns
        /\ issuesOfType "ns_mismatch"
             (issues (analyzeDNS nsFailedResolver "example.com")) = []).
Proof.
  split.
  - eexists. split; [reflexivity|]. split; [|reflexivity].
    exists RESOLVERS_GOOGLE. eexists. split; [left; reflexivity|].
    intros Hsame. apply (proj1 (Hsame "ns3.example.com")). left. reflexivity.
  - eexists. split; [reflexivity|]. split; [|reflexivity].
    exists RESOLVERS_GOOGLE. eexists. split; [right; left; reflexivity|].
    intros Hsame. apply (proj2 (Hsame "ns1.example.com")). left. reflexivity.
Qed.

(** C10. A failure-marked resolver never causes an [ns_mismatch] issue:
    the report holds none when the primary NS list is empty, whatever the
    resolvers report, and none when every resolver of the mapping is
    failure-marked; an issue that is emitted has a resolver that is not
    failure-marked and diverges; and two result sets with the same primary
    NS records and the same entries that are not failure-marked get the same
    [ns_mismatch] issues. *)
Theorem ns_mismatch_skips_failed_resolvers (dns : AllDNSResults) (domain : string) :
  let found d := issuesOfType "ns_mismatch" (issues (analyzeDNS d domain)) in
  (primaryOf dns "NS" = [] -> found dns = [])
  /\ (forall ns,
        JsObject.get dns "NS" = Some ns ->
        (Forall (fun kv => hasError (snd kv) = true) (propagation ns) ->
         found dns = [])
        /\ (found dns <> [] -> divergentResolver ns)
        /\ (forall dns' ns',
              JsObject.get dns' "NS" = Some ns' ->
              primaryRecords ns' = primaryRecords ns ->
              filter notFailed (propagation ns') = filter notFailed (propagation ns) ->
              found dns' = found dns)).
Proof.
  intros found. subst found. cbv beta.
  split.
  - intros He. rewrite analyzeDNS_ns_mismatch.
    apply checkNSMismatch_empty_primary, He.
  - intros ns Hget.
    destruct (primaryRecords ns) as [|r0 rs0] eqn:Hprim.
    { assert (He : forall d n, JsObject.get d "NS" = Some n ->
                               primaryRecords n = [] ->
                               issuesOfType "ns_mismatch" (issues (analyzeDNS d domain))
                               = []).
      { intros d n Hd Hn. rewrite analyzeDNS_ns_mismatch.
        apply checkNSMismatch_empty_primary. unfold primaryOf. rewrite Hd. exact Hn. }
      rewrite (He dns ns Hget Hprim).
      split; [reflexivity|]. split; [congruence|].
      intros dns' ns' Hget' Hp' _. apply (He dns' ns' Hget' Hp'). }
    assert (Hne : primaryRecords ns <> []) by congruence.
    rewrite analyzeDNS_ns_mismatch, (checkNSMismatch_cases dns ns Hget Hne).
    split; [|split].
    + intros Hall.
      assert (Hnil : filter notFailed (propagation ns) = []).
      { clear - Hall. induction Hall as [|kv l Hkv _ IH]; [reflexivity|].
        simpl. unfold notFailed at 1. rewrite Hkv. exact IH. }
      rewrite Hnil. reflexivity.
    + intros Hfound. apply divergent_existsb.
      destruct (existsb _ _); [reflexivity|congruence].
    + intros dns' ns' Hget' Hp' Hf'.
      assert (Hne' : primaryRecords ns' <> []) by congruence.
      rewrite analyzeDNS_ns_mismatch, (checkNSMismatch_cases dns' ns' Hget' Hne').
      rewrite Hp', Hf', <- Hprim. reflexivity.
Qed.

(** With an empty primary NS list the report holds no [ns_mismatch] issue,
    even though a resolver reports a name server. *)
Lemma ns_mismatch_skips_failed_resolvers_witness :
  issuesOfType "ns_mismatch" (issues (analyzeDNS nsEmptyPrimary "example.com")) = [].
Proof.
  apply (proj1 (ns_mismatch_skips_failed_resolvers nsEmptyPrimary "example.com")).
  reflexivity.
Defined.

(* ------------------------------------------------------------------ *)
(** ** The order in which concurrent queries settle *)

Lemma removeNth_Permutation {A : Type} (i : nat) (l : list A) (d : A) :
  i < List.length l -> Permutation (nth i l d :: removeNth i l) l.
Proof.
  revert i. induction l as [|x l IH]; intros i Hi; simpl in Hi; [lia|].
  destruct i as [|j]; simpl; [reflexivity|].
  rewrite perm_swap. constructor. apply IH. lia.
Qed.

Lemma removeNth_length {A : Type} (i : nat) (l : list A) :
  i < List.length l -> S (List.length (removeNth i l)) = List.length l.
Proof.
  revert i. induction l as [|x l IH]; intros i Hi; simpl in Hi; [lia|].
  destruct i as [|j]; simpl; [reflexivity|]. rewrite IH; [reflexivity|lia].
Qed.

Lemma settle_Permutation {A : Type} (fuel : nat) (sched : list nat) (l : list A) :
  List.length l = fuel -> Permutation (settle fuel sched l) l.
Proof.
  revert sched l. induction fuel as [|fuel IH]; intros sched l Hlen.
  - destruct l; [constructor|discriminate].
  - destruct l as [|x l]; [discriminate|].
    cbn [settle].
    set (i := Nat.modulo (hd 0 sched) (List.length (x :: l))).
    assert (Hi : i < List.length (x :: l))
      by (apply Nat.mod_upper_bound; discriminate).
    rewrite IH.
    + apply removeNth_Permutation. exact Hi.
    + pose proof (removeNth_length i (x :: l) Hi). lia.
Qed.

(** Every schedule settles each started promise once. *)
Lemma settleOrder_Permutation {A : Type} (sched : list nat) (l : list A) :
  Permutation (settleOrder sched l) l.
Proof. apply settle_Permutation. reflexivity. Qed.

Lemma QUERY_RECORD_TYPES_NoDup : NoDup QUERY_RECORD_TYPES.
Proof.
  unfold QUERY_RECORD_TYPES.
  repeat (constructor; [simpl; intuition discriminate|]). constructor.
Qed.

Lemma RESOLVERS_urls_NoDup : NoDup (JsObject.values RESOLVERS).
Proof.
  unfold RESOLVERS, JsObject.values. simpl.
  repeat (constructor; [simpl; intuition discriminate|]). constructor.
Qed.

Lemma get_None {V : Type} (o : JsObject.t V) k :
  ~ In k (JsObject.keys o) -> JsObject.get o k = None.
Proof.
  induction o as [|[k' v'] o IH]; simpl; intros Hk; [reflexivity|].
  destruct (String.eqb_spec k k') as [E|N].
  - exfalso. apply Hk. left. symmetry. exact E.
  - apply IH. intros Hin. apply Hk. right. exact Hin.
Qed.

Lemma fold_left_pointwise {A B : Type} (f g : A -> B -> A) (l : list B) (a : A) :
  (forall x y, f x y = g x y) -> fold_left f l a = fold_left g l a.
Proof.
  intros E. revert a. induction l as [|y l IH]; intros a; simpl; [reflexivity|].
  rewrite E. apply IH.
Qed.

Lemma prefix_append (a b : string) : String.prefix a (a ++ b) = true.
Proof.
  induction a as [|c a IH]; simpl; [destruct b; reflexivity|].
  destruct (Ascii.ascii_dec c c) as [_|N]; [exact IH|contradiction].
Qed.

(* ------------------------------------------------------------------ *)
(** ** dns.ts: the resolver transport, the aggregator, the checker *)

Section DnsFacts.

Variable encodeURIComponent : string -> string.
Variable fetch : string -> RequestInit -> FetchOutcome.

(** [queryDNS] on a supported record type, by what the request settles to. *)
Lemma queryDNS_supported domain ty resolver n :
  JsObject.get DNS_RECORD_TYPES ty = Some n ->
  n <> 0%Z ->
  queryDNS encodeURIComponent fetch domain ty resolver
  = match fetch (queryUrlOf encodeURIComponent domain n resolver) dnsJsonInit with
    | FetchRejected _ => None
    | FetchFulfilled r => if ok r then json r else None
    end.
Proof.
  intros Hget Hn. unfold queryDNS, queryDNS_try. rewrite Hget.
  destruct (Z.eqb_spec n 0) as [E|_]; [contradiction|].
  cbn [bind]. fold (queryUrlOf encodeURIComponent domain n resolver).
  fold dnsJsonInit.
  destruct (String.eqb resolver RESOLVERS_GOOGLE);
    destruct (fetch _ dnsJsonInit) as [reason|r]; cbn [bind catchNull];
    try reflexivity;
    destruct (ok r); cbn [negb]; try reflexivity;
    destruct (json r); reflexivity.
Qed.

Lemma queryDNS_transportFailure domain ty resolver n :
  JsObject.get DNS_RECORD_TYPES ty = Some n ->
  n <> 0%Z ->
  (queryDNS encodeURIComponent fetch domain ty resolver = None
   <-> transportFailure
         (fetch (queryUrlOf encodeURIComponent domain n resolver) dnsJsonInit)).
Proof.
  intros Hget Hn. rewrite (queryDNS_supported _ _ _ _ Hget Hn).
  destruct (fetch _ dnsJsonInit) as [reason|r]; simpl; [tauto|].
  destruct (ok r), (json r); split; intros H; try reflexivity; try discriminate;
    auto; destruct H; discriminate.
Qed.

Lemma queryDNS_unsupported domain ty resolver :
  JsObject.get DNS_RECORD_TYPES ty = None ->
  queryDNS encodeURIComponent fetch domain ty resolver = None.
Proof. intros Hget. unfold queryDNS, queryDNS_try. rewrite Hget. reflexivity. Qed.

Lemma queryAllRecords_eq domain sched :
  queryAllRecords encodeURIComponent fetch domain sched
  = map (fun ty =>
           (ty, {| recordType := ty;
                   primaryRecords :=
                     answerOrEmpty
                       (queryDNS encodeURIComponent fetch domain ty
                          RESOLVERS_CLOUDFLARE);
                   propagation := JsObject.empty |}))
      (settleOrder sched QUERY_RECORD_TYPES).
Proof.
  unfold queryAllRecords.
  apply (fold_set_fresh (fun ty : string => ty)
           (fun ty =>
              {| recordType := ty;
                 primaryRecords :=
                   answerOrEmpty
                     (queryDNS encodeURIComponent fetch domain ty
                        RESOLVERS_CLOUDFLARE);
                 propagation := JsObject.empty |})
           (settleOrder sched QUERY_RECORD_TYPES) JsObject.empty).
  - rewrite map_id.
    apply (Permutation_NoDup (Permutation_sym (settleOrder_Permutation sched _))).
    exact QUERY_RECORD_TYPES_NoDup.
  - intros a _ H. destruct H.
Qed.

Lemma checkPropagation_step_eq domain ty p entry :
  checkPropagation_step encodeURIComponent fetch domain ty p entry
  = JsObject.set p (snd entry)
      (outcomeOf (fst entry)
         (queryDNS encodeURIComponent fetch domain ty (snd entry))).
Proof.
  destruct entry as [name url]. unfold checkPropagation_step, outcomeOf. simpl.
  destruct (queryDNS encodeURIComponent fetch domain ty url); reflexivity.
Qed.

Lemma checkPropagation_eq domain ty sched :
  checkPropagation encodeURIComponent fetch domain ty sched
  = map (fun entry =>
           (snd entry,
            outcomeOf (fst entry)
              (queryDNS encodeURIComponent fetch domain ty (snd entry))))
      (settleOrder sched (JsObject.entries RESOLVERS)).
Proof.
  unfold checkPropagation.
  rewrite (fold_left_pointwise _ _ _ _ (checkPropagation_step_eq domain ty)).
  apply (fold_set_fresh snd
           (fun entry : string * string =>
              outcomeOf (fst entry)
                (queryDNS encodeURIComponent fetch domain ty (snd entry)))
           (settleOrder sched (JsObject.entries RESOLVERS)) JsObject.empty).
  - apply (Permutation_NoDup
             (Permutation_sym
                (Permutation_map snd (settleOrder_Permutation sched _)))).
    exact RESOLVERS_urls_NoDup.
  - intros a _ H. destruct H.
Qed.

Lemma checkPropagation_keys_eq domain ty sched :
  JsObject.keys (checkPropagation encodeURIComponent fetch domain ty sched)
  = map snd (settleOrder sched (JsObject.entries RESOLVERS)).
Proof.
  rewrite checkPropagation_eq. unfold JsObject.keys. rewrite map_map.
  reflexivity.
Qed.

Lemma checkPropagation_keys_Permutation domain ty sched :
  Permutation
    (JsObject.keys (checkPropagation encodeURIComponent fetch domain ty sched))
    (JsObject.values RESOLVERS).
Proof.
  rewrite checkPropagation_keys_eq.
  apply Permutation_map, settleOrder_Permutation.
Qed.

Lemma checkPropagation_get domain ty sched name url :
  In (name, url) RESOLVERS ->
  JsObject.get (checkPropagation encodeURIComponent fetch domain ty sched) url
  = Some (outcomeOf name (queryDNS encodeURIComponent fetch domain ty url)).
Proof.
  intros Hin. apply get_In_NoDup.
  - apply (Permutation_NoDup
             (Permutation_sym (checkPropagation_keys_Permutation domain ty sched))).
    exact RESOLVERS_urls_NoDup.
  - rewrite checkPropagation_eq.
    apply (in_map (fun entry =>
                     (snd entry,
                      outcomeOf (fst entry)
                        (queryDNS encodeURIComponent fetch domain ty (snd entry))))
             _ (name, url)).
    apply (Permutation_in _ (Permutation_sym (settleOrder_Permutation sched _))).
    exact Hin.
Qed.

End DnsFacts.

(** A resolver's answer to [queryDNS] depends on the network only through
    the requests sent to that resolver. *)
Lemma queryDNS_local encodeURIComponent fetch fetch' domain ty url :
  (forall u init, startsWith u url = true -> fetch' u init = fetch u init) ->
  queryDNS encodeURIComponent fetch' domain ty url
  = queryDNS encodeURIComponent fetch domain ty url.
Proof.
  intros Hsame. unfold queryDNS, queryDNS_try.
  destruct (JsObject.get DNS_RECORD_TYPES ty) as [n|]; [|reflexivity].
  destruct (Z.eqb n 0); [reflexivity|]. cbn [bind].
  destruct (String.eqb url RESOLVERS_GOOGLE);
    rewrite Hsame by (unfold startsWith; apply prefix_append); reflexivity.
Qed.

Lemma resolver_outcomeOf name response : resolver (outcomeOf name response) = name.
Proof. destruct response; reflexivity. Qed.

(** C2. Whatever the network does and in whatever order the queries
    settle, [queryAllRecords] returns one entry per supported record type
    and no other; the entry of a type holds the answer of the primary
    resolver and an empty propagation mapping, and its [primaryRecords] is
    empty when the query of that type failed. *)
Theorem queryAllRecords_one_entry_per_type
    (encodeURIComponent : string -> string)
    (fetch : string -> RequestInit -> FetchOutcome)
    (domain : string) (sched : list nat) :
  let results := queryAllRecords encodeURIComponent fetch domain sched in
  let primary ty := queryDNS encodeURIComponent fetch domain ty RESOLVERS_CLOUDFLARE in
  Permutation (JsObject.keys results) QUERY_RECORD_TYPES
  /\ NoDup (JsObject.keys results)
  /\ (forall ty, In ty QUERY_RECORD_TYPES ->
        exists q,
          JsObject.get results ty = Some q
          /\ recordType q = ty
          /\ propagation q = JsObject.empty
          /\ primaryRecords q = answerOrEmpty (primary ty)
          /\ (primary ty = None -> primaryRecords q = [])
          /\ exists n,
               JsObject.get DNS_RECORD_TYPES ty = Some n
               /\ (transportFailure
                     (fetch (queryUrlOf encodeURIComponent domain n
                               RESOLVERS_CLOUDFLARE) dnsJsonInit) ->
                   primaryRecords q = []))
  /\ (forall ty, ~ In ty QUERY_RECORD_TYPES -> JsObject.get results ty = None).
Proof.
  intros results primary.
  assert (Hkeys : JsObject.keys results = settleOrder sched QUERY_RECORD_TYPES).
  { subst results. rewrite queryAllRecords_eq. unfold JsObject.keys.
    rewrite map_map. cbn [fst]. apply map_id. }
  assert (Hperm : Permutation (JsObject.keys results) QUERY_RECORD_TYPES)
    by (rewrite Hkeys; apply settleOrder_Permutation).
  assert (Hnd : NoDup (JsObject.keys results))
    by (apply (Permutation_NoDup (Permutation_sym Hperm)), QUERY_RECORD_TYPES_NoDup).
  split; [exact Hperm|]. split; [exact Hnd|]. split.
  - intros ty Hty.
    eexists. split; [|split; [|split; [|split; [|split]]]].
    + apply (get_In_NoDup _ _ _ Hnd). subst results. rewrite queryAllRecords_eq.
      apply (in_map (fun ty0 => (ty0, _)) _ ty).
      apply (Permutation_in _ (Permutation_sym (settleOrder_Permutation sched _))).
      exact Hty.
    + reflexivity.
    + reflexivity.
    + reflexivity.
    + cbn [primaryRecords]. fold (primary ty). intros ->. reflexivity.
    + cbn [primaryRecords]. fold (primary ty).
      assert (Hn : exists n, JsObject.get DNS_RECORD_TYPES ty = Some n /\ n <> 0%Z).
      { unfold QUERY_RECORD_TYPES in Hty. simpl in Hty.
        repeat (destruct Hty as [<-|Hty];
                [eexists; split; [reflexivity|discriminate]|]).
        destruct Hty. }
      destruct Hn as [n [Hget Hn]]. exists n. split; [exact Hget|].
      intros Hfail. subst primary. cbv beta.
      rewrite (proj2 (queryDNS_transportFailure _ _ _ _ _ _ Hget Hn) Hfail).
      reflexivity.
  - intros ty Hty. apply get_None. intros Hin. apply Hty.
    apply (Permutation_in _ Hperm). exact Hin.
Qed.

(** On a network that rejects every request the MX entry is there, with no
    primary record. *)
Lemma queryAllRecords_one_entry_per_type_witness :
  exists q,
    JsObject.get (queryAllRecords plainName unreachable "example.com" [3; 1; 4]) "MX"
    = Some q
    /\ recordType q = "MX"
    /\ primaryRecords q = [].
Proof.
  destruct (proj1 (proj2 (proj2
              (queryAllRecords_one_entry_per_type plainName unreachable
                 "example.com" [3; 1; 4]))) "MX")
    as [q [Hget [Hty [_ [_ [Hnone _]]]]]].
  - simpl. tauto.
  - exists q. split; [exact Hget|]. split; [exact Hty|].
    apply Hnone. reflexivity.
Defined.

(** C3. In the result of [queryDNSWithPropagation] there is one entry per
    supported record type; an entry with no primary record has an empty
    propagation mapping, and an entry with primary records has the mapping
    that [checkPropagation] returned for its type. *)
Theorem propagation_only_with_primary_records
    (encodeURIComponent : string -> string)
    (fetch fetchLater : string -> RequestInit -> FetchOutcome)
    (domain : string) (sched : list nat) (schedOf : string -> list nat) :
  let results :=
    queryDNSWithPropagation encodeURIComponent fetch fetchLater domain sched schedOf in
  Permutation (JsObject.keys results) QUERY_RECORD_TYPES
  /\ (forall ty q,
        In (ty, q) results ->
        (primaryRecords q = [] -> propagation q = JsObject.empty)
        /\ (propagation q <> JsObject.empty -> primaryRecords q <> [])
        /\ (primaryRecords q <> [] ->
            propagation q
            = checkPropagation encodeURIComponent fetchLater domain ty (schedOf ty)
            /\ List.length (propagation q) = List.length RESOLVERS)).
Proof.
  intros results. subst results. unfold queryDNSWithPropagation.
  rewrite queryAllRecords_eq. unfold JsObject.entries, JsObject.keys.
  rewrite !map_map.
  split.
  - erewrite map_ext; [rewrite map_id; apply settleOrder_Permutation|].
    intros ty. simpl. destruct (Nat.ltb 0 _); reflexivity.
  - intros ty q Hin. apply in_map_iff in Hin. destruct Hin as [ty0 [E _]].
    cbn [primaryRecords] in E.
    destruct (answerOrEmpty
                (queryDNS encodeURIComponent fetch domain ty0 RESOLVERS_CLOUDFLARE))
      as [|r rs] eqn:Hans; cbn [List.length Nat.ltb Nat.leb] in E;
      inversion E; subst; clear E; cbn [primaryRecords propagation setPropagation].
    + split; [reflexivity|]. split; intros H; congruence.
    + split; [discriminate|]. split; [discriminate|].
      intros _. split; [reflexivity|].
      rewrite checkPropagation_eq, length_map.
      apply Permutation_length, settleOrder_Permutation.
Qed.

(** The primary resolver answers only the A query and the network is then
    down: the MX entry has an empty mapping, the A entry a mapping of three
    resolvers. *)
Lemma propagation_only_with_primary_records_witness :
  (exists q,
      In ("MX", q) examplePipelineRun
      /\ primaryRecords q = []
      /\ propagation q = JsObject.empty)
  /\ (exists q,
        In ("A", q) examplePipelineRun
        /\ primaryRecords q = [ aRecord "93.184.216.34" ]
        /\ List.length (propagation q) = List.length RESOLVERS).
Proof.
  pose proof (proj2 (propagation_only_with_primary_records plainName
                       onlyCloudflareA unreachable "example.com" [] (fun _ => [])))
    as H.
  split.
  - exists {| recordType := "MX"; primaryRecords := [];
              propagation := JsObject.empty |}.
    assert (Hin : In ("MX", {| recordType := "MX"; primaryRecords := [];
                               propagation := JsObject.empty |})
                    examplePipelineRun) by (vm_compute; tauto).
    split; [exact Hin|]. split; [reflexivity|].
    apply (H "MX" _ Hin). reflexivity.
  - exists {| recordType := "A"; primaryRecords := [ aRecord "93.184.216.34" ];
              propagation :=
                checkPropagation plainName unreachable "example.com" "A" [] |}.
    assert (Hin : In ("A", {| recordType := "A";
                              primaryRecords := [ aRecord "93.184.216.34" ];
                              propagation :=
                                checkPropagation plainName unreachable
                                  "example.com" "A" [] |})
                    examplePipelineRun) by (vm_compute; tauto).
    split; [exact Hin|]. split; [reflexivity|].
    apply (H "A" _ Hin). discriminate.
Defined.

(** C4. Whatever the network does and in whatever order the queries
    settle, [checkPropagation] returns one outcome per configured resolver.
    The outcome of a resolver is the failure-marked one, with the cause
    [Query failed], when its query failed, and that is what a transport
    failure on a supported record type gives; otherwise it holds the answer.
    It is the same on every network that treats the requests to that
    resolver alike, whatever happens to the other resolvers. *)
Theorem checkPropagation_outcomes
    (encodeURIComponent : string -> string)
    (fetch : string -> RequestInit -> FetchOutcome)
    (domain ty : string) (sched : list nat) :
  let p := checkPropagation encodeURIComponent fetch domain ty sched in
  Permutation (JsObject.keys p) (JsObject.values RESOLVERS)
  /\ List.length p = List.length RESOLVERS
  /\ (forall name url,
        In (name, url) RESOLVERS ->
        let response := queryDNS encodeURIComponent fetch domain ty url in
        JsObject.get p url = Some (outcomeOf name response)
        /\ (response = None -> JsObject.get p url = Some (failedOutcome name))
        /\ (forall r, response = Some r ->
              JsObject.get p url
              = Some {| resolver := name;
                        records := answerOrEmpty (Some r);
                        hasError := false;
                        error := None |})
        /\ (forall n,
              JsObject.get DNS_RECORD_TYPES ty = Some n -> n <> 0%Z ->
              transportFailure
                (fetch (queryUrlOf encodeURIComponent domain n url) dnsJsonInit) ->
              JsObject.get p url = Some (failedOutcome name))
        /\ (forall fetch' sched',
              (forall u init, startsWith u url = true -> fetch' u init = fetch u init) ->
              JsObject.get
                (checkPropagation encodeURIComponent fetch' domain ty sched') url
              = JsObject.get p url)).
Proof.
  intros p. subst p.
  split; [apply checkPropagation_keys_Permutation|]. split.
  - rewrite checkPropagation_eq, length_map.
    apply Permutation_length, settleOrder_Permutation.
  - intros name url Hin response. subst response.
    rewrite (checkPropagation_get _ _ _ _ _ _ _ Hin).
    split; [reflexivity|]. split; [|split; [|split]].
    + intros ->. reflexivity.
    + intros r ->. reflexivity.
    + intros n Hget Hn Hfail.
      rewrite (proj2 (queryDNS_transportFailure _ _ _ _ _ _ Hget Hn) Hfail).
      reflexivity.
    + intros fetch' sched' Hsame.
      rewrite (checkPropagation_get _ _ _ _ _ _ _ Hin).
      rewrite (queryDNS_local _ _ _ _ _ _ Hsame). reflexivity.
Qed.

(** With Google down and the other resolvers answering, Google's outcome is
    failure-marked and Quad9's is what it is on a network where every
    resolver answers alike. *)
Lemma checkPropagation_outcomes_witness :
  JsObject.get (checkPropagation plainName onlyGoogleDown "example.com" "A" [1; 1])
    RESOLVERS_GOOGLE
  = Some (failedOutcome "GOOGLE")
  /\ JsObject.get (checkPropagation plainName onlyGoogleDown "example.com" "A" [1; 1])
       RESOLVERS_QUAD9
     = Some {| resolver := "QUAD9";
               records := [ aRecord "93.184.216.34" ];
               hasError := false;
               error := None |}.
Proof.
  pose proof (proj2 (proj2 (checkPropagation_outcomes plainName onlyGoogleDown
                              "example.com" "A" [1; 1]))) as H.
  cbv zeta in H.
  split.
  - destruct (H "GOOGLE" RESOLVERS_GOOGLE) as [_ [_ [_ [Hfail _]]]];
      [simpl; tauto|].
    apply (Hfail 1%Z); [reflexivity | discriminate | exact I].
  - destruct (H "QUAD9" RESOLVERS_QUAD9) as [Hget _]; [simpl; tauto|].
    rewrite Hget. reflexivity.
Defined.

(** C5, as the code has it.  The keys of the mapping that
    [checkPropagation] returns are the endpoint URLs of the configured
    resolvers, one each; none of them is a resolver name; the name of a
    resolver is the [resolver] field of the outcome stored under its URL. *)
Theorem checkPropagation_keys_are_endpoint_urls
    (encodeURIComponent : string -> string)
    (fetch : string -> RequestInit -> FetchOutcome)
    (domain ty : string) (sched : list nat) :
  let p := checkPropagation encodeURIComponent fetch domain ty sched in
  Permutation (JsObject.keys p) (JsObject.values RESOLVERS)
  /\ Forall (fun k => ~ In k (JsObject.keys RESOLVERS)) (JsObject.keys p)
  /\ Forall (fun kv => In (resolver (snd kv), fst kv) RESOLVERS) p.
Proof.
  intros p. subst p.
  pose proof (checkPropagation_keys_Permutation encodeURIComponent fetch
                domain ty sched) as Hperm.
  split; [exact Hperm|]. split.
  - apply Forall_forall. intros k Hk.
    apply (Permutation_in _ Hperm) in Hk. simpl in Hk.
    destruct Hk as [<-|[<-|[<-|[]]]]; simpl; intuition discriminate.
  - rewrite checkPropagation_eq. apply Forall_forall. intros kv Hkv.
    apply in_map_iff in Hkv. destruct Hkv as [[name url] [<- Hin]].
    cbn [fst snd]. rewrite resolver_outcomeOf.
    apply (Permutation_in _ (settleOrder_Permutation sched _)). exact Hin.
Qed.

(** C5 as stated fails: on a network that rejects every request the keys of
    the mapping are the three endpoint URLs, and none is one of the names
    [CLOUDFLARE], [GOOGLE], [QUAD9]. *)
Lemma checkPropagation_keys_counterexample :
  JsObject.keys (checkPropagation plainName unreachable "example.com" "NS" [])
  = [ "https://cloudflare-dns.com/dns-query";
      "https://dns.google/resolve";
      "https://dns.quad9.net/dns-query" ]
  /\ JsObject.keys RESOLVERS = [ "CLOUDFLARE"; "GOOGLE"; "QUAD9" ]
  /\ forallb
       (fun k => negb (existsb (String.eqb k) (JsObject.keys RESOLVERS)))
       (JsObject.keys (checkPropagation plainName unreachable "example.com" "NS" []))
     = true.
Proof. repeat split; reflexivity. Qed.

(* ------------------------------------------------------------------ *)
(** ** Further properties of the rule engine *)

Lemma analyzeDNS_issuesOfType dns domain ty :
  issuesOfType ty (issues (analyzeDNS dns domain))
  = issuesOfType ty (checkNSMismatch dns)
    ++ issuesOfType ty (checkCNAMEAtApex dns)
    ++ issuesOfType ty (checkMissingAAAA dns)
    ++ issuesOfType ty (checkEmailSetup dns)
    ++ issuesOfType ty (checkSPFSyntax dns)
    ++ issuesOfType ty (checkTTL dns)
    ++ issuesOfType ty (checkDNSSEC dns domain).
Proof. unfold analyzeDNS; simpl issues. rewrite !issuesOfType_app. reflexivity. Qed.

Ltac drop_other_kinds :=
  repeat match goal with
         | |- context [issuesOfType ?ty ?l] =>
             let H := fresh in
             assert (H : issuesOfType ty l = []) by other_kind;
             rewrite H; clear H
         end;
  rewrite ?app_nil_r, ?app_nil_l.

Lemma analyzeDNS_missing_aaaa dns domain :
  issuesOfType "missing_aaaa" (issues (analyzeDNS dns domain)) = checkMissingAAAA dns.
Proof.
  rewrite analyzeDNS_issuesOfType.
  rewrite (issuesOfType_all _ _ (checkMissingAAAA_kind dns)).
  drop_other_kinds. reflexivity.
Qed.

Lemma analyzeDNS_cname_at_apex dns domain :
  issuesOfType "cname_at_apex" (issues (analyzeDNS dns domain)) = checkCNAMEAtApex dns.
Proof.
  rewrite analyzeDNS_issuesOfType.
  rewrite (issuesOfType_all _ _ (checkCNAMEAtApex_kind dns)).
  drop_other_kinds. reflexivity.
Qed.

Lemma analyzeDNS_ttl_kind dns domain ty :
  In ty kindsOf_checkTTL ->
  issuesOfType ty (issues (analyzeDNS dns domain)) = issuesOfType ty (checkTTL dns).
Proof.
  intros Hty. rewrite analyzeDNS_issuesOfType.
  simpl in Hty. destruct Hty as [<-|[<-|[]]]; drop_other_kinds; reflexivity.
Qed.

Lemma checkMissingAAAA_cases dns :
  checkMissingAAAA dns
  = match primaryOf dns "A", primaryOf dns "AAAA" with
    | a :: rest, [] =>
        [ {| issueType := "missing_aaaa";
             severity := Warning;
             message := "Domain has A records but no AAAA records - not IPv6 ready";
             details := Some (MissingAAAADetails (List.length (a :: rest)) 0) |} ]
    | _, _ => []
    end.
Proof.
  unfold checkMissingAAAA. rewrite hasPrimaryRecords_primaryOf.
  assert (HA : primaryOf dns "A"
               = match JsObject.get dns "A" with
                 | Some q => primaryRecords q
                 | None => []
                 end) by reflexivity.
  rewrite HA. clear HA.
  destruct (JsObject.get dns "A") as [a|]; [|reflexivity].
  destruct (primaryRecords a); [reflexivity|].
  destruct (primaryOf dns "AAAA"); reflexivity.
Qed.

(** X1. The report holds a [missing_aaaa] issue exactly when there are
    primary A records and no primary AAAA record (the AAAA entry may be
    absent); it is then one warning, which carries the number of A records. *)
Theorem missing_aaaa_rule (dns : AllDNSResults) (domain : string) :
  issuesOfType "missing_aaaa" (issues (analyzeDNS dns domain))
  = match primaryOf dns "A", primaryOf dns "AAAA" with
    | a :: rest, [] =>
        [ {| issueType := "missing_aaaa";
             severity := Warning;
             message := "Domain has A records but no AAAA records - not IPv6 ready";
             details := Some (MissingAAAADetails (List.length (a :: rest)) 0) |} ]
    | _, _ => []
    end.
Proof. rewrite analyzeDNS_missing_aaaa. apply checkMissingAAAA_cases. Qed.

Lemma toLowerCase_unit_fixes (c d : ascii) :
  (N_of_ascii d < 65)%N ->
  (toLowerCase_unit c = d <-> c = d).
Proof.
  intros Hd. unfold toLowerCase_unit.
  destruct ((65 <=? N_of_ascii c) && (N_of_ascii c <=? 90)
            || (192 <=? N_of_ascii c) && (N_of_ascii c <=? 222)
               && negb (N_of_ascii c =? 215))%N eqn:E; [|reflexivity].
  assert (Hc : (65 <= N_of_ascii c)%N).
  { apply orb_true_iff in E. destruct E as [E|E].
    - apply andb_true_iff in E. destruct E as [E _]. apply N.leb_le in E. exact E.
    - apply andb_true_iff in E. destruct E as [E _].
      apply andb_true_iff in E. destruct E as [E _]. apply N.leb_le in E. lia. }
  assert (Hlt : (N_of_ascii c < 256)%N) by apply N_ascii_bounded.
  split; intros H.
  - exfalso. apply (f_equal N_of_ascii) in H.
    rewrite N_ascii_embedding in H; [lia|].
    apply orb_true_iff in E. destruct E as [E|E].
    + apply andb_true_iff in E. destruct E as [_ E]. apply N.leb_le in E. lia.
    + apply andb_true_iff in E. destruct E as [E _].
      apply andb_true_iff in E. destruct E as [_ E]. apply N.leb_le in E. lia.
  - exfalso. subst d. lia.
Qed.

Lemma endsWith_unit_toLowerCase (s : string) (d : ascii) :
  (N_of_ascii d < 65)%N ->
  endsWith_unit (toLowerCase s) d = endsWith_unit s d.
Proof.
  intros Hd. induction s as [|c s IH]; [reflexivity|].
  destruct s as [|c' s'].
  - simpl. destruct (Ascii.eqb_spec (toLowerCase_unit c) d) as [E|N];
      destruct (Ascii.eqb_spec c d) as [E'|N']; try reflexivity.
    + apply (toLowerCase_unit_fixes c d Hd) in E. contradiction.
    + apply (toLowerCase_unit_fixes c d Hd) in E'. contradiction.
  - exact IH.
Qed.

Lemma toLowerCase_eq_at (s : string) :
  String.eqb (toLowerCase s) "@" = String.eqb s "@".
Proof.
  destruct s as [|c [|c' s']]; try reflexivity.
  - simpl.
    assert (H : toLowerCase_unit c = "@"%char <-> c = "@"%char)
      by (apply toLowerCase_unit_fixes; vm_compute; reflexivity).
    destruct (Ascii.eqb_spec (toLowerCase_unit c) "@") as [E|N];
      destruct (Ascii.eqb_spec c "@") as [E'|N']; try reflexivity.
    + apply H in E. contradiction.
    + apply H in E'. contradiction.
  - simpl. destruct (Ascii.eqb _ _), (Ascii.eqb _ _); reflexivity.
Qed.

Lemma existsb_pointwise {A : Type} (f g : A -> bool) (l : list A) :
  (forall x, f x = g x) -> existsb f l = existsb g l.
Proof.
  intros E. induction l as [|x l IH]; simpl; [reflexivity|].
  rewrite E, IH. reflexivity.
Qed.

Lemma checkCNAMEAtApex_cases dns :
  checkCNAMEAtApex dns
  = if existsb apexShaped (primaryOf dns "CNAME")
       && (match primaryOf dns "A" with [] => false | _ :: _ => true end
           || match primaryOf dns "AAAA" with [] => false | _ :: _ => true end)
    then [ {| issueType := "cname_at_apex";
              severity := Error;
              message := "CNAME record found at apex (root domain) - RFC violation";
              details := Some (CNAMEAtApexDetails (primaryOf dns "CNAME")) |} ]
    else [].
Proof.
  unfold checkCNAMEAtApex. rewrite !hasPrimaryRecords_primaryOf.
  assert (HC : primaryOf dns "CNAME"
               = match JsObject.get dns "CNAME" with
                 | Some q => primaryRecords q
                 | None => []
                 end) by reflexivity.
  rewrite HC. clear HC.
  destruct (JsObject.get dns "CNAME") as [c|]; [|reflexivity].
  destruct (primaryRecords c) as [|r rs] eqn:E; [reflexivity|].
  cbn [List.length Nat.eqb].
  assert (Hex : existsb
                  (fun record =>
                     let name := toLowerCase (name record) in
                     endsWith_unit name "."%char || String.eqb name "@")
                  (r :: rs)
                = existsb apexShaped (r :: rs)).
  { apply existsb_pointwise. intros x. unfold apexShaped. cbv zeta.
    rewrite endsWith_unit_toLowerCase by (vm_compute; reflexivity).
    rewrite toLowerCase_eq_at. reflexivity. }
  cbv zeta in Hex. rewrite Hex. reflexivity.
Qed.

(** X3. The report holds a [cname_at_apex] issue exactly when some primary
    CNAME record has an owner name that ends in a dot or is the at sign (the
    lower-casing of the name plays no part) and there is a primary A or AAAA
    record; it is then one error, which carries all the primary CNAME
    records. *)
Theorem cname_at_apex_rule (dns : AllDNSResults) (domain : string) :
  issuesOfType "cname_at_apex" (issues (analyzeDNS dns domain))
  = if existsb apexShaped (primaryOf dns "CNAME")
       && (match primaryOf dns "A" with [] => false | _ :: _ => true end
           || match primaryOf dns "AAAA" with [] => false | _ :: _ => true end)
    then [ {| issueType := "cname_at_apex";
              severity := Error;
              message := "CNAME record found at apex (root domain) - RFC violation";
              details := Some (CNAMEAtApexDetails (primaryOf dns "CNAME")) |} ]
    else [].
Proof. rewrite analyzeDNS_cname_at_apex. apply checkCNAMEAtApex_cases. Qed.

(** *** TTL bounds *)

Lemma ttlIssues_cases ty r :
  ttlIssues ty r
  = if ttlTooLow r then [ttlTooLowIssue ty r]
    else if ttlTooHigh r then [ttlTooHighIssue ty r]
    else [].
Proof. reflexivity. Qed.

Lemma ttlTooLow_not_high r : ttlTooLow r = true -> ttlTooHigh r = false.
Proof.
  unfold ttlTooLow, ttlTooHigh. intros H. apply Z.ltb_lt in H.
  apply Z.ltb_ge. lia.
Qed.

Lemma issuesOfType_flat_map {A : Type} ty (f : A -> list DiagnosticIssue) (l : list A) :
  issuesOfType ty (flat_map f l) = flat_map (fun a => issuesOfType ty (f a)) l.
Proof.
  induction l as [|a l IH]; simpl; [reflexivity|].
  rewrite issuesOfType_app, IH. reflexivity.
Qed.

Lemma flat_map_singleton_filter {A B : Type} (p : A -> bool) (g : A -> B) (l : list A) :
  flat_map (fun a => if p a then [g a] else []) l = map g (filter p l).
Proof.
  induction l as [|a l IH]; simpl; [reflexivity|].
  destruct (p a); simpl; rewrite IH; reflexivity.
Qed.

Lemma flat_map_pointwise {A B : Type} (f g : A -> list B) (l : list A) :
  (forall a, f a = g a) -> flat_map f l = flat_map g l.
Proof.
  intros E. induction l as [|a l IH]; simpl; [reflexivity|].
  rewrite E, IH. reflexivity.
Qed.

Lemma checkTTL_low dns :
  issuesOfType "ttl_too_low" (checkTTL dns)
  = flat_map (fun entry =>
                map (ttlTooLowIssue (fst entry))
                  (filter ttlTooLow (primaryRecords (snd entry)))) dns.
Proof.
  unfold checkTTL, JsObject.entries. rewrite issuesOfType_flat_map.
  apply flat_map_pointwise. intros [ty q]. cbn [fst snd].
  rewrite issuesOfType_flat_map, <- flat_map_singleton_filter.
  apply flat_map_pointwise. intros r. rewrite ttlIssues_cases.
  destruct (ttlTooLow r); [reflexivity|].
  destruct (ttlTooHigh r); reflexivity.
Qed.

Lemma checkTTL_high dns :
  issuesOfType "ttl_too_high" (checkTTL dns)
  = flat_map (fun entry =>
                map (ttlTooHighIssue (fst entry))
                  (filter ttlTooHigh (primaryRecords (snd entry)))) dns.
Proof.
  unfold checkTTL, JsObject.entries. rewrite issuesOfType_flat_map.
  apply flat_map_pointwise. intros [ty q]. cbn [fst snd].
  rewrite issuesOfType_flat_map, <- flat_map_singleton_filter.
  apply flat_map_pointwise. intros r. rewrite ttlIssues_cases.
  destruct (ttlTooLow r) eqn:L.
  - rewrite (ttlTooLow_not_high r L). reflexivity.
  - destruct (ttlTooHigh r); reflexivity.
Qed.

Lemma length_flat_map_map_filter {A B : Type} (p : A -> bool)
    (g : string -> A -> B) (sel : DNSQueryResult -> list A) (dns : AllDNSResults) :
  List.length
    (flat_map (fun entry => map (g (fst entry)) (filter p (sel (snd entry)))) dns)
  = List.length (filter p (flat_map (fun entry => sel (snd entry)) dns)).
Proof.
  induction dns as [|e dns IH]; simpl; [reflexivity|].
  rewrite filter_app, !length_app, length_map, IH. reflexivity.
Qed.

(** X2. The [ttl_too_low] issues of the report are one warning for every
    primary record with a TTL below 300, the [ttl_too_high] issues one info
    for every primary record with a TTL above 86400, each in entry and
    record order and carrying the record type and the TTL; a record with a
    TTL from 300 to 86400, bounds included, gets neither. *)
Theorem ttl_rule (dns : AllDNSResults) (domain : string) :
  let found ty := issuesOfType ty (issues (analyzeDNS dns domain)) in
  found "ttl_too_low"
  = flat_map (fun entry =>
                map (ttlTooLowIssue (fst entry))
                  (filter ttlTooLow (primaryRecords (snd entry)))) dns
  /\ found "ttl_too_high"
     = flat_map (fun entry =>
                   map (ttlTooHighIssue (fst entry))
                     (filter ttlTooHigh (primaryRecords (snd entry)))) dns
  /\ List.length (found "ttl_too_low")
     = List.length (filter ttlTooLow (allPrimaryRecords dns))
  /\ List.length (found "ttl_too_high")
     = List.length (filter ttlTooHigh (allPrimaryRecords dns))
  /\ (forall r, ttlTooLow r = false /\ ttlTooHigh r = false
                <-> (300 <= TTL r <= 86400)%Z).
Proof.
  intros found. subst found. cbv beta.
  rewrite !analyzeDNS_ttl_kind by (simpl; auto).
  rewrite checkTTL_low, checkTTL_high.
  split; [reflexivity|]. split; [reflexivity|].
  split; [apply length_flat_map_map_filter|].
  split; [apply length_flat_map_map_filter|].
  intros r. unfold ttlTooLow, ttlTooHigh. rewrite !Z.ltb_ge. lia.
Qed.

(** *** Silent rules *)

Lemma checkNSMismatch_no_divergence dns :
  (forall ns, JsObject.get dns "NS" = Some ns -> ~ divergentResolver ns) ->
  checkNSMismatch dns = [].
Proof.
  intros H. destruct (JsObject.get dns "NS") as [ns|] eqn:Hget.
  - destruct (primaryRecords ns) as [|r rs] eqn:Hp.
    + apply checkNSMismatch_empty_primary. unfold primaryOf. rewrite Hget. exact Hp.
    + rewrite (checkNSMismatch_cases dns ns Hget) by congruence.
      destruct (existsb _ _) eqn:E; [|reflexivity].
      exfalso. apply (H ns eq_refl). apply divergent_existsb. exact E.
  - unfold checkNSMismatch. rewrite Hget. reflexivity.
Qed.

Lemma checkTTL_in_bounds dns :
  Forall (fun r => (300 <= TTL r <= 86400)%Z) (allPrimaryRecords dns) ->
  checkTTL dns = [].
Proof.
  unfold checkTTL, allPrimaryRecords, JsObject.entries.
  induction dns as [|[ty q] dns IH]; simpl; intros Hall; [reflexivity|].
  apply Forall_app in Hall. destruct Hall as [Hq Hrest].
  rewrite (IH Hrest), app_nil_r. clear IH Hrest.
  induction Hq as [|r rs Hr _ IH]; simpl; [reflexivity|].
  rewrite IH, app_nil_r, ttlIssues_cases.
  unfold ttlTooLow, ttlTooHigh.
  destruct (Z.ltb_spec (TTL r) 300); [lia|].
  destruct (Z.ltb_spec 86400 (TTL r)); [lia|]. reflexivity.
Qed.

Lemma someTagged_existsb tag txt :
  someTagged tag txt
  <-> existsb (fun r => startsWith (toLowerCase (data r)) tag) txt = true.
Proof. unfold someTagged. rewrite existsb_exists. reflexivity. Qed.

Lemma filter_offendingSPF_nil (txt : list DNSRecord) :
  (forall r, In r txt -> isSPFRecord r = true -> validateSPF (data r) = true) ->
  filter offendingSPF txt = [].
Proof.
  induction txt as [|r rs IH]; intros Hvalid; [reflexivity|].
  simpl. unfold offendingSPF at 1.
  destruct (isSPFRecord r) eqn:Hsel.
  - rewrite (Hvalid r (or_introl eq_refl) Hsel). simpl.
    apply IH. intros r' Hin. apply Hvalid. right. exact Hin.
  - simpl. apply IH. intros r' Hin. apply Hvalid. right. exact Hin.
Qed.

(** X4. On a result set where no resolver that is not failure-marked
    diverges on NS, no CNAME owner name is apex-shaped, AAAA records
    accompany the A records, MX records exist with an SPF and a DMARC TXT
    record, every selected SPF record validates and every TTL lies from 300
    to 86400, the report is the DNSSEC note alone: no error, no warning, one
    info. *)
Theorem clean_report (dns : AllDNSResults) (domain : string) :
  (forall ns, JsObject.get dns "NS" = Some ns -> ~ divergentResolver ns) ->
  existsb apexShaped (primaryOf dns "CNAME") = false ->
  (primaryOf dns "A" <> [] -> primaryOf dns "AAAA" <> []) ->
  primaryOf dns "MX" <> [] ->
  someTagged "v=spf1" (primaryOf dns "TXT") ->
  someTagged "v=dmarc1" (primaryOf dns "TXT") ->
  (forall r, In r (primaryOf dns "TXT") -> isSPFRecord r = true ->
             validateSPF (data r) = true) ->
  Forall (fun r => (300 <= TTL r <= 86400)%Z) (allPrimaryRecords dns) ->
  analyzeDNS dns domain
  = {| issues := [dnssecIssue];
       summary := {| errors := 0; warnings := 0; info := 1 |} |}.
Proof.
  intros Hns Hcname Haaaa Hmx Hspf Hdmarc Hvalid Httl.
  unfold analyzeDNS.
  rewrite (checkNSMismatch_no_divergence dns Hns).
  rewrite checkCNAMEAtApex_cases, Hcname.
  rewrite checkMissingAAAA_cases.
  pose proof (checkEmailSetup_cases dns) as Hemail. cbv zeta in Hemail.
  rewrite Hemail. clear Hemail.
  apply someTagged_existsb in Hspf. apply someTagged_existsb in Hdmarc.
  rewrite Hspf, Hdmarc.
  rewrite checkSPFSyntax_eq, (checkTTL_in_bounds dns Httl).
  assert (Hoff : filter offendingSPF (primaryOf dns "TXT") = [])
    by (apply filter_offendingSPF_nil, Hvalid).
  rewrite Hoff.
  destruct (primaryOf dns "MX") as [|m ms]; [congruence|].
  destruct (primaryOf dns "A") as [|a rest].
  - reflexivity.
  - destruct (primaryOf dns "AAAA"); [exfalso; apply Haaaa; congruence|].
    reflexivity.
Qed.

(** The healthy result set: one resolver repeats the primary name servers
    in another order and case, the other failed. *)
Lemma clean_report_witness :
  analyzeDNS healthyExample "example.com"
  = {| issues := [dnssecIssue];
       summary := {| errors := 0; warnings := 0; info := 1 |} |}.
Proof.
  apply clean_report.
  - intros ns Hget Hdiv. apply divergent_existsb in Hdiv.
    vm_compute in Hget. inversion Hget; subst ns. vm_compute in Hdiv.
    discriminate Hdiv.
  - reflexivity.
  - intros _. vm_compute. discriminate.
  - vm_compute. discriminate.
  - exists (txtRecord "v=spf1 include:_spf.example.com -all").
    split; [vm_compute; tauto | reflexivity].
  - exists (txtRecord "v=DMARC1; p=none").
    split; [vm_compute; tauto | reflexivity].
  - intros r Hin Hsel. vm_compute in Hin.
    destruct Hin as [<-|[<-|[]]]; [reflexivity | discriminate Hsel].
  - unfold healthyExample, allPrimaryRecords. simpl.
    repeat (constructor; [simpl; lia|]). constructor.
Defined.

(** *** No primary record at all *)

Lemma primaryOf_no_records (dns : AllDNSResults) :
  Forall (fun entry => primaryRecords (snd entry) = []) dns ->
  forall k, primaryOf dns k = [].
Proof.
  intros Hall k. unfold primaryOf.
  induction Hall as [|[k' q] dns Hq _ IH]; simpl; [reflexivity|].
  destruct (String.eqb k k'); [exact Hq|exact IH].
Qed.

Lemma allPrimaryRecords_no_records (dns : AllDNSResults) :
  Forall (fun entry => primaryRecords (snd entry) = []) dns ->
  allPrimaryRecords dns = [].
Proof.
  unfold allPrimaryRecords.
  induction 1 as [|e dns He _ IH]; simpl; [reflexivity|].
  rewrite He, IH. reflexivity.
Qed.

Lemma analyzeDNS_no_records (dns : AllDNSResults) (domain : string) :
  Forall (fun entry => primaryRecords (snd entry) = []) dns ->
  analyzeDNS dns domain
  = {| issues := [missingEmailSetupIssue; dnssecIssue];
       summary := {| errors := 0; warnings := 0; info := 2 |} |}.
Proof.
  intros Hall.
  pose proof (primaryOf_no_records dns Hall) as Hp.
  unfold analyzeDNS.
  rewrite (checkNSMismatch_empty_primary dns (Hp "NS")).
  rewrite checkCNAMEAtApex_cases, checkMissingAAAA_cases, checkSPFSyntax_eq.
  pose proof (checkEmailSetup_cases dns) as Hemail. cbv zeta in Hemail.
  rewrite Hemail. clear Hemail.
  rewrite checkTTL_in_bounds
    by (rewrite (allPrimaryRecords_no_records dns Hall); constructor).
  rewrite !Hp. reflexivity.
Qed.

Lemma queryDNS_all_fail encodeURIComponent fetch :
  (forall url init, transportFailure (fetch url init)) ->
  forall domain ty resolver,
    queryDNS encodeURIComponent fetch domain ty resolver = None.
Proof.
  intros Hfail domain ty resolver.
  destruct (JsObject.get DNS_RECORD_TYPES ty) as [n|] eqn:Hget.
  - destruct (Z.eq_dec n 0) as [->|Hn].
    + unfold queryDNS, queryDNS_try. rewrite Hget. reflexivity.
    + apply (queryDNS_transportFailure _ _ _ _ _ _ Hget Hn), Hfail.
  - apply queryDNS_unsupported, Hget.
Qed.

(** X5. When no request of the first phase brings back a DNS answer,
    whatever the second phase would bring and in whatever order the queries
    settle, the report on the result of [queryDNSWithPropagation] is the
    [missing_email_setup] info followed by the DNSSEC note: no error, no
    warning, two infos. *)
Theorem total_outage_report
    (encodeURIComponent : string -> string)
    (fetch fetchLater : string -> RequestInit -> FetchOutcome)
    (domain : string) (sched : list nat) (schedOf : string -> list nat) :
  (forall url init, transportFailure (fetch url init)) ->
  analyzeDNS
    (queryDNSWithPropagation encodeURIComponent fetch fetchLater domain sched schedOf)
    domain
  = {| issues := [missingEmailSetupIssue; dnssecIssue];
       summary := {| errors := 0; warnings := 0; info := 2 |} |}.
Proof.
  intros Hfail. apply analyzeDNS_no_records.
  unfold queryDNSWithPropagation. rewrite queryAllRecords_eq.
  unfold JsObject.entries. rewrite map_map.
  apply Forall_forall. intros entry Hin.
  apply in_map_iff in Hin. destruct Hin as [ty [<- _]].
  cbn [primaryRecords].
  rewrite (queryDNS_all_fail _ _ Hfail). reflexivity.
Qed.

(** On a network that rejects every request. *)
Lemma total_outage_report_witness :
  analyzeDNS
    (queryDNSWithPropagation plainName unreachable unreachable "example.com"
       [5; 2] (fun _ => [1]))
    "example.com"
  = {| issues := [missingEmailSetupIssue; dnssecIssue];
       summary := {| errors := 0; warnings := 0; info := 2 |} |}.
Proof.
  apply total_outage_report. intros url init. exact I.
Defined.

(* ------------------------------------------------------------------ *)
(** ** Further properties of the resolver transport and the pipeline *)



Lemma queryDNSWithPropagation_eq encodeURIComponent fetch fetchLater
    domain sched schedOf :
  queryDNSWithPropagation encodeURIComponent fetch fetchLater domain sched schedOf
  = map (fun ty =>
           (ty, pipelineEntry encodeURIComponent fetch fetchLater domain ty
                  (schedOf ty)))
      (settleOrder sched QUERY_RECORD_TYPES).
Proof.
  unfold queryDNSWithPropagation. rewrite queryAllRecords_eq.
  unfold JsObject.entries. rewrite map_map. apply map_ext. intros ty.
  unfold pipelineEntry, setPropagation. cbn [primaryRecords recordType].
  destruct (answerOrEmpty _); reflexivity.
Qed.

Lemma get_map_keyed {V : Type} (g : string -> V) (l : list string) (k : string) :
  JsObject.get (map (fun ty => (ty, g ty)) l) k
  = if existsb (String.eqb k) l then Some (g k) else None.
Proof.
  induction l as [|ty l IH]; simpl; [reflexivity|].
  destruct (String.eqb_spec k ty) as [->|N]; [reflexivity|exact IH].
Qed.

Lemma existsb_Permutation {A : Type} (f : A -> bool) (l l' : list A) :
  Permutation l l' -> existsb f l = existsb f l'.
Proof.
  induction 1 as [|x l l' _ IH|x y l|l l' l'' _ IH1 _ IH2]; simpl.
  - reflexivity.
  - rewrite IH. reflexivity.
  - destruct (f x), (f y); reflexivity.
  - congruence.
Qed.

Lemma filter_Permutation {A : Type} (f : A -> bool) (l l' : list A) :
  Permutation l l' -> Permutation (filter f l) (filter f l').
Proof.
  induction 1 as [|x l l' _ IH|x y l|l l' l'' _ IH1 _ IH2]; simpl.
  - constructor.
  - destruct (f x); [constructor|]; exact IH.
  - destruct (f x), (f y); try reflexivity. apply perm_swap.
  - eapply perm_trans; eassumption.
Qed.

Lemma checkPropagation_Permutation encodeURIComponent fetch domain ty sched sched' :
  Permutation (checkPropagation encodeURIComponent fetch domain ty sched)
    (checkPropagation encodeURIComponent fetch domain ty sched').
Proof.
  rewrite !checkPropagation_eq. apply Permutation_map.
  eapply perm_trans; [apply settleOrder_Permutation|].
  apply Permutation_sym, settleOrder_Permutation.
Qed.

Lemma checkPropagation_get_any encodeURIComponent fetch domain ty sched sched' url :
  JsObject.get (checkPropagation encodeURIComponent fetch domain ty sched) url
  = JsObject.get (checkPropagation encodeURIComponent fetch domain ty sched') url.
Proof.
  destruct (in_dec string_dec url (JsObject.values RESOLVERS)) as [Hin|Hout].
  - unfold JsObject.values in Hin. apply in_map_iff in Hin.
    destruct Hin as [[name url'] [E Hin]]. simpl in E. subst url'.
    rewrite !(checkPropagation_get _ _ _ _ _ name url Hin). reflexivity.
  - rewrite !get_None; [reflexivity| |];
      intros Hin; apply Hout;
      apply (Permutation_in _ (checkPropagation_keys_Permutation _ _ _ _ _) Hin).
Qed.

(** X7. Read as a mapping, the result of [queryDNSWithPropagation] does
    not depend on the order in which the queries settle: two runs against
    the same network have the same record types, and under each type the
    same primary records and the same outcome for every resolver key; only
    the order of the entries and of the resolver keys may differ. *)
Theorem pipeline_schedule_independent
    (encodeURIComponent : string -> string)
    (fetch fetchLater : string -> RequestInit -> FetchOutcome)
    (domain : string) (sched sched' : list nat)
    (schedOf schedOf' : string -> list nat) :
  let run := queryDNSWithPropagation encodeURIComponent fetch fetchLater domain in
  Permutation (JsObject.keys (run sched schedOf)) (JsObject.keys (run sched' schedOf'))
  /\ forall ty,
       match JsObject.get (run sched schedOf) ty,
             JsObject.get (run sched' schedOf') ty with
       | Some q, Some q' =>
           recordType q = recordType q'
           /\ primaryRecords q = primaryRecords q'
           /\ Permutation (propagation q) (propagation q')
           /\ forall url,
                JsObject.get (propagation q) url = JsObject.get (propagation q') url
       | None, None => True
       | _, _ => False
       end.
Proof.
  intros run. subst run. cbv beta.
  rewrite !queryDNSWithPropagation_eq.
  assert (Hord : Permutation (settleOrder sched QUERY_RECORD_TYPES)
                   (settleOrder sched' QUERY_RECORD_TYPES)).
  { eapply perm_trans; [apply settleOrder_Permutation|].
    apply Permutation_sym, settleOrder_Permutation. }
  split.
  - unfold JsObject.keys. rewrite !map_map. cbn [fst]. rewrite !map_id. exact Hord.
  - intros ty. rewrite !get_map_keyed.
    rewrite (existsb_Permutation _ _ _ Hord).
    destruct (existsb _ _); [|exact I].
    unfold pipelineEntry. cbn [recordType primaryRecords propagation].
    split; [reflexivity|]. split; [reflexivity|].
    destruct (answerOrEmpty _).
    + split; [constructor|reflexivity].
    + split; [apply checkPropagation_Permutation|].
      intros url. apply checkPropagation_get_any.
Qed.

Lemma checkNSMismatch_headline dns :
  map headline (checkNSMismatch dns)
  = match JsObject.get dns "NS" with
    | Some ns =>
        match primaryRecords ns with
        | [] => []
        | _ :: _ =>
            if existsb (fun kv => nsSetsDiffer (nsSetOf (records (snd kv)))
                                    (nsSetOf (primaryRecords ns)))
                 (filter notFailed (propagation ns))
            then [ ("ns_mismatch", Error, "NS records differ across DNS resolvers") ]
            else []
        end
    | None => []
    end.
Proof.
  destruct (JsObject.get dns "NS") as [ns|] eqn:Hget.
  - destruct (primaryRecords ns) as [|r rs] eqn:Hp.
    + rewrite checkNSMismatch_empty_primary; [reflexivity|].
      unfold primaryOf. rewrite Hget. exact Hp.
    + rewrite (checkNSMismatch_cases dns ns Hget) by congruence.
      rewrite Hp. destruct (existsb _ _); reflexivity.
  - unfold checkNSMismatch. rewrite Hget. reflexivity.
Qed.

Lemma flat_map_map_keyed {V B : Type} (g : string -> V) (f : string * V -> list B)
    (l : list string) :
  flat_map f (map (fun ty => (ty, g ty)) l) = flat_map (fun ty => f (ty, g ty)) l.
Proof.
  induction l as [|ty l IH]; simpl; [reflexivity|]. rewrite IH. reflexivity.
Qed.

Lemma summary_headlines dns dns' domain domain' :
  Permutation (map headline (issues (analyzeDNS dns domain)))
    (map headline (issues (analyzeDNS dns' domain'))) ->
  summary (analyzeDNS dns domain) = summary (analyzeDNS dns' domain').
Proof.
  intros Hperm.
  assert (Hsev : Permutation (map severity (issues (analyzeDNS dns domain)))
                   (map severity (issues (analyzeDNS dns' domain')))).
  { assert (E : forall l, map severity l
                          = map (fun h : string * Severity * string => snd (fst h))
                              (map headline l))
      by (intros l; rewrite map_map; reflexivity).
    rewrite !E. apply Permutation_map, Hperm. }
  unfold analyzeDNS in *. cbn [summary issues] in *.
  rewrite !countSeverity_count_occ.
  pose proof (proj1 (Permutation_count_occ Severity_eq_dec _ _) Hsev) as Hc.
  rewrite !Hc. reflexivity.
Qed.

(** X8. Two runs of the pipeline against the same network, with the
    queries settling in different orders, get reports with the same issues
    up to order when details are left aside (kind, severity and message),
    and so the same summary. *)
Theorem report_schedule_independent
    (encodeURIComponent : string -> string)
    (fetch fetchLater : string -> RequestInit -> FetchOutcome)
    (domain : string) (sched sched' : list nat)
    (schedOf schedOf' : string -> list nat) :
  let run := queryDNSWithPropagation encodeURIComponent fetch fetchLater domain in
  Permutation
    (map headline (issues (analyzeDNS (run sched schedOf) domain)))
    (map headline (issues (analyzeDNS (run sched' schedOf') domain)))
  /\ summary (analyzeDNS (run sched schedOf) domain)
     = summary (analyzeDNS (run sched' schedOf') domain).
Proof.
  intros run.
  assert (Hperm :
    Permutation
      (map headline (issues (analyzeDNS (run sched schedOf) domain)))
      (map headline (issues (analyzeDNS (run sched' schedOf') domain)))).
  2: { split; [exact Hperm|apply summary_headlines, Hperm]. }
  subst run. cbv beta. rewrite !queryDNSWithPropagation_eq.
  set (E := fun ty => pipelineEntry encodeURIComponent fetch fetchLater domain ty
                        (schedOf ty)).
  set (E' := fun ty => pipelineEntry encodeURIComponent fetch fetchLater domain ty
                         (schedOf' ty)).
  set (order := settleOrder sched QUERY_RECORD_TYPES).
  set (order' := settleOrder sched' QUERY_RECORD_TYPES).
  assert (Hord : Permutation order order').
  { eapply perm_trans; [apply settleOrder_Permutation|].
    apply Permutation_sym, settleOrder_Permutation. }
  set (R := map (fun ty => (ty, E ty)) order).
  set (R' := map (fun ty => (ty, E' ty)) order').
  change (Permutation (map headline (issues (analyzeDNS R domain)))
            (map headline (issues (analyzeDNS R' domain)))).
  assert (Hprim : forall k, primaryOf R k = primaryOf R' k).
  { intros k. unfold primaryOf, R, R'. rewrite !get_map_keyed.
    rewrite (existsb_Permutation _ _ _ Hord).
    destruct (existsb _ order'); reflexivity. }
  assert (Hns : map headline (checkNSMismatch R) = map headline (checkNSMismatch R')).
  { rewrite !checkNSMismatch_headline. unfold R, R'. rewrite !get_map_keyed.
    rewrite (existsb_Permutation _ _ _ Hord).
    destruct (existsb _ order'); [|reflexivity].
    unfold E, E', pipelineEntry. cbn [primaryRecords propagation].
    destruct (answerOrEmpty _) as [|r rs]; [reflexivity|].
    rewrite (existsb_Permutation _ _ _
               (filter_Permutation notFailed _ _
                  (checkPropagation_Permutation encodeURIComponent fetchLater
                     domain "NS" (schedOf "NS") (schedOf' "NS")))).
    reflexivity. }
  assert (Httl : Permutation (checkTTL R) (checkTTL R')).
  { unfold checkTTL, JsObject.entries, R, R'. rewrite !flat_map_map_keyed.
    unfold E, E', pipelineEntry. cbn [primaryRecords].
    apply Permutation_flat_map, Hord. }
  unfold analyzeDNS. cbn [issues]. rewrite !map_app, Hns.
  rewrite !checkCNAMEAtApex_cases, !checkMissingAAAA_cases, !checkSPFSyntax_eq.
  pose proof (checkEmailSetup_cases R) as HeR. cbv zeta in HeR.
  pose proof (checkEmailSetup_cases R') as HeR'. cbv zeta in HeR'.
  rewrite HeR, HeR', !Hprim.
  repeat (apply Permutation_app; [reflexivity|]).
  apply Permutation_app; [|reflexivity].
  apply Permutation_map, Httl.
Qed.

(* ------------------------------------------------------------------ *)
(** ** What [validateSPF] examines *)

Lemma foldCase_app (a b : string) : foldCase (a ++ b) = (foldCase a ++ foldCase b)%string.
Proof. induction a as [|c a IH]; simpl; [reflexivity|]. rewrite IH. reflexivity. Qed.

Lemma prefix_inv (a s : string) :
  String.prefix a s = true -> exists rest, s = (a ++ rest)%string.
Proof.
  revert s. induction a as [|c a IH]; intros s H.
  - exists s. reflexivity.
  - destruct s as [|d s]; simpl in H; [discriminate|].
    destruct (Ascii.ascii_dec c d) as [->|N]; [|discriminate].
    destruct (IH s H) as [rest ->]. exists rest. reflexivity.
Qed.

Lemma foldCase_app_inv (p a b : string) :
  foldCase p = (a ++ b)%string ->
  exists x y, p = (x ++ y)%string /\ foldCase x = a /\ foldCase y = b.
Proof.
  revert p. induction a as [|c a IH]; intros p H.
  - exists ""%string, p. auto.
  - destruct p as [|d p]; simpl in H; [discriminate|].
    inversion H as [[Hc Hrest]].
    destruct (IH p Hrest) as [x [y [-> [Hx Hy]]]].
    exists (String d x), y. simpl. rewrite Hx. auto.
Qed.

Lemma matchesMechanismName_iff (s : string) :
  matchesMechanismName s = true
  <-> exists x rest, s = (x ++ rest)%string /\ In (foldCase x) mechanismNames.
Proof.
  unfold matchesMechanismName. rewrite existsb_exists. split.
  - intros [m [Hm Hpre]]. apply prefix_inv in Hpre. destruct Hpre as [rest' E].
    apply foldCase_app_inv in E. destruct E as [x [y [-> [Hx _]]]].
    exists x, y. rewrite Hx. auto.
  - intros [x [rest [-> Hm]]]. exists (foldCase x). split; [exact Hm|].
    rewrite foldCase_app. apply prefix_append.
Qed.

Lemma isQualifier_iff (c : ascii) :
  isQualifier c = true <-> In (String c "") [ "+"; "-"; "~"; "?" ]%string.
Proof.
  unfold isQualifier. simpl. rewrite !orb_true_iff, !(Ascii.eqb_eq c).
  split.
  - intros [->|[->|[->|[->|H]]]]; auto; discriminate.
  - intros [H|[H|[H|[H|[]]]]]; inversion H; auto.
Qed.

Lemma validMechanisms_test_iff (part : string) :
  validMechanisms_test part = true <-> mechanismToken part.
Proof.
  unfold mechanismToken. destruct part as [|c rest].
  - simpl. split; [discriminate|].
    intros [q [x [r [E [_ Hm]]]]].
    destruct q; [|discriminate]. destruct x; [|discriminate].
    simpl in Hm. intuition discriminate.
  - unfold validMechanisms_test.
    rewrite orb_true_iff, andb_true_iff, isQualifier_iff, !matchesMechanismName_iff.
    split.
    + intros [[Hq [x [r [-> Hm]]]]|[x [r [E Hm]]]].
      * exists (String c ""), x, r. split; [reflexivity|]. split; [|exact Hm].
        right. exact Hq.
      * exists ""%string, x, r. split; [exact E|]. split; [left; reflexivity|exact Hm].
    + intros [q [x [r [E [Hq Hm]]]]].
      destruct Hq as [<-|Hq].
      * right. exists x, r. auto.
      * left.
        assert (Hc : q = String c "" /\ rest = (x ++ r)%string).
        { simpl in Hq.
          destruct Hq as [<-|[<-|[<-|[<-|[]]]]]; inversion E; auto. }
        destruct Hc as [-> ->]. split; [exact Hq|]. exists x, r. auto.
Qed.

Lemma split_no_separator (sep : ascii) (s : string) :
  includes_unit s sep = false -> split sep s = [s].
Proof.
  induction s as [|a s IH]; simpl; [reflexivity|].
  intros H. apply orb_false_iff in H. destruct H as [Ha Hs].
  rewrite Ha, (IH Hs). reflexivity.
Qed.

(** X9. A token passes the mechanism test exactly when it starts, after
    an optional qualifier, with a mechanism name in any mix of cases; what
    follows the name is not looked at.  [validateSPF] accepts a record
    exactly when it starts with the literal tag and every space-separated
    token after the first is empty or such a token: the skip of the bare
    [all] adds nothing, and the first token is only checked for the tag, so
    the tag followed by anything without a space is accepted. *)
Theorem validateSPF_examines (s : string) :
  (validateSPF s = true
   <-> startsWith s "v=spf1" = true
       /\ Forall (fun part => part = ""%string \/ mechanismToken part)
            (slice1 (split " "%char s)))
  /\ (forall part, validMechanisms_test part = true <-> mechanismToken part)
  /\ mechanismToken "all"
  /\ (includes_unit s " "%char = false ->
      validateSPF ("v=spf1" ++ s)%string = true).
Proof.
  split; [|split; [|split]].
  - destruct (validateSPF s) eqn:V.
    + split; [intros _|reflexivity].
      assert (Hn : ~ (startsWith s "v=spf1" = false
                      \/ exists part, In part (slice1 (split " "%char s))
                                      /\ badToken part)).
      { intros H. apply validateSPF_false_iff in H. congruence. }
      split.
      * destruct (startsWith s "v=spf1"); [reflexivity|].
        exfalso. apply Hn. left. reflexivity.
      * apply Forall_forall. intros part Hin.
        destruct (String.eqb_spec part "") as [E|N]; [left; exact E|]. right.
        destruct (validMechanisms_test part) eqn:T;
          [apply validMechanisms_test_iff, T|].
        destruct (String.eqb_spec part "all") as [E2|N2].
        { subst part. discriminate T. }
        exfalso. apply Hn. right. exists part. unfold badToken. auto.
    + split; [discriminate|]. intros [Htag Hall]. exfalso.
      apply validateSPF_false_iff in V. destruct V as [V|[part [Hin Hbad]]].
      * congruence.
      * destruct Hbad as [N1 [N2 T]].
        rewrite Forall_forall in Hall. destruct (Hall part Hin) as [E|M].
        { contradiction. }
        apply validMechanisms_test_iff in M. congruence.
  - apply validMechanisms_test_iff.
  - apply validMechanisms_test_iff. reflexivity.
  - intros Hs. unfold validateSPF, startsWith.
    rewrite (prefix_append "v=spf1" s). cbn [negb].
    rewrite split_no_separator; [reflexivity|].
    simpl. exact Hs.
Qed.

(** The tag glued to other text is accepted. *)
Lemma validateSPF_examines_witness : validateSPF "v=spf1garbage" = true.
Proof.
  apply (proj2 (proj2 (proj2 (validateSPF_examines "garbage")))). reflexivity.
Defined.

(* ------------------------------------------------------------------ *)
(** ** durable.ts: the history of a domain *)

Section DomainHistoryFacts.

Variable Raw : Type.

Let Entry : Type := DomainHistoryEntry Raw.

Lemma insertByTimestamp_Permutation (x : Entry) (l : list Entry) :
  Permutation (insertByTimestamp Raw x l) (x :: l).
Proof.
  induction l as [|y l IH]; simpl; [reflexivity|].
  destruct (Z.leb _ _); [reflexivity|].
  rewrite perm_swap. constructor. exact IH.
Qed.

Lemma sortByTimestamp_Permutation (l : list Entry) :
  Permutation (sortByTimestamp Raw l) l.
Proof.
  induction l as [|x l IH]; simpl; [reflexivity|].
  rewrite insertByTimestamp_Permutation. constructor. exact IH.
Qed.

Lemma insertByTimestamp_newestFirst (x : Entry) (l : list Entry) :
  newestFirst Raw l -> newestFirst Raw (insertByTimestamp Raw x l).
Proof.
  unfold newestFirst. induction 1 as [|y l Hl IH Hy]; simpl.
  - repeat constructor.
  - destruct (Z.leb_spec (timestamp Raw y) (timestamp Raw x)) as [Hle|Hgt].
    + constructor; [constructor; assumption|].
      constructor; [exact Hle|].
      eapply Forall_impl; [|exact Hy]. intros z Hz. simpl in Hz. lia.
    + constructor; [exact IH|].
      apply (Permutation_Forall
               (Permutation_sym (insertByTimestamp_Permutation x l))).
      constructor; [lia|exact Hy].
Qed.

Lemma sortByTimestamp_newestFirst (l : list Entry) :
  newestFirst Raw (sortByTimestamp Raw l).
Proof.
  induction l as [|x l IH]; simpl; [constructor|].
  apply insertByTimestamp_newestFirst, IH.
Qed.

(** Sorting a history that is already most recent first changes nothing. *)
Lemma sortByTimestamp_sorted (l : list Entry) :
  newestFirst Raw l -> sortByTimestamp Raw l = l.
Proof.
  unfold newestFirst. induction 1 as [|x l Hl IH Hx]; simpl; [reflexivity|].
  rewrite IH. destruct l as [|y l']; [reflexivity|]. simpl.
  inversion Hx as [|? ? Hy _]; subst.
  destruct (Z.leb_spec (timestamp Raw y) (timestamp Raw x)); [reflexivity|lia].
Qed.

Lemma storage_put_same (st : Storage Raw) key value :
  storage_getOrEmpty Raw (storage_put Raw st key value) key = value.
Proof. unfold storage_getOrEmpty, storage_put. rewrite String.eqb_refl. reflexivity. Qed.

Lemma storage_put_other (st : Storage Raw) key value k :
  k <> key -> storage_put Raw st key value k = st k.
Proof.
  intros N. unfold storage_put.
  destruct (String.eqb_spec k key); [contradiction|reflexivity].
Qed.

Lemma durable_handleStore_complete (st : Storage Raw) now data :
  completeBody Raw data ->
  exists entry,
    domain Raw entry = bodyDomain Raw data
    /\ Some (rawDiagnostics Raw entry) = bodyRawDiagnostics Raw data
    /\ Some (aiExplanation Raw entry) = bodyAiExplanation Raw data
    /\ timestamp Raw entry = storedTimestamp Raw now data
    /\ durable_handleStore Raw st now data
       = (let key := ("history:" ++ bodyDomain Raw data)%string in
          let pushed := storage_getOrEmpty Raw st key ++ [entry] in
          storage_put Raw st key
            (sortByTimestamp Raw
               (if Nat.ltb 50 (List.length pushed) then tl pushed else pushed)),
          {| doStatus := 200; doBody := StoredBody Raw |}).
Proof.
  intros [Hd [Hr Ha]]. unfold durable_handleStore, storedTimestamp.
  destruct (bodyDomain Raw data) as [|c d]; [congruence|].
  destruct (bodyRawDiagnostics Raw data) as [raw|]; [|congruence].
  destruct (bodyAiExplanation Raw data) as [ai|]; [|congruence].
  exists {| domain := String c d; rawDiagnostics := raw; aiExplanation := ai;
            timestamp := match bodyTimestamp Raw data with
                         | Some t => if (t =? 0)%Z then now else t
                         | None => now
                         end |}.
  repeat split.
Qed.

(** X10. A store request with the three required fields is answered 200
    and rewrites the history of its domain alone.  The new history is most
    recent first and holds the new entry, whose timestamp is the one given
    or, when none or zero is given, the current time.  Below 50 entries the
    old ones are all kept; from 50 on the first entry of the old history is
    left out, which is its most recent one when the old history is most
    recent first, and the length does not grow. *)
Theorem durable_store_history (st : Storage Raw) (now : Z) (data : StoreBody Raw) :
  completeBody Raw data ->
  let key := ("history:" ++ bodyDomain Raw data)%string in
  let old := storage_getOrEmpty Raw st key in
  let st' := fst (durable_handleStore Raw st now data) in
  let new := storage_getOrEmpty Raw st' key in
  doStatus Raw (snd (durable_handleStore Raw st now data)) = 200%Z
  /\ (forall k, k <> key -> st' k = st k)
  /\ newestFirst Raw new
  /\ exists entry,
       In entry new
       /\ domain Raw entry = bodyDomain Raw data
       /\ Some (rawDiagnostics Raw entry) = bodyRawDiagnostics Raw data
       /\ Some (aiExplanation Raw entry) = bodyAiExplanation Raw data
       /\ timestamp Raw entry = storedTimestamp Raw now data
       /\ (List.length old < 50 -> Permutation new (entry :: old))
       /\ (50 <= List.length old ->
           exists dropped rest,
             old = dropped :: rest
             /\ Permutation new (entry :: rest)
             /\ List.length new = List.length old
             /\ (newestFirst Raw old ->
                 Forall (fun x => (timestamp Raw x <= timestamp Raw dropped)%Z) rest)).
Proof.
  intros Hc key old st' new.
  destruct (durable_handleStore_complete st now data Hc)
    as [entry [Hd [Hr [Ha [Ht E]]]]].
  subst new st'. rewrite E. cbn [fst snd doStatus]. fold key. fold old.
  rewrite storage_put_same.
  split; [reflexivity|]. split; [intros k Hk; apply storage_put_other, Hk|].
  split; [apply sortByTimestamp_newestFirst|].
  exists entry.
  assert (Hlen : List.length (old ++ [entry]) = S (List.length old))
    by (rewrite length_app; simpl; lia).
  split.
  { apply (Permutation_in _ (Permutation_sym (sortByTimestamp_Permutation _))).
    destruct (Nat.ltb_spec 50 (List.length (old ++ [entry]))) as [H|H].
    - destruct old as [|x old']; [simpl in H; lia|].
      cbn [app tl]. apply in_or_app. right. left. reflexivity.
    - apply in_or_app. right. left. reflexivity. }
  repeat (split; [assumption|]).
  split.
  - intros Hlt. rewrite sortByTimestamp_Permutation.
    destruct (Nat.ltb_spec 50 (List.length (old ++ [entry]))) as [H|H]; [lia|].
    apply Permutation_sym, Permutation_cons_append.
  - intros Hge.
    destruct (Nat.ltb_spec 50 (List.length (old ++ [entry]))) as [H|H]; [|lia].
    destruct old as [|dropped rest]; [simpl in Hge; lia|].
    exists dropped, rest. split; [reflexivity|].
    cbn [app tl]. split; [|split].
    + rewrite sortByTimestamp_Permutation.
      apply Permutation_sym, Permutation_cons_append.
    + rewrite (Permutation_length (sortByTimestamp_Permutation _)).
      rewrite length_app. simpl. lia.
    + intros Hs. unfold newestFirst in Hs. inversion Hs; subst. assumption.
Qed.

Lemma durable_handleStore_incomplete (st : Storage Raw) now data :
  ~ completeBody Raw data ->
  durable_handleStore Raw st now data
  = (st, {| doStatus := 400;
            doBody := ErrorBody Raw
                        "Missing required fields: domain, rawDiagnostics, aiExplanation"
                        None |}).
Proof.
  intros Hn. unfold durable_handleStore.
  destruct (bodyDomain Raw data) as [|c d] eqn:Hd; [reflexivity|].
  destruct (bodyRawDiagnostics Raw data) as [raw|] eqn:Hr; [|reflexivity].
  destruct (bodyAiExplanation Raw data) as [ai|] eqn:Ha; [|reflexivity].
  exfalso. apply Hn. unfold completeBody. rewrite Hd, Hr, Ha.
  repeat split; discriminate.
Qed.

Lemma completeBody_dec (data : StoreBody Raw) :
  completeBody Raw data \/ ~ completeBody Raw data.
Proof.
  unfold completeBody.
  destruct (bodyDomain Raw data); [right; intros [H _]; congruence|].
  destruct (bodyRawDiagnostics Raw data); [|right; intros [_ [H _]]; congruence].
  destruct (bodyAiExplanation Raw data); [|right; intros [_ [_ H]]; congruence].
  left. repeat split; discriminate.
Qed.

(** Storing, then reading the history of the same domain. *)
Lemma durable_round_trip (st : Storage Raw) (now later : Z)
    (data : StoreBody Raw) (anyParam : option string)
    (anyJson : Completion (StoreBody Raw)) :
  completeBody Raw data ->
  let store := {| requestMethod := "POST"; requestPath := "/store";
                  requestDomainParam := anyParam;
                  requestJson := Return data |} in
  let read := {| requestMethod := "GET"; requestPath := "/history";
                 requestDomainParam := Some (bodyDomain Raw data);
                 requestJson := anyJson |} in
  let stored := DomainHistory_fetch Raw st now store in
  let answered := DomainHistory_fetch Raw (fst stored) later read in
  snd stored = {| doStatus := 200; doBody := StoredBody Raw |}
  /\ fst answered = fst stored
  /\ exists history entry,
       fst stored ("history:" ++ bodyDomain Raw data)%string = Some history
       /\ snd answered
          = {| doStatus := 200;
               doBody := HistoryBody Raw (bodyDomain Raw data) history |}
       /\ newestFirst Raw history
       /\ In entry history
       /\ domain Raw entry = bodyDomain Raw data
       /\ Some (rawDiagnostics Raw entry) = bodyRawDiagnostics Raw data
       /\ Some (aiExplanation Raw entry) = bodyAiExplanation Raw data
       /\ timestamp Raw entry = storedTimestamp Raw now data.
Proof.
  intros Hc store read stored answered.
  destruct (durable_handleStore_complete st now data Hc)
    as [entry [Hd [Hr [Ha [Ht E]]]]].
  assert (Es : stored = durable_handleStore Raw st now data) by reflexivity.
  rewrite E in Es. cbv zeta in Es.
  set (key := ("history:" ++ bodyDomain Raw data)%string) in *.
  set (pushed := storage_getOrEmpty Raw st key ++ [entry]) in *.
  set (history := sortByTimestamp Raw
                    (if Nat.ltb 50 (List.length pushed) then tl pushed else pushed))
    in *.
  assert (Hsorted : newestFirst Raw history) by apply sortByTimestamp_newestFirst.
  assert (Hnonempty : bodyDomain Raw data <> ""%string) by apply Hc.
  assert (Ea : answered
               = (fst stored,
                  {| doStatus := 200;
                     doBody := HistoryBody Raw (bodyDomain Raw data) history |})).
  { subst answered. unfold DomainHistory_fetch, read. cbn [requestMethod requestPath].
    cbn [String.eqb Ascii.eqb Bool.eqb andb]. cbn [requestDomainParam].
    unfold durable_handleGetHistory.
    destruct (bodyDomain Raw data) as [|c d] eqn:Hdom; [congruence|].
    rewrite Es. cbn [fst]. fold key.
    rewrite storage_put_same, (sortByTimestamp_sorted _ Hsorted). reflexivity. }
  rewrite Ea, Es. cbn [fst snd].
  split; [reflexivity|]. split; [reflexivity|].
  exists history, entry.
  split; [unfold storage_put; rewrite String.eqb_refl; reflexivity|].
  split; [reflexivity|]. split; [exact Hsorted|].
  split; [|auto].
  subst history.
  apply (Permutation_in _ (Permutation_sym (sortByTimestamp_Permutation _))).
  subst pushed.
  destruct (Nat.ltb_spec 50
              (List.length (storage_getOrEmpty Raw st key ++ [entry]))) as [H|H].
  - destruct (storage_getOrEmpty Raw st key) as [|x old']; [simpl in H; lia|].
    cbn [app tl]. apply in_or_app. right. left. reflexivity.
  - apply in_or_app. right. left. reflexivity.
Qed.

(** X11. After a store request with the three required fields, a history
    request for the same domain is answered 200 with the domain and exactly
    the list that the store request put into the storage, in the same
    order: the list is most recent first and holds the entry just stored.
    The history request leaves the storage as it is. *)
Theorem durable_store_then_history (st : Storage Raw) (now later : Z)
    (data : StoreBody Raw) (anyParam : option string)
    (anyJson : Completion (StoreBody Raw)) :
  completeBody Raw data ->
  let store := {| requestMethod := "POST"; requestPath := "/store";
                  requestDomainParam := anyParam;
                  requestJson := Return data |} in
  let read := {| requestMethod := "GET"; requestPath := "/history";
                 requestDomainParam := Some (bodyDomain Raw data);
                 requestJson := anyJson |} in
  let stored := DomainHistory_fetch Raw st now store in
  let answered := DomainHistory_fetch Raw (fst stored) later read in
  snd stored = {| doStatus := 200; doBody := StoredBody Raw |}
  /\ fst answered = fst stored
  /\ exists history entry,
       fst stored ("history:" ++ bodyDomain Raw data)%string = Some history
       /\ snd answered
          = {| doStatus := 200;
               doBody := HistoryBody Raw (bodyDomain Raw data) history |}
       /\ newestFirst Raw history
       /\ In entry history
       /\ domain Raw entry = bodyDomain Raw data
       /\ Some (rawDiagnostics Raw entry) = bodyRawDiagnostics Raw data
       /\ Some (aiExplanation Raw entry) = bodyAiExplanation Raw data
       /\ timestamp Raw entry = storedTimestamp Raw now data.
Proof. apply durable_round_trip. Qed.

(** X12. The object writes to its storage only when it answers 200 to a
    POST on [/store] whose body has the three required fields; an OPTIONS
    request, a history request, a store request that is unreadable or
    incomplete, and a request for anything else leave the storage as it
    is. *)
Theorem durable_fetch_writes_only_on_store (st : Storage Raw) (now : Z)
    (request : DurableRequest Raw) :
  fst (DomainHistory_fetch Raw st now request) = st
  \/ (requestMethod Raw request = "POST"%string
      /\ requestPath Raw request = "/store"%string
      /\ doStatus Raw (snd (DomainHistory_fetch Raw st now request)) = 200%Z
      /\ exists data,
           requestJson Raw request = Return data /\ completeBody Raw data).
Proof.
  unfold DomainHistory_fetch.
  destruct (String.eqb_spec (requestMethod Raw request) "OPTIONS");
    [left; reflexivity|].
  destruct (String.eqb_spec (requestMethod Raw request) "POST") as [Hm|Hm];
    cbn [andb].
  - destruct (String.eqb_spec (requestPath Raw request) "/store") as [Hp|Hp].
    + destruct (requestJson Raw request) as [data|reason]; [|left; reflexivity].
      destruct (completeBody_dec data) as [Hc|Hn].
      * right. split; [exact Hm|]. split; [exact Hp|].
        destruct (durable_handleStore_complete st now data Hc)
          as [entry [_ [_ [_ [_ E]]]]].
        rewrite E. split; [reflexivity|]. exists data. auto.
      * left. rewrite (durable_handleStore_incomplete st now data Hn). reflexivity.
    + destruct (String.eqb (requestMethod Raw request) "GET"
                && String.eqb (requestPath Raw request) "/history");
        left; reflexivity.
  - destruct (String.eqb (requestMethod Raw request) "GET"
              && String.eqb (requestPath Raw request) "/history");
      left; reflexivity.
Qed.

End DomainHistoryFacts.

(** A first store request into an empty storage. *)
Lemma durable_store_history_witness :
  newestFirst unit
    (storage_getOrEmpty unit
       (fst (durable_handleStore unit emptyStorage 1700000000000 exampleStoreBody))
       "history:example.com").
Proof.
  refine (proj1 (proj2 (proj2
            (durable_store_history unit emptyStorage 1700000000000
               exampleStoreBody _)))).
  unfold completeBody. simpl. repeat split; discriminate.
Defined.

(** Storing into an empty storage, then reading. *)
Lemma durable_store_then_history_witness :
  snd (DomainHistory_fetch unit emptyStorage 1700000000000
         {| requestMethod := "POST"; requestPath := "/store";
            requestDomainParam := None;
            requestJson := Return exampleStoreBody |})
  = {| doStatus := 200; doBody := StoredBody unit |}.
Proof.
  refine (proj1 (durable_store_then_history unit emptyStorage
                   1700000000000 1700000000001 exampleStoreBody None
                   (Throw "no body") _)).
  unfold completeBody. simpl. repeat split; discriminate.
Defined.

(* ------------------------------------------------------------------ *)
(** ** ai.ts: the explanation without a provider *)

Lemma filter_map_swap {A B : Type} (f : A -> B) (p : B -> bool) (l : list A) :
  filter p (map f l) = map f (filter (fun a => p (f a)) l).
Proof.
  induction l as [|a l IH]; simpl; [reflexivity|].
  destruct (p (f a)); simpl; rewrite IH; reflexivity.
Qed.

Lemma filter_pointwise {A : Type} (p q : A -> bool) (l : list A) :
  (forall a, p a = q a) -> filter p l = filter q l.
Proof.
  intros E. induction l as [|a l IH]; simpl; [reflexivity|].
  rewrite E, IH. reflexivity.
Qed.

Lemma fallback_rated (diagnostics : DiagnosticResult) :
  ratedCount 8 (fallbackExplanation diagnostics)
  = countSeverity Error (issues diagnostics)
  /\ ratedCount 5 (fallbackExplanation diagnostics)
     = countSeverity Warning (issues diagnostics)
  /\ ratedCount 3 (fallbackExplanation diagnostics)
     = countSeverity Info (issues diagnostics).
Proof.
  unfold ratedCount, fallbackExplanation, countSeverity. cbn [aiIssues].
  rewrite !filter_map_swap, !length_map. cbn [aiSeverity].
  repeat split; f_equal; apply filter_pointwise; intros i;
    destruct (severity i); reflexivity.
Qed.

(** X13. When the first provider throws and the second is not configured
    or throws too, the explanation of a report of [analyzeDNS] has one item
    per issue, in report order, titled with the issue's message and rated 8
    for an error, 5 for a warning and 3 for an info: the numbers of items
    rated 8, 5 and 3 are the report's [errors], [warnings] and [info], and
    every rating lies from 1 to 10. *)
Theorem analyzeWithAI_fallback
    (analyzeWithWorkersAI analyzeWithOpenAI : DiagnosticJSON -> Completion AIExplanation)
    (OPENAI_API_KEY : option string)
    (dnsResults : AllDNSResults) (domain : string) :
  let diagnostics := analyzeDNS dnsResults domain in
  let diagnosticJSON := diagnosticJSONOf dnsResults diagnostics in
  (exists reason, analyzeWithWorkersAI diagnosticJSON = Throw reason) ->
  (keyConfigured OPENAI_API_KEY = false
   \/ exists reason, analyzeWithOpenAI diagnosticJSON = Throw reason) ->
  let e := analyzeWithAI analyzeWithWorkersAI analyzeWithOpenAI OPENAI_API_KEY
             dnsResults diagnostics in
  map issue (aiIssues e) = map message (issues diagnostics)
  /\ ratedCount 8 e = errors (summary diagnostics)
  /\ ratedCount 5 e = warnings (summary diagnostics)
  /\ ratedCount 3 e = info (summary diagnostics)
  /\ Forall (fun i => (1 <= aiSeverity i <= 10)%Z) (aiIssues e).
Proof.
  intros diagnostics diagnosticJSON [r1 H1] H2 e.
  assert (He : e = fallbackExplanation diagnostics).
  { subst e. unfold analyzeWithAI. fold diagnosticJSON. rewrite H1.
    destruct (keyConfigured OPENAI_API_KEY); [|reflexivity].
    destruct H2 as [H2|[r2 H2]]; [discriminate|]. rewrite H2. reflexivity. }
  rewrite He. clear He e.
  split; [|split; [|split; [|split]]].
  - unfold fallbackExplanation. cbn [aiIssues]. rewrite map_map. reflexivity.
  - apply (proj1 (fallback_rated diagnostics)).
  - apply (proj1 (proj2 (fallback_rated diagnostics))).
  - apply (proj2 (proj2 (fallback_rated diagnostics))).
  - unfold fallbackExplanation. cbn [aiIssues]. apply Forall_forall.
    intros i Hin. apply in_map_iff in Hin. destruct Hin as [x [<- _]].
    cbn [aiSeverity]. destruct (severity x); lia.
Qed.

(** Both providers down, on the healthy result set: one item, rated 3. *)
Lemma analyzeWithAI_fallback_witness :
  ratedCount 3
    (analyzeWithAI providerDown providerDown (Some "sk-test"%string) healthyExample
       (analyzeDNS healthyExample "example.com"))
  = info (summary (analyzeDNS healthyExample "example.com")).
Proof.
  refine (proj1 (proj2 (proj2 (proj2
            (analyzeWithAI_fallback providerDown providerDown (Some "sk-test"%string)
               healthyExample "example.com" _ _))))).
  - exists "provider unavailable"%string. reflexivity.
  - right. exists "provider unavailable"%string. reflexivity.
Defined.

Lemma hasError_outcomeOf name response :
  hasError (outcomeOf name response) = true <-> response = None.
Proof. destruct response; simpl; split; congruence. Qed.

Lemma existsb_eqb_In (k : string) (l : list string) :
  existsb (String.eqb k) l = true <-> In k l.
Proof.
  rewrite existsb_exists. split.
  - intros [x [Hin E]]. apply String.eqb_eq in E. subst. exact Hin.
  - intros Hin. exists k. split; [exact Hin|apply String.eqb_refl].
Qed.

(** X14. In the digest that [analyzeWithAI] builds from a result of the
    pipeline, the record types are the supported ones, the count of a type
    is the number of its primary records, and [hasPropagationIssues] is set
    exactly when some record type with at least one primary record has a
    resolver whose propagation query failed: a failure of a primary query
    does not set it. *)
Theorem pipeline_digest
    (encodeURIComponent : string -> string)
    (fetch fetchLater : string -> RequestInit -> FetchOutcome)
    (domain : string) (sched : list nat) (schedOf : string -> list nat)
    (diagnostics : DiagnosticResult) :
  let results :=
    queryDNSWithPropagation encodeURIComponent fetch fetchLater domain sched schedOf in
  let digest := digestDnsResults (diagnosticJSONOf results diagnostics) in
  let primary ty :=
    answerOrEmpty (queryDNS encodeURIComponent fetch domain ty RESOLVERS_CLOUDFLARE) in
  Permutation (recordTypes digest) QUERY_RECORD_TYPES
  /\ (forall ty, In ty QUERY_RECORD_TYPES ->
        JsObject.get (recordCounts digest) ty = Some (List.length (primary ty)))
  /\ (hasPropagationIssues digest = true
      <-> exists ty name url,
            In ty QUERY_RECORD_TYPES
            /\ In (name, url) RESOLVERS
            /\ primary ty <> []
            /\ queryDNS encodeURIComponent fetchLater domain ty url = None).
Proof.
  intros results digest primary. subst digest results.
  unfold diagnosticJSONOf. cbn [digestDnsResults recordTypes recordCounts
                                 hasPropagationIssues].
  rewrite !queryDNSWithPropagation_eq.
  set (order := settleOrder sched QUERY_RECORD_TYPES).
  assert (Hord : Permutation order QUERY_RECORD_TYPES)
    by apply settleOrder_Permutation.
  assert (Hnd : NoDup order)
    by (apply (Permutation_NoDup (Permutation_sym Hord)), QUERY_RECORD_TYPES_NoDup).
  unfold JsObject.keys, JsObject.values, JsObject.entries. rewrite !map_map.
  cbn [fst snd]. rewrite map_id.
  split; [exact Hord|]. split.
  - intros ty Hty. rewrite fromEntries_NoDup.
    + rewrite (get_map_keyed
                 (fun ty0 =>
                    List.length
                      (primaryRecords
                         (pipelineEntry encodeURIComponent fetch fetchLater domain
                            ty0 (schedOf ty0)))) order ty).
      rewrite (proj2 (existsb_eqb_In ty order))
        by (apply (Permutation_in _ (Permutation_sym Hord)), Hty).
      reflexivity.
    + rewrite map_map. cbn [fst]. rewrite map_id. exact Hnd.
  - rewrite existsb_exists. split.
    + intros [q [Hq Hex]]. apply in_map_iff in Hq. destruct Hq as [ty [<- Hty]].
      unfold pipelineEntry in Hex. cbn [propagation] in Hex. fold (primary ty) in Hex.
      destruct (primary ty) as [|r rs] eqn:Hp; [discriminate Hex|].
      rewrite checkPropagation_eq, map_map in Hex. cbn [snd] in Hex.
      apply existsb_exists in Hex. destruct Hex as [o [Ho He]].
      apply in_map_iff in Ho. destruct Ho as [[name url] [<- Hin]].
      cbn [fst snd] in He. apply hasError_outcomeOf in He.
      exists ty, name, url.
      split; [apply (Permutation_in _ Hord), Hty|].
      split; [apply (Permutation_in _ (settleOrder_Permutation (schedOf ty) _)), Hin|].
      split; [change (primary ty <> []); rewrite Hp; discriminate|exact He].
    + intros [ty [name [url [Hty [Hin [Hp He]]]]]].
      exists (pipelineEntry encodeURIComponent fetch fetchLater domain ty (schedOf ty)).
      split.
      * apply (in_map (fun ty0 => pipelineEntry encodeURIComponent fetch fetchLater
                                    domain ty0 (schedOf ty0))).
        apply (Permutation_in _ (Permutation_sym Hord)), Hty.
      * unfold pipelineEntry. cbn [propagation]. fold (primary ty).
        destruct (primary ty) as [|r rs]; [congruence|].
        rewrite checkPropagation_eq, map_map. cbn [snd].
        apply existsb_exists.
        exists (outcomeOf name
                  (queryDNS encodeURIComponent fetchLater domain ty url)).
        split; [|apply hasError_outcomeOf, He].
        apply (in_map (fun entry : string * string =>
                         outcomeOf (fst entry)
                           (queryDNS encodeURIComponent fetchLater domain ty
                              (snd entry))) _ (name, url)).
        apply (Permutation_in _
                 (Permutation_sym (settleOrder_Permutation (schedOf ty) _))), Hin.
Qed.

(* ------------------------------------------------------------------ *)
(** ** Anchored patterns: [test] decides the language *)

Lemma string_app_nil (x y : string) : (x ++ y)%string = ""%string -> x = ""%string /\ y = ""%string.
Proof. destruct x; simpl; [auto|discriminate]. Qed.

Lemma nullable_Matches (r : regex) : nullable r = true <-> Matches r "".
Proof.
  split.
  - induction r; simpl; intros H; try discriminate.
    + constructor.
    + apply andb_true_iff in H. destruct H as [H1 H2].
      apply (MatchesCat r1 r2 "" ""); auto.
    + apply orb_true_iff in H. destruct H as [H|H].
      * apply MatchesAltL; auto.
      * apply MatchesAltR; auto.
    + constructor.
  - intros H. remember ""%string as w eqn:E.
    induction H as [|p c Hp|r s x y _ IH1 _ IH2|r s x _ IH|r s x _ IH| |r x y _ _ _ _];
      simpl; try reflexivity; try discriminate.
    + apply string_app_nil in E. destruct E as [-> ->].
      rewrite IH1, IH2; reflexivity.
    + rewrite IH; [reflexivity|exact E].
    + rewrite IH; [apply orb_true_r|exact E].
Qed.

Lemma deriv_Matches (c : ascii) (r : regex) (s : string) :
  Matches (deriv c r) s <-> Matches r (String c s).
Proof.
  split.
  - revert s. induction r as [| |p|r1 IH1 r2 IH2|r1 IH1 r2 IH2|r IH];
      intros s H; simpl in H.
    + inversion H.
    + inversion H.
    + destruct (p c) eqn:Hp; inversion H; subst. constructor. exact Hp.
    + destruct (nullable r1) eqn:N.
      * inversion H as [| | | ? ? ? H'| ? ? ? H'| |]; subst.
        -- inversion H' as [| |? ? x y Hx Hy| | | |]; subst.
           apply (MatchesCat r1 r2 (String c x) y); auto.
        -- apply (MatchesCat r1 r2 "" (String c s)); [|auto].
           apply nullable_Matches, N.
      * inversion H as [| |? ? x y Hx Hy| | | |]; subst.
        apply (MatchesCat r1 r2 (String c x) y); auto.
    + inversion H; subst; [apply MatchesAltL|apply MatchesAltR]; auto.
    + inversion H as [| |? ? x y Hx Hy| | | |]; subst.
      apply (MatchesStarCons r (String c x) y); auto.
  - intros H. remember (String c s) as w eqn:E. revert c s E.
    induction H as [|p a Hp|r1 r2 x y H1 IH1 H2 IH2|r1 r2 x _ IH|r1 r2 x _ IH|
                    |r x y H1 IH1 H2 IH2];
      intros c s E; try discriminate.
    + inversion E; subst. simpl. rewrite Hp. constructor.
    + simpl. destruct x as [|a x'].
      * simpl in E. subst y.
        rewrite (proj2 (nullable_Matches r1) H1).
        apply MatchesAltR. apply IH2. reflexivity.
      * simpl in E. inversion E; subst.
        destruct (nullable r1).
        -- apply MatchesAltL. constructor; [apply IH1; reflexivity|exact H2].
        -- constructor; [apply IH1; reflexivity|exact H2].
    + simpl. apply MatchesAltL. apply IH, E.
    + simpl. apply MatchesAltR. apply IH, E.
    + destruct x as [|a x'].
      * simpl in E. apply IH2, E.
      * simpl in E. inversion E; subst. simpl.
        constructor; [apply IH1; reflexivity|exact H2].
Qed.

Lemma regex_test_Matches (r : regex) (s : string) :
  regex_test r s = true <-> Matches r s.
Proof.
  revert r. induction s as [|c s IH]; intros r; simpl.
  - apply nullable_Matches.
  - rewrite IH. apply deriv_Matches.
Qed.

Lemma string_length_app (a b : string) :
  String.length (a ++ b) = String.length a + String.length b.
Proof. induction a as [|c a IH]; simpl; [reflexivity|]. rewrite IH. reflexivity. Qed.

Lemma string_app_assoc (a b c : string) :
  ((a ++ b) ++ c)%string = (a ++ (b ++ c))%string.
Proof. induction a as [|x a IH]; simpl; [reflexivity|]. rewrite IH. reflexivity. Qed.

Lemma string_app_nil_r (a : string) : (a ++ "")%string = a.
Proof. induction a as [|x a IH]; simpl; [reflexivity|]. rewrite IH. reflexivity. Qed.

Lemma allUnits_app p (a b : string) :
  allUnits p (a ++ b) = allUnits p a && allUnits p b.
Proof.
  induction a as [|x a IH]; simpl; [reflexivity|].
  rewrite IH, andb_assoc. reflexivity.
Qed.

Lemma allUnits_impl (p q : ascii -> bool) (s : string) :
  (forall c, p c = true -> q c = true) -> allUnits p s = true -> allUnits q s = true.
Proof.
  intros Hpq. induction s as [|c s IH]; simpl; [reflexivity|].
  intros H. apply andb_true_iff in H. destruct H as [Hc Hs].
  rewrite (Hpq c Hc), (IH Hs). reflexivity.
Qed.

Lemma lastUnit_app p (a : string) (c : ascii) :
  lastUnit p (a ++ String c "") = p c.
Proof.
  induction a as [|x a IH]; simpl; [reflexivity|].
  destruct (a ++ String c "")%string eqn:E; [|exact IH].
  destruct a; discriminate.
Qed.

Lemma lastUnit_inv p (s : string) :
  lastUnit p s = true ->
  exists front c, s = (front ++ String c "")%string /\ p c = true.
Proof.
  induction s as [|x s IH]; simpl; [discriminate|].
  destruct s as [|y s'].
  - intros H. exists ""%string, x. auto.
  - intros H. destruct (IH H) as [front [c [E Hc]]].
    exists (String x front), c. simpl. rewrite <- E. auto.
Qed.

Lemma Matches_Cls_iff p (s : string) :
  Matches (Cls p) s <-> exists c, s = String c "" /\ p c = true.
Proof.
  split.
  - intros H. inversion H; subst. eauto.
  - intros [c [-> Hc]]. constructor. exact Hc.
Qed.

Lemma Matches_Star_Cls p (s : string) :
  Matches (Star (Cls p)) s <-> allUnits p s = true.
Proof.
  split.
  - intros H. remember (Star (Cls p)) as r eqn:E.
    induction H as [| | | | | |r x y H1 _ H2 IH2]; try discriminate.
    + reflexivity.
    + inversion E; subst. inversion H1; subst. simpl.
      rewrite (IH2 eq_refl). rewrite andb_true_r. assumption.
  - induction s as [|c s IH]; simpl; intros H.
    + constructor.
    + apply andb_true_iff in H. destruct H as [Hc Hs].
      apply (MatchesStarCons (Cls p) (String c "") s); [constructor|]; auto.
Qed.

Lemma Matches_upTo_Cls n p (s : string) :
  Matches (upTo n (Cls p)) s <-> String.length s <= n /\ allUnits p s = true.
Proof.
  revert s. induction n as [|n IH]; intros s; simpl.
  - split.
    + intros H. inversion H; subst. simpl. auto.
    + intros [Hl _]. destruct s; [constructor|simpl in Hl; lia].
  - split.
    + intros H. inversion H as [| | |? ? ? H'|? ? ? H'| |]; subst.
      * inversion H'; subst. simpl. split; [lia|reflexivity].
      * inversion H' as [| |? ? x y Hx Hy| | | |]; subst.
        inversion Hx; subst. apply IH in Hy. destruct Hy as [Hl Ha].
        simpl. split; [lia|]. rewrite Ha, andb_true_r. assumption.
    + intros [Hl Ha]. destruct s as [|c s].
      * apply MatchesAltL. constructor.
      * simpl in Hl, Ha. apply andb_true_iff in Ha. destruct Ha as [Hc Hs].
        apply MatchesAltR.
        apply (MatchesCat (Cls p) (upTo n (Cls p)) (String c "") s).
        -- constructor. exact Hc.
        -- apply IH. split; [lia|exact Hs].
Qed.

Lemma Matches_atLeast2_Cls p (s : string) :
  Matches (atLeast2 (Cls p)) s <-> 2 <= String.length s /\ allUnits p s = true.
Proof.
  unfold atLeast2. split.
  - intros H. inversion H as [| |? ? x y Hx Hy| | | |]; subst.
    inversion Hy as [| |? ? x' y' Hx' Hy'| | | |]; subst.
    inversion Hx; subst. inversion Hx'; subst.
    apply Matches_Star_Cls in Hy'. simpl. split; [lia|].
    rewrite Hy', andb_true_r. apply andb_true_iff. auto.
  - intros [Hl Ha]. destruct s as [|a [|b s]]; simpl in Hl; try lia.
    simpl in Ha. apply andb_true_iff in Ha. destruct Ha as [Ha Hb].
    apply andb_true_iff in Hb. destruct Hb as [Hb Hs].
    apply (MatchesCat _ _ (String a "") (String b s)); [constructor; exact Ha|].
    apply (MatchesCat _ _ (String b "") s); [constructor; exact Hb|].
    apply Matches_Star_Cls, Hs.
Qed.

Lemma isAlnum_isAlnumHyphen c : isAlnum c = true -> isAlnumHyphen c = true.
Proof. unfold isAlnumHyphen. intros ->. reflexivity. Qed.

Lemma Matches_labelPattern (s : string) : Matches labelPattern s <-> validLabel s.
Proof.
  unfold labelPattern, opt, validLabel.
  remember (upTo 61 (Cls isAlnumHyphen)) as mid eqn:Emid. split.
  - intros H. inversion H as [| |? ? x y Hx Hy| | | |]; subst.
    inversion Hx as [|? c Hc| | | | |]; subst.
    inversion Hy as [| | |? ? ? H'|? ? ? H'| |]; subst.
    + inversion H'; subst. simpl.
      rewrite (isAlnum_isAlnumHyphen c Hc), Hc. repeat split; lia.
    + inversion H' as [| |? ? m d Hm Hd| | | |]; subst.
      inversion Hd as [|? e He| | | | |]; subst.
      apply (Matches_upTo_Cls 61) in Hm. destruct Hm as [Hl Ha].
      cbn [append String.length allUnits firstUnit].
      rewrite string_length_app, allUnits_app. cbn [String.length allUnits].
      rewrite Ha, (isAlnum_isAlnumHyphen c Hc), (isAlnum_isAlnumHyphen e He), Hc.
      split; [lia|]. split; [reflexivity|]. split; [reflexivity|].
      change (String c (m ++ String e ""))%string
        with ((String c m) ++ String e "")%string.
      rewrite lastUnit_app. exact He.
  - intros [[Hl1 Hl2] [Ha [Hf Hlast]]].
    destruct s as [|c rest]; [discriminate Hf|]. simpl in Hf.
    apply (MatchesCat _ _ (String c "") rest); [constructor; exact Hf|].
    destruct rest as [|c' rest'].
    + apply MatchesAltL. constructor.
    + apply MatchesAltR.
      assert (Hlast' : lastUnit isAlnum (String c' rest') = true) by exact Hlast.
      apply lastUnit_inv in Hlast'. destruct Hlast' as [m [d [E Hd]]].
      rewrite E. constructor; [|constructor; exact Hd].
      rewrite Emid. apply Matches_upTo_Cls.
      rewrite E in Hl2, Ha. cbn [String.length allUnits] in Hl2, Ha.
      rewrite string_length_app in Hl2. simpl in Hl2.
      apply andb_true_iff in Ha. destruct Ha as [_ Ha].
      rewrite allUnits_app in Ha. apply andb_true_iff in Ha. destruct Ha as [Ha _].
      split; [lia|exact Ha].
Qed.

Lemma isDot_iff c : isDot c = true <-> c = "."%char.
Proof. unfold isDot. apply Ascii.eqb_eq. Qed.

Lemma Matches_label_dot (s : string) :
  Matches (Cat labelPattern (Cls isDot)) s
  <-> exists l, validLabel l /\ s = (l ++ ".")%string.
Proof.
  remember labelPattern as lp eqn:Elp. split.
  - intros H. inversion H as [| |? ? x y Hx Hy| | | |]; subst.
    inversion Hy as [|? c Hc| | | | |]; subst.
    apply isDot_iff in Hc. subst c.
    exists x. split; [apply Matches_labelPattern, Hx|reflexivity].
  - intros [l [Hl ->]]. constructor.
    + rewrite Elp. apply Matches_labelPattern, Hl.
    + constructor. reflexivity.
Qed.

Lemma Matches_Star_labels (s : string) :
  Matches (Star (Cat labelPattern (Cls isDot))) s
  <-> exists labels, Forall validLabel labels /\ s = dotted labels.
Proof.
  remember (Cat labelPattern (Cls isDot)) as ld eqn:Eld. split.
  - intros H. remember (Star ld) as r eqn:E.
    induction H as [| | | | | |r x y H1 _ H2 IH2]; try discriminate.
    + exists []. split; [constructor|reflexivity].
    + inversion E; subst r. destruct (IH2 eq_refl) as [labels [Hall ->]].
      rewrite Eld in H1. apply Matches_label_dot in H1.
      destruct H1 as [l [Hl ->]].
      exists (l :: labels). split; [constructor; assumption|].
      simpl. rewrite string_app_assoc. reflexivity.
  - intros [labels [Hall ->]]. induction Hall as [|l labels Hl _ IH]; simpl.
    + constructor.
    + change (l ++ String "." (dotted labels))%string
        with (l ++ ("." ++ dotted labels))%string.
      rewrite <- string_app_assoc. constructor; [|exact IH].
      rewrite Eld. apply Matches_label_dot. exists l. auto.
Qed.

Lemma Matches_DOMAIN_REGEX (s : string) :
  Matches DOMAIN_REGEX s
  <-> exists labels tld,
        labels <> []
        /\ Forall validLabel labels
        /\ validTld tld
        /\ s = (dotted labels ++ tld)%string.
Proof.
  unfold DOMAIN_REGEX, plus.
  remember (Cat labelPattern (Cls isDot)) as ld eqn:Eld.
  remember (atLeast2 (Cls isLetter)) as tl2 eqn:Etl. split.
  - intros H. inversion H as [| |? ? x t Hx Ht| | | |]; subst.
    inversion Hx as [| |? ? x1 xs Hx1 Hxs| | | |]; subst.
    apply Matches_label_dot in Hx1. destruct Hx1 as [l [Hl ->]].
    apply Matches_Star_labels in Hxs. destruct Hxs as [labels [Hall ->]].
    apply Matches_atLeast2_Cls in Ht.
    exists (l :: labels), t. split; [discriminate|].
    split; [constructor; assumption|]. split; [exact Ht|].
    cbn [dotted]. rewrite (string_app_assoc l "." (dotted labels)). reflexivity.
  - intros [labels [tld [Hne [Hall [Ht ->]]]]].
    destruct labels as [|l labels]; [congruence|].
    apply Forall_cons_iff in Hall. destruct Hall as [Hl Hrest].
    apply MatchesCat; [|rewrite Etl; apply Matches_atLeast2_Cls, Ht].
    cbn [dotted]. rewrite <- (string_app_assoc l "." (dotted labels)).
    apply MatchesCat.
    + rewrite Eld. apply Matches_label_dot. exists l. auto.
    + rewrite Eld. apply Matches_Star_labels. exists labels. auto.
Qed.

(** X15. The worker accepts a domain exactly when, once surrounding white
    space and one final dot are removed, it is one or more labels, each
    followed by a dot, and a top-level domain: a label has 1 to 63 letters,
    digits and hyphens with no hyphen at either end, the top-level domain
    two letters or more. *)
Theorem validateDomain_labels (d : string) :
  validateDomain d = true
  <-> exists labels tld,
        labels <> []
        /\ Forall validLabel labels
        /\ validTld tld
        /\ dropFinalDot (trim d) = (dotted labels ++ tld)%string.
Proof.
  unfold validateDomain. destruct d as [|c d].
  - split; [discriminate|].
    intros [labels [tld [_ [_ [[Hl _] E]]]]]. exfalso.
    simpl in E. symmetry in E. apply string_app_nil in E. destruct E as [_ ->].
    simpl in Hl. lia.
  - cbv zeta. rewrite regex_test_Matches. apply Matches_DOMAIN_REGEX.
Qed.

(** *** The two validators *)

Lemma lastUnit_app_nonempty p (a b : string) :
  b <> ""%string -> lastUnit p (a ++ b) = lastUnit p b.
Proof.
  intros Hb. induction a as [|x a IH]; simpl; [reflexivity|].
  destruct (a ++ b)%string eqn:E; [|exact IH].
  apply string_app_nil in E. destruct E as [_ E]. contradiction.
Qed.

Lemma allUnits_lastUnit p (s : string) :
  s <> ""%string -> allUnits p s = true -> lastUnit p s = true.
Proof.
  induction s as [|c s IH]; [congruence|]. intros _ H. simpl in H.
  apply andb_true_iff in H. destruct H as [Hc Hs].
  destruct s as [|c' s']; [exact Hc|]. apply IH; [discriminate|exact Hs].
Qed.

Lemma lastUnit_both p q (s : string) :
  lastUnit p s = true -> lastUnit q s = true -> exists c, p c = true /\ q c = true.
Proof.
  induction s as [|c s IH]; simpl; [discriminate|].
  destruct s as [|c' s']; [eauto|exact IH].
Qed.

Lemma validTld_lastUnit (tld : string) : validTld tld -> lastUnit isLetter tld = true.
Proof.
  intros [Hl Ha]. apply allUnits_lastUnit; [|exact Ha].
  destruct tld; [simpl in Hl; lia|discriminate].
Qed.

Lemma validTld_nonempty (tld : string) : validTld tld -> tld <> ""%string.
Proof. intros [Hl _]. destruct tld; [simpl in Hl; lia|discriminate]. Qed.

Lemma Matches_domainRegex (s : string) :
  Matches domainRegex s
  <-> exists c mid tld,
        s = String c (mid ++ "." ++ tld)
        /\ isAlnum c = true
        /\ allUnits isAlnumDotHyphen mid = true
        /\ validTld tld.
Proof.
  unfold domainRegex.
  remember (atLeast2 (Cls isLetter)) as tl2 eqn:Etl. split.
  - intros H. inversion H as [| |? ? x y Hx Hy| | | |]; subst.
    inversion Hx as [|? c Hc| | | | |]; subst.
    inversion Hy as [| |? ? mid z Hmid Hz| | | |]; subst.
    inversion Hz as [| |? ? dt tld Hdt Htld| | | |]; subst.
    inversion Hdt as [|? e He| | | | |]; subst.
    apply isDot_iff in He. subst e.
    apply Matches_Star_Cls in Hmid. apply Matches_atLeast2_Cls in Htld.
    exists c, mid, tld. auto.
  - intros [c [mid [tld [-> [Hc [Hmid Htld]]]]]].
    apply (MatchesCat _ _ (String c "") (mid ++ "." ++ tld)); [constructor; exact Hc|].
    apply MatchesCat; [apply Matches_Star_Cls, Hmid|].
    apply (MatchesCat _ _ "." tld); [constructor; reflexivity|].
    rewrite Etl. apply Matches_atLeast2_Cls, Htld.
Qed.

Lemma isAlnumHyphen_isAlnumDotHyphen c :
  isAlnumHyphen c = true -> isAlnumDotHyphen c = true.
Proof.
  unfold isAlnumHyphen, isAlnumDotHyphen. intros H.
  apply orb_true_iff in H. destruct H as [H|H]; rewrite H; [reflexivity|].
  apply orb_true_r.
Qed.

Lemma dotted_body (labels : list string) :
  labels <> [] -> Forall validLabel labels ->
  exists c body,
    dotted labels = (String c body ++ ".")%string
    /\ isAlnum c = true
    /\ allUnits isAlnumDotHyphen body = true.
Proof.
  induction labels as [|l labels IH]; [congruence|]. intros _ Hall.
  apply Forall_cons_iff in Hall. destruct Hall as [[_ [Ha [Hf _]]] Hrest].
  destruct l as [|c lrest]; [discriminate Hf|]. simpl in Hf.
  simpl in Ha. apply andb_true_iff in Ha. destruct Ha as [_ Ha].
  apply (allUnits_impl _ _ _ isAlnumHyphen_isAlnumDotHyphen) in Ha.
  destruct labels as [|l' labels'].
  - exists c, lrest. simpl. auto.
  - destruct (IH ltac:(discriminate) Hrest) as [c' [body' [E [Hc' Hb']]]].
    exists c, (lrest ++ "." ++ String c' body')%string.
    split; [|split; [exact Hf|]].
    + cbn [dotted] in *. rewrite E. cbn [append].
      rewrite string_app_assoc. reflexivity.
    + rewrite allUnits_app, Ha. cbn [append allUnits].
      rewrite Hb'. unfold isAlnumDotHyphen at 2. rewrite Hc'. reflexivity.
Qed.

Lemma DOMAIN_REGEX_domainRegex (s : string) :
  Matches DOMAIN_REGEX s -> Matches domainRegex s.
Proof.
  intros H. apply Matches_DOMAIN_REGEX in H.
  destruct H as [labels [tld [Hne [Hall [Ht ->]]]]].
  destruct (dotted_body labels Hne Hall) as [c [body [E [Hc Hb]]]].
  apply Matches_domainRegex. exists c, body, tld.
  split; [|auto]. rewrite E. cbn [append]. rewrite string_app_assoc. reflexivity.
Qed.

Lemma dropFinalDot_no_dot (s : string) :
  lastUnit isDot s = false -> dropFinalDot s = s.
Proof.
  induction s as [|c s IH]; [reflexivity|]. simpl.
  destruct s as [|c' s'].
  - unfold isDot. intros ->. reflexivity.
  - intros H. rewrite (IH H). reflexivity.
Qed.

Lemma isDot_not_letter c : isDot c = true -> isLetter c = true -> False.
Proof. intros Hd Hl. apply isDot_iff in Hd. subst c. discriminate Hl. Qed.

Lemma validateDomain_test (d : string) :
  validateDomain d = regex_test DOMAIN_REGEX (dropFinalDot (trim d)).
Proof. destruct d; reflexivity. Qed.

Lemma search_validateDomain_test (d : string) :
  search_validateDomain d = regex_test domainRegex (trim d).
Proof.
  unfold search_validateDomain. destruct d as [|c d]; [reflexivity|].
  destruct (String.eqb_spec (trim (String c d)) "") as [E|_]; [|reflexivity].
  rewrite E. reflexivity.
Qed.

Lemma domainRegex_ends_with_letter (s : string) :
  Matches domainRegex s -> lastUnit isLetter s = true.
Proof.
  intros H. apply Matches_domainRegex in H.
  destruct H as [c [mid [tld [-> [_ [_ Ht]]]]]].
  assert (E : String c (mid ++ "." ++ tld)%string
              = ((String c mid ++ ".") ++ tld)%string).
  { cbn [append]. rewrite string_app_assoc. reflexivity. }
  rewrite E, lastUnit_app_nonempty by (apply validTld_nonempty, Ht).
  apply validTld_lastUnit, Ht.
Qed.

(** X16. The search box accepts a domain exactly when, trimmed, it is a
    letter or digit, then letters, digits, dots and hyphens, then a dot and
    two letters or more.  It accepts every domain that the worker accepts
    and that, trimmed, has no final dot; it refuses every domain that,
    trimmed, ends in a dot, though the worker accepts some; and it accepts
    domains with an empty label or a hyphen at the end of a label, which the
    worker refuses. *)
Theorem search_validateDomain_and_worker :
  (forall d,
      search_validateDomain d = true
      <-> exists c mid tld,
            trim d = String c (mid ++ "." ++ tld)
            /\ isAlnum c = true
            /\ allUnits isAlnumDotHyphen mid = true
            /\ validTld tld)
  /\ (forall d,
        validateDomain d = true -> lastUnit isDot (trim d) = false ->
        search_validateDomain d = true)
  /\ (forall d, lastUnit isDot (trim d) = true -> search_validateDomain d = false)
  /\ (validateDomain "example.com." = true
      /\ search_validateDomain "a..com" = true /\ validateDomain "a..com" = false
      /\ search_validateDomain "a-.com" = true /\ validateDomain "a-.com" = false).
Proof.
  split; [|split; [|split]].
  - intros d. rewrite search_validateDomain_test, regex_test_Matches.
    apply Matches_domainRegex.
  - intros d Hv Hdot.
    rewrite validateDomain_test, (dropFinalDot_no_dot _ Hdot) in Hv.
    rewrite search_validateDomain_test.
    apply regex_test_Matches, DOMAIN_REGEX_domainRegex, regex_test_Matches, Hv.
  - intros d Hdot. rewrite search_validateDomain_test.
    destruct (regex_test domainRegex (trim d)) eqn:T; [|reflexivity].
    exfalso. apply regex_test_Matches, domainRegex_ends_with_letter in T.
    destruct (lastUnit_both _ _ _ Hdot T) as [c [Hd Hl]].
    exact (isDot_not_letter c Hd Hl).
  - repeat split; vm_compute; reflexivity.
Qed.

(** A domain that both accept. *)
Lemma search_validateDomain_and_worker_witness :
  search_validateDomain "example.com" = true.
Proof.
  apply (proj1 (proj2 search_validateDomain_and_worker)); vm_compute; reflexivity.
Defined.

(** *** White space and the final dot *)

Lemma isAlnum_not_white c : isAlnum c = true -> isWhiteSpace c = false.
Proof.
  destruct c as [[] [] [] [] [] [] [] []]; vm_compute; intros H;
    first [reflexivity | discriminate H].
Qed.

Lemma isLetter_not_white c : isLetter c = true -> isWhiteSpace c = false.
Proof.
  intros H. apply isAlnum_not_white. unfold isAlnum. rewrite H. reflexivity.
Qed.

Lemma trimStart_pad (pad x : string) :
  allUnits isWhiteSpace pad = true -> trimStart (pad ++ x) = trimStart x.
Proof.
  induction pad as [|c pad IH]; simpl; [reflexivity|]. intros H.
  apply andb_true_iff in H. destruct H as [Hc Hp]. rewrite Hc. exact (IH Hp).
Qed.

Lemma trimStart_first (x : string) :
  firstUnit (fun c => negb (isWhiteSpace c)) x = true -> trimStart x = x.
Proof.
  destruct x as [|c x]; simpl; [reflexivity|]. intros H.
  apply negb_true_iff in H. rewrite H. reflexivity.
Qed.

Lemma trimEnd_white (pad : string) :
  allUnits isWhiteSpace pad = true -> trimEnd pad = ""%string.
Proof.
  induction pad as [|c pad IH]; simpl; [reflexivity|]. intros H.
  apply andb_true_iff in H. destruct H as [Hc Hp]. rewrite (IH Hp), Hc. reflexivity.
Qed.

Lemma trimEnd_pad (x pad : string) :
  allUnits isWhiteSpace pad = true -> trimEnd (x ++ pad) = trimEnd x.
Proof.
  intros Hp. induction x as [|c x IH]; simpl.
  - apply trimEnd_white, Hp.
  - rewrite IH. reflexivity.
Qed.

Lemma trimEnd_last (x : string) :
  lastUnit (fun c => negb (isWhiteSpace c)) x = true -> trimEnd x = x.
Proof.
  induction x as [|c x IH]; [reflexivity|]. simpl.
  destruct x as [|c' x'].
  - intros H. apply negb_true_iff in H. simpl. rewrite H. reflexivity.
  - intros H. rewrite (IH H). reflexivity.
Qed.

Lemma firstUnit_impl (p q : ascii -> bool) (s : string) :
  (forall c, p c = true -> q c = true) -> firstUnit p s = true -> firstUnit q s = true.
Proof. intros Hpq. destruct s; simpl; [discriminate|apply Hpq]. Qed.

Lemma lastUnit_impl (p q : ascii -> bool) (s : string) :
  (forall c, p c = true -> q c = true) -> lastUnit p s = true -> lastUnit q s = true.
Proof.
  intros Hpq. induction s as [|c s IH]; simpl; [discriminate|].
  destruct s; [apply Hpq|exact IH].
Qed.

Lemma trim_padded (pad x pad' : string) :
  allUnits isWhiteSpace pad = true ->
  allUnits isWhiteSpace pad' = true ->
  firstUnit (fun c => negb (isWhiteSpace c)) x = true ->
  lastUnit (fun c => negb (isWhiteSpace c)) x = true ->
  trim (pad ++ x ++ pad') = x.
Proof.
  intros Hp Hp' Hf Hl. unfold trim. rewrite (trimStart_pad _ _ Hp).
  rewrite trimStart_first.
  - rewrite (trimEnd_pad _ _ Hp'). apply trimEnd_last, Hl.
  - destruct x; [discriminate Hf|exact Hf].
Qed.

Lemma dropFinalDot_app_dot (s : string) : dropFinalDot (s ++ ".") = s.
Proof.
  induction s as [|c s IH]; [reflexivity|]. simpl.
  destruct (s ++ ".")%string eqn:E.
  - apply string_app_nil in E. destruct E as [_ E]. discriminate E.
  - rewrite IH. reflexivity.
Qed.

Lemma firstUnit_app p (a b : string) :
  firstUnit p a = true -> firstUnit p (a ++ b) = true.
Proof. destruct a; simpl; [discriminate|auto]. Qed.

Lemma DOMAIN_REGEX_ends (s : string) :
  regex_test DOMAIN_REGEX s = true ->
  firstUnit isAlnum s = true /\ lastUnit isLetter s = true.
Proof.
  intros H. apply regex_test_Matches, DOMAIN_REGEX_domainRegex in H.
  split; [|apply domainRegex_ends_with_letter, H].
  apply Matches_domainRegex in H. destruct H as [c [mid [tld [-> [Hc _]]]]].
  exact Hc.
Qed.

Lemma DOMAIN_REGEX_no_final_dot (s : string) :
  regex_test DOMAIN_REGEX (s ++ ".") = false.
Proof.
  destruct (regex_test DOMAIN_REGEX (s ++ ".")) eqn:T; [|reflexivity].
  exfalso. apply DOMAIN_REGEX_ends in T. destruct T as [_ Hl].
  assert (Hd : lastUnit isDot (s ++ ".") = true) by apply lastUnit_app.
  destruct (lastUnit_both _ _ _ Hd Hl) as [c [H1 H2]].
  exact (isDot_not_letter c H1 H2).
Qed.

(** X17. A name that matches the domain pattern is accepted by the worker
    with any white space around it and with one final dot, and refused with
    two final dots. *)
Theorem validateDomain_normalises (s pad pad' : string) :
  regex_test DOMAIN_REGEX s = true ->
  allUnits isWhiteSpace pad = true ->
  allUnits isWhiteSpace pad' = true ->
  validateDomain (pad ++ s ++ pad') = true
  /\ validateDomain (pad ++ (s ++ ".") ++ pad') = true
  /\ validateDomain (pad ++ (s ++ "..") ++ pad') = false.
Proof.
  intros Hs Hp Hp'.
  destruct (DOMAIN_REGEX_ends s Hs) as [Hf Hl].
  assert (Hnw : forall c, isAlnum c = true -> negb (isWhiteSpace c) = true)
    by (intros c H; rewrite (isAlnum_not_white c H); reflexivity).
  assert (Hf' : firstUnit (fun c => negb (isWhiteSpace c)) s = true)
    by (apply (firstUnit_impl isAlnum); assumption).
  rewrite !validateDomain_test.
  split; [|split].
  - rewrite trim_padded; trivial.
    + rewrite dropFinalDot_no_dot; [exact Hs|].
      destruct (lastUnit isDot s) eqn:Hd; [|reflexivity].
      exfalso. destruct (lastUnit_both _ _ _ Hd Hl) as [c [H1 H2]].
      exact (isDot_not_letter c H1 H2).
    + apply (lastUnit_impl isLetter); [|exact Hl].
      intros c H. rewrite (isLetter_not_white c H). reflexivity.
  - rewrite trim_padded; trivial.
    + rewrite dropFinalDot_app_dot. exact Hs.
    + apply firstUnit_app, Hf'.
    + rewrite lastUnit_app. reflexivity.
  - rewrite trim_padded; trivial.
    + assert (E : (s ++ "..")%string = ((s ++ ".") ++ ".")%string)
        by (rewrite string_app_assoc; reflexivity).
      rewrite E, dropFinalDot_app_dot. apply DOMAIN_REGEX_no_final_dot.
    + apply firstUnit_app, Hf'.
    + assert (E : (s ++ "..")%string = ((s ++ ".") ++ ".")%string)
        by (rewrite string_app_assoc; reflexivity).
      rewrite E, lastUnit_app. reflexivity.
Qed.

(** [example.com] between a space and a line feed. *)
Lemma validateDomain_normalises_witness :
  validateDomain (" " ++ ("example.com" ++ ".") ++ String "010" "") = true.
Proof.
  apply (proj1 (proj2 (validateDomain_normalises "example.com" " "
                         (String "010" "") eq_refl eq_refl eq_refl))).
Defined.

(* ------------------------------------------------------------------ *)
(** ** index.ts: diagnosing, storing, reading back *)

Section WorkerFacts.

Variable Raw : Type.
Variable rawOf : AllDNSResults -> DiagnosticResult -> Raw.
Variable encodeURIComponent : string -> string.
Variables fetch fetchLater : string -> RequestInit -> FetchOutcome.
Variable sched : list nat.
Variable schedOf : string -> list nat.
Variables analyzeWithWorkersAI analyzeWithOpenAI
  : DiagnosticJSON -> Completion AIExplanation.
Variable OPENAI_API_KEY : option string.











End WorkerFacts.

